(** * privy-utils: the resumable user export of [src/index.ts]

    A shallow embedding of the export script: the CSV sink and its
    de-duplication index, the cursor and timestamp stores, the page fetcher
    with its backoff loop, the pagination driver and [main].

    Conventions of the embedding.
    - A JavaScript string is a [string]: a sequence of code units below 256.
    - The file system is the record [Files]: one optional content per file
      the script touches ([None]: the file does not exist).  The three paths
      are fixed for the life of a sink ([UNIQUE_FILES] picks another sink);
      reads and writes of these files do not fail.
    - The upstream is a script: the list of outcomes of the successive
      [fetch] calls.  A run that needs one more outcome than the script
      holds is [Blocked]: it waits for the network, or was stopped there.
    - [Math.random] is an oracle [nat -> Q], read at the index of the draw;
      delays are rationals (the arithmetic of the source without rounding).
    - Numbers that are integers in the data model ([created_at], the
      timestamps) are in [Z], and are read and printed as JavaScript reads
      and prints the safe integers (at most 2^53 - 1 in absolute value); what
      is stated of a number read back is stated of these.  [Date.now()] is a
      time value: an integer at most 8.64e15 ms away from the epoch.
    - Every effect a function performs is returned as a list of [Event]s;
      what the script prints is left out. *)

From Stdlib Require Import Ascii String QArith Qminmax Lqa Sorted.
From stdpp Require Import gmap strings pretty list.

Open Scope string_scope.
Open Scope list_scope.

(** ** Strings as the script uses them *)

Module Js.

Definition dquote : ascii := "034"%char.
Definition comma : ascii := ","%char.
Definition newline : ascii := "010"%char.

(** White space and line terminators of ECMAScript among the code units
    below 256: TAB, LF, VT, FF, CR, SP and NBSP. *)
Definition is_ws (c : ascii) : bool :=
  match c with
  | "009" | "010" | "011" | "012" | "013" | " " | "160" => true
  | _ => false
  end%char.

(** [s.split(sep)] for a separator of one code unit. *)
Fixpoint split (sep : ascii) (s : string) : list string :=
  match s with
  | EmptyString => [EmptyString]
  | String c s' =>
      if Ascii.eqb c sep then EmptyString :: split sep s'
      else match split sep s' with
           | [] => [String c EmptyString]
           | h :: t => String c h :: t
           end
  end.

(** [arr.join(sep)] *)
Fixpoint join (sep : string) (l : list string) : string :=
  match l with
  | [] => EmptyString
  | [x] => x
  | x :: rest => x +:+ sep +:+ join sep rest
  end.

Fixpoint trimStart (s : string) : string :=
  match s with
  | EmptyString => EmptyString
  | String c s' => if is_ws c then trimStart s' else s
  end.

Fixpoint trimEnd (s : string) : string :=
  match s with
  | EmptyString => EmptyString
  | String c s' =>
      match trimEnd s' with
      | EmptyString => if is_ws c then EmptyString else String c EmptyString
      | t => String c t
      end
  end.

(** [s.trim()] *)
Definition trim (s : string) : string := trimStart (trimEnd s).

(** [s.replace(/c/g, "")] for one code unit [c]. *)
Fixpoint remove_all (c : ascii) (s : string) : string :=
  match s with
  | EmptyString => EmptyString
  | String a s' =>
      if Ascii.eqb a c then remove_all c s' else String a (remove_all c s')
  end.

(** [s.includes(needle)] *)
Fixpoint includes (needle s : string) : bool :=
  String.prefix needle s
  || match s with
     | EmptyString => false
     | String _ s' => includes needle s'
     end.

(** Truthiness of a string: [""] is falsy. *)
Definition truthy (s : string) : bool :=
  match s with EmptyString => false | _ => true end.

(** [s || null] and [c || ""] *)
Definition or_null (s : string) : option string :=
  if truthy s then Some s else None.
Definition or_empty (c : option string) : string :=
  match c with Some s => s | None => EmptyString end.

(** [c || undefined] on a nullable string: the empty string is dropped. *)
Definition or_undefined (c : option string) : option string :=
  match c with Some s => or_null s | None => None end.

(** [s] holds the code unit [c]. *)
Fixpoint has_char (c : ascii) (s : string) : bool :=
  match s with
  | EmptyString => false
  | String a s' => Ascii.eqb a c || has_char c s'
  end.

Definition is_digit (c : ascii) : bool :=
  let n := N_of_ascii c in (48 <=? n)%N && (n <=? 57)%N.

Definition digit_val (c : ascii) : Z := Z.of_N (N_of_ascii c) - 48.

(** The digits at the head of [s], folded in base ten. *)
Fixpoint digits_go (acc : Z) (seen : bool) (s : string) : option Z :=
  match s with
  | String c s' =>
      if is_digit c then digits_go (10 * acc + digit_val c)%Z true s'
      else if seen then Some acc else None
  | EmptyString => if seen then Some acc else None
  end.

(** [parseInt(s, 10)]: leading white space, an optional sign, the longest
    run of digits; [None] is [NaN]. *)
Definition parseInt (s : string) : option Z :=
  match trimStart s with
  | String "-" s' => Z.opp <$> digits_go 0 false s'
  | String "+" s' => digits_go 0 false s'
  | s' => digits_go 0 false s'
  end.

(** [Number.isSafeInteger(n)]: the integers every one of which is a number
    of its own. *)
Definition isSafeInteger (n : Z) : bool := (Z.abs n <=? 9007199254740991)%Z.

(** [n.toString()] of a safe integer: its digits in base ten.  (Past the
    safe integers a number is printed from its shortest digits, with an
    exponent from 1e21 on.) *)
Definition toString (n : Z) : string := pretty n.

(** A time value: [new Date(t)] is a valid date when [t] is at most
    8.64e15 ms away from the epoch; [toISOString()] of any other date throws
    a [RangeError]. *)
Definition time_value (t : Z) : bool := (Z.abs t <=? 8640000000000000)%Z.

End Js.

(** ** Configuration, [CONFIG] of the source *)

Module CONFIG.
Definition rateLimitMs : Q := 1000.
Definition usersBatchSize : nat := 2500.
Definition batchCooldownMs : Q := 10 * 1000.
Module rateLimit.
Definition maxRequestsPerMinute : Q := 30.
Definition initialBackoffMs : Q := 1000.
Definition maxBackoffMs : Q := 60000.
Definition backoffFactor : Q := 2.
Definition jitterFactor : Q := 1 # 10.
End rateLimit.
End CONFIG.

(** ** Data model *)

Record LinkedAccount := {
  type : string;
  address : option string;
  verified_at : option Z
}.

Record PrivyUser := {
  id : string;
  created_at : Z;
  is_guest : bool;
  linked_accounts : list LinkedAccount
}.

(** The body of a 2xx answer.  [data = None]: the field is missing or is not
    an array. *)
Record PrivyResponse := {
  data : option (list PrivyUser);
  next_cursor : option string
}.

(** The files of the script: [USERS_FILE], [CURSOR_FILE], [TIMESTAMP_FILE]. *)
Record Files := {
  users_file : option string;
  cursor_file : option string;
  timestamp_file : option string
}.

Definition set_users_file (v : option string) (f : Files) : Files :=
  {| users_file := v; cursor_file := cursor_file f;
     timestamp_file := timestamp_file f |}.
Definition set_cursor_file (v : option string) (f : Files) : Files :=
  {| users_file := users_file f; cursor_file := v;
     timestamp_file := timestamp_file f |}.
Definition set_timestamp_file (v : option string) (f : Files) : Files :=
  {| users_file := users_file f; cursor_file := cursor_file f;
     timestamp_file := v |}.

(** ** The sink and the de-duplication index *)

(** The body of the loop of [loadExistingUserIds] on [lines[i]]. *)
Definition load_line (line0 : string) (ids : gset string) : gset string :=
  let line := Js.trim line0 in
  if Js.truthy line then
    match Js.split Js.comma line with
    | col0 :: _ => {[ Js.remove_all Js.dquote col0 ]} ∪ ids
    | [] => ids
    end
  else ids.

(** [for (let i = 1; i < lines.length; i++)]: the lines after the first. *)
Definition load_lines (lines : list string) (ids : gset string) : gset string :=
  fold_left (fun acc line => load_line line acc) (tail lines) ids.

Definition loadExistingUserIds (f : Files) (processedUserIds : gset string)
  : gset string :=
  match users_file f with
  | Some fileContent => load_lines (Js.split Js.newline fileContent) processedUserIds
  | None => processedUserIds
  end.

Definition find_account (ty : string) (accs : list LinkedAccount)
  : option LinkedAccount :=
  List.find (fun acc => String.eqb (type acc) ty) accs.

(** [emailAccount?.address || ""] *)
Definition address_or_empty (acc : option LinkedAccount) : string :=
  match acc with
  | Some a => Js.or_empty (address a)
  | None => EmptyString
  end.

(** [`"${value}"`] *)
Definition quoted (v : string) : string :=
  String Js.dquote (v +:+ String Js.dquote EmptyString).

(** [user.id || ""] is [user.id], a string; [user.created_at || ""] is the
    empty string at 0; [user.is_guest || false] prints as a boolean. *)
Definition formatUserToCsvRow (user : PrivyUser) : string :=
  let emailAccount := find_account "email" (linked_accounts user) in
  let walletAccount := find_account "wallet" (linked_accounts user) in
  Js.join ","
    (map quoted
       [ id user;
         (if Z.eqb (created_at user) 0 then EmptyString
          else Js.toString (created_at user));
         (if is_guest user then "true" else "false");
         address_or_empty emailAccount;
         address_or_empty walletAccount;
         Js.toString (Z.of_nat (length (linked_accounts user))) ]).

Definition HEADER : string := "id,createdAt,isGuest,email,wallet,linkedAccounts".

(** What [users.forEach] of [appendUsersToFile] accumulates. *)
Record Batch := {
  b_rows : list PrivyUser;   (* the users pushed to [csv], in order *)
  b_ids : gset string;       (* [processedUserIds] *)
  b_new : nat;               (* [newUsers] *)
  b_dup : nat                (* [duplicates] *)
}.

Definition batch_step (b : Batch) (user : PrivyUser) : Batch :=
  if decide (id user ∈ b_ids b) then
    {| b_rows := b_rows b; b_ids := b_ids b;
       b_new := b_new b; b_dup := S (b_dup b) |}
  else
    {| b_rows := b_rows b ++ [user]; b_ids := {[ id user ]} ∪ b_ids b;
       b_new := S (b_new b); b_dup := b_dup b |}.

Definition batch_users (users : list PrivyUser) (ids : gset string) : Batch :=
  fold_left batch_step users
    {| b_rows := []; b_ids := ids; b_new := 0; b_dup := 0 |}.

(** [shouldAddHeader]: the file is missing or has size 0. *)
Definition shouldAddHeader (f : Files) : bool :=
  match users_file f with
  | Some content => negb (Js.truthy content)
  | None => true
  end.

(** [fs.appendFileSync(USERS_FILE, text)] *)
Definition appendFileSync (text : string) (f : Files) : Files :=
  set_users_file (Some (Js.or_empty (users_file f) +:+ text)) f.

Record Appended := {
  a_files : Files;
  a_ids : gset string;
  a_newUsers : nat;
  a_header : bool;               (* the header line was pushed *)
  a_rows : list PrivyUser;       (* the users whose rows were pushed *)
  a_text : option string         (* the text handed to [appendFileSync] *)
}.

Definition appendUsersToFile (users : list PrivyUser) (isFirstBatch : bool)
    (f : Files) (processedUserIds : gset string) : Appended :=
  let hdr := isFirstBatch && shouldAddHeader f in
  let b := batch_users users processedUserIds in
  let csv := (if hdr then [HEADER] else []) ++ map formatUserToCsvRow (b_rows b) in
  match csv with
  | [] => {| a_files := f; a_ids := b_ids b; a_newUsers := b_new b;
             a_header := hdr; a_rows := b_rows b; a_text := None |}
  | _ =>
      let text := Js.join (String Js.newline EmptyString) csv
                  +:+ String Js.newline EmptyString in
      {| a_files := appendFileSync text f; a_ids := b_ids b;
         a_newUsers := b_new b; a_header := hdr; a_rows := b_rows b;
         a_text := Some text |}
  end.

(** ** Cursor and timestamp stores *)

Definition saveCursor (cursor : option string) (f : Files) : Files :=
  set_cursor_file (Some (Js.or_empty cursor)) f.

Definition loadSavedCursor (f : Files) : option string :=
  match cursor_file f with
  | Some content => Js.or_null (Js.trim content)
  | None => None
  end.

Definition saveTimestamp (timestamp : Z) (f : Files) : Files :=
  set_timestamp_file (Some (Js.toString timestamp)) f.

(** [parseInt(timestamp, 10) || null]: [NaN] and 0 give [null]. *)
Definition loadLastFetchTimestamp (f : Files) : option Z :=
  match timestamp_file f with
  | Some content =>
      match Js.parseInt (Js.trim content) with
      | Some n => if Z.eqb n 0 then None else Some n
      | None => None
      end
  | None => None
  end.

(** ** The upstream and the effects of a run *)

Inductive Body :=
| Json (r : PrivyResponse)
| NotJson.                      (* [response.json()] rejects *)

(** What one call of [fetch] gives. *)
Inductive Outcome :=
| Response (status : Z) (body : Body)
| Rejected (message : string).  (* transport failure: [fetch] throws *)

Definition response_ok (status : Z) : bool :=
  (200 <=? status)%Z && (status <=? 299)%Z.

(** The query parameters of a page request. *)
Record Request := {
  cursor_param : option string;
  created_after_param : option Z
}.

(** Why the script sleeps: after a 429 answer, after a transport failure,
    after a 2xx answer, before a request once a batch is full. *)
Inductive SleepKind := RateLimitBackoff | NetworkBackoff | Pacing | BatchCooldown.

(** The effects of a run: [fetch(url)], [sleep(ms)],
    [fs.appendFileSync(USERS_FILE, text)] with the users whose rows [text]
    holds, [fs.writeFileSync(CURSOR_FILE, content)],
    [fs.unlinkSync(CURSOR_FILE)], [fs.writeFileSync(TIMESTAMP_FILE, content)]. *)
Inductive Event :=
| EvFetch (r : Request)
| EvSleep (k : SleepKind) (ms : Q)
| EvAppend (text : string) (rows : list PrivyUser)
| EvSaveCursor (content : string)
| EvUnlinkCursor
| EvSaveTimestamp (content : string).

(** What the script throws. *)
Inductive Error :=
| HttpError (status : Z)                         (* "HTTP error! status: N" *)
| TransportError (message : string)              (* rethrown as it came *)
| ExhaustedRetries (retries : nat) (message : string)  (* "Failed after N retries: ..." *)
| BodyError
| InvalidFormat                                  (* "Invalid response format from Privy API" *)
| InvalidTime.                                   (* [RangeError]: "Invalid time value" *)

(** How a call ends: it returns, it throws, or it waits for an outcome the
    script does not hold. *)
Inductive Result (A : Type) :=
| Ok (a : A)
| Failed (e : Error)
| Blocked.
Arguments Ok {A} a.
Arguments Failed {A} e.
Arguments Blocked {A}.

(** ** [fetchPageOfUsers] *)

(** [if (cursor) params.append(...)], [if (since) params.append(...)] *)
Definition build_request (cursor : option string) (since : option Z) : Request :=
  {| cursor_param := Js.or_undefined cursor;
     created_after_param :=
       match since with
       | Some n => if Z.eqb n 0 then None else Some n
       | None => None
       end |}.

(** [1 + (Math.random() * 2 - 1) * CONFIG.rateLimit.jitterFactor] *)
Definition jitter (rnd : Q) : Q :=
  1 + (rnd * 2 - 1) * CONFIG.rateLimit.jitterFactor.

(** [Math.min(backoffMs * backoffFactor * jitter, maxBackoffMs)] *)
Definition next_backoff (backoffMs rnd : Q) : Q :=
  Qmin (backoffMs * CONFIG.rateLimit.backoffFactor * jitter rnd)
       CONFIG.rateLimit.maxBackoffMs.

(** [Math.max(CONFIG.rateLimitMs, 60000 / maxRequestsPerMinute)] *)
Definition pacing_delay : Q :=
  Qmax CONFIG.rateLimitMs (60000 / CONFIG.rateLimit.maxRequestsPerMinute).

Arguments jitter : simpl never.
Arguments next_backoff : simpl never.
Arguments pacing_delay : simpl never.

Record FetchRun := {
  f_result : Result PrivyResponse;
  f_events : list Event;
  f_rest : list Outcome;        (* the outcomes not consumed *)
  f_draws : nat                 (* the index of the next [Math.random] *)
}.

Definition fetch_emit (ev : list Event) (r : FetchRun) : FetchRun :=
  {| f_result := f_result r; f_events := ev ++ f_events r;
     f_rest := f_rest r; f_draws := f_draws r |}.

Section Fetch.
Variable random : nat -> Q.
Variable req : Request.

(** The [while (true)] of [fetchPageOfUsers]: one turn per outcome. *)
Fixpoint fetch_loop (retries : nat) (backoffMs : Q) (draws : nat)
    (script : list Outcome) : FetchRun :=
  match script with
  | [] => {| f_result := Blocked; f_events := [EvFetch req];
             f_rest := []; f_draws := draws |}
  | Response status body :: rest =>
      if response_ok status then
        {| f_result := match body with
                       | Json r => Ok r
                       | NotJson => Failed BodyError
                       end;
           f_events := [EvFetch req; EvSleep Pacing pacing_delay];
           f_rest := rest; f_draws := draws |}
      else if Z.eqb status 429 then
        let retries := S retries in
        let backoffMs := next_backoff backoffMs (random draws) in
        fetch_emit [EvFetch req; EvSleep RateLimitBackoff backoffMs]
          (fetch_loop retries backoffMs (S draws) rest)
      else
        {| f_result := Failed (HttpError status); f_events := [EvFetch req];
           f_rest := rest; f_draws := draws |}
  | Rejected message :: rest =>
      if Js.includes "HTTP error" message then
        {| f_result := Failed (TransportError message);
           f_events := [EvFetch req]; f_rest := rest; f_draws := draws |}
      else
        let retries := S retries in
        if (5 <? retries)%nat then
          {| f_result := Failed (ExhaustedRetries retries message);
             f_events := [EvFetch req]; f_rest := rest; f_draws := draws |}
        else
          let backoffMs := next_backoff backoffMs (random draws) in
          fetch_emit [EvFetch req; EvSleep NetworkBackoff backoffMs]
            (fetch_loop retries backoffMs (S draws) rest)
  end.
End Fetch.

Definition fetchPageOfUsers (random : nat -> Q) (cursor : option string)
    (since : option Z) (draws : nat) (script : list Outcome) : FetchRun :=
  fetch_loop random (build_request cursor since)
    0 CONFIG.rateLimit.initialBackoffMs draws script.

(** ** [getAllUsers] *)

(** The mutable state outside the loop variables. *)
Record State := {
  files : Files;
  processedUserIds : gset string;
  draws : nat
}.

(** The variables of the [do ... while] loop. *)
Record Loop := {
  cursor : option string;
  isFirstBatch : bool;
  totalUsers : nat;
  processedUsers : nat
}.

Record Run := {
  r_result : Result unit;
  r_state : State;
  r_loop : Loop;
  r_events : list Event;
  r_rest : list Outcome
}.

Definition run_emit (ev : list Event) (r : Run) : Run :=
  {| r_result := r_result r; r_state := r_state r; r_loop := r_loop r;
     r_events := ev ++ r_events r; r_rest := r_rest r |}.

(** [if (totalUsers > 0 && totalUsers % CONFIG.usersBatchSize === 0)] *)
Definition cooldown_due (total : nat) : bool :=
  ((0 <? total) && (total mod CONFIG.usersBatchSize =? 0))%nat.

Definition cooldown_events (total : nat) : list Event :=
  if cooldown_due total then [EvSleep BatchCooldown CONFIG.batchCooldownMs] else [].

(** What the loop body decides once a page is processed. *)
Inductive Next := Continue | Stop.

Record Processed := {
  p_state : State;
  p_loop : Loop;
  p_events : list Event;
  p_next : Next
}.

(** The loop body after [fetchPageOfUsers] has returned [query] with an
    array [users] in its [data]. *)
Definition processPage (users : list PrivyUser) (new_cursor : option string)
    (v : Loop) (st : State) : Processed :=
  let '(f1, ids1, v1, ev1) :=
    match users with
    | [] => (files st, processedUserIds st, v, [])
    | _ =>
        let a := appendUsersToFile users (isFirstBatch v) (files st)
                   (processedUserIds st) in
        (a_files a, a_ids a,
         {| cursor := cursor v; isFirstBatch := false;
            totalUsers := totalUsers v + a_newUsers a;
            processedUsers := processedUsers v + length users |},
         match a_text a with
         | Some text => [EvAppend text (a_rows a)]
         | None => []
         end)
    end in
  let v2 := {| cursor := new_cursor; isFirstBatch := isFirstBatch v1;
               totalUsers := totalUsers v1;
               processedUsers := processedUsers v1 |} in
  let st2 := {| files := saveCursor new_cursor f1; processedUserIds := ids1;
                draws := draws st |} in
  {| p_state := st2; p_loop := v2;
     p_events := ev1 ++ [EvSaveCursor (Js.or_empty new_cursor)];
     p_next :=
       if (length users =? 0)%nat && negb (Js.truthy (Js.or_empty new_cursor))
       then Stop
       else match new_cursor with Some _ => Continue | None => Stop end |}.

Definition with_draws (n : nat) (st : State) : State :=
  {| files := files st; processedUserIds := processedUserIds st; draws := n |}.

Section Driver.
Variable random : nat -> Q.
Variable sinceTimestamp : option Z.

(** The [do ... while] loop, one turn per page.  Every turn reads at least
    one outcome of the script, so fuel above the length of the script is
    never used up ([page_loop_fuel], [page_loop_blocked]). *)
Fixpoint page_loop (fuel : nat) (v : Loop) (st : State)
    (script : list Outcome) : Run :=
  match fuel with
  | 0 => {| r_result := Blocked; r_state := st; r_loop := v;
            r_events := []; r_rest := script |}
  | S fuel =>
      let fr := fetchPageOfUsers random (Js.or_undefined (cursor v))
                  sinceTimestamp (draws st) script in
      let st := with_draws (f_draws fr) st in
      let ev := cooldown_events (totalUsers v) ++ f_events fr in
      let stop res :=
        {| r_result := res; r_state := st; r_loop := v;
           r_events := ev; r_rest := f_rest fr |} in
      match f_result fr with
      | Failed e => stop (Failed e)
      | Blocked => stop Blocked
      | Ok query =>
          match data query with
          | None => stop (Failed InvalidFormat)
          | Some users =>
              let p := processPage users (next_cursor query) v st in
              match p_next p with
              | Stop =>
                  {| r_result := Ok tt; r_state := p_state p;
                     r_loop := p_loop p; r_events := ev ++ p_events p;
                     r_rest := f_rest fr |}
              | Continue =>
                  run_emit (ev ++ p_events p)
                    (page_loop fuel (p_loop p) (p_state p) (f_rest fr))
              end
          end
      end
  end.

(** [getAllUsers(sinceTimestamp)]: the loop, then [fs.unlinkSync(CURSOR_FILE)]. *)
Definition getAllUsers (st : State) (script : list Outcome) : Run :=
  let cursor := loadSavedCursor (files st) in
  let v := {| cursor := cursor; isFirstBatch := negb (Js.truthy (Js.or_empty cursor));
              totalUsers := 0; processedUsers := 0 |} in
  let r := page_loop (S (length script)) v st script in
  match r_result r with
  | Ok _ =>
      {| r_result := Ok tt;
         r_state := {| files := set_cursor_file None (files (r_state r));
                       processedUserIds := processedUserIds (r_state r);
                       draws := draws (r_state r) |};
         r_loop := r_loop r;
         r_events := r_events r ++ [EvUnlinkCursor];
         r_rest := r_rest r |}
  | _ => r
  end.
End Driver.

(** ** [main] *)

(** What one invocation of the script is given from outside. *)
Record Invocation := {
  FETCH_NEW_ONLY : bool;         (* [process.env.FETCH_NEW_ONLY === "true"] *)
  now : Z;                       (* [Date.now()], in milliseconds *)
  random : nat -> Q;             (* [Math.random()] *)
  upstream : list Outcome;
  now_time_value : Is_true (Js.time_value now)  (* a clock reading is a time value *)
}.

Record Exit := {
  x_result : Result unit;        (* [Ok]: exit status 0; [Failed]: [process.exit(1)] *)
  x_files : Files;
  x_events : list Event
}.

(** [main()].  In incremental mode with a watermark the script first prints
    [new Date(lastFetchTimestamp * 1000).toISOString()], which throws when
    the date is not valid: [main] catches it and exits with status 1, before
    [getAllUsers] is called. *)
Definition main (inv : Invocation) (f : Files) : Exit :=
  let currentTimestamp := (now inv / 1000)%Z in
  let ids := loadExistingUserIds f ∅ in
  let lastFetchTimestamp := loadLastFetchTimestamp f in
  let pass since :=
    let r := getAllUsers (random inv) since
               {| files := f; processedUserIds := ids; draws := 0 |}
               (upstream inv) in
    match r_result r with
    | Ok _ =>
        {| x_result := Ok tt;
           x_files := saveTimestamp currentTimestamp (files (r_state r));
           x_events := r_events r
                       ++ [EvSaveTimestamp (Js.toString currentTimestamp)] |}
    | res => {| x_result := res; x_files := files (r_state r);
                x_events := r_events r |}
    end in
  match (if FETCH_NEW_ONLY inv then lastFetchTimestamp else None) with
  | Some t =>
      if Js.time_value (t * 1000) then pass (Some t)
      else {| x_result := Failed InvalidTime; x_files := f; x_events := [] |}
  | None => pass None
  end.

(** ** Vocabulary of the statements *)

(** *** Outcomes of [fetch] *)

Definition is_rejected (o : Outcome) : bool :=
  match o with Rejected _ => true | Response _ _ => false end.

Definition is_rate_limited (o : Outcome) : bool :=
  match o with
  | Response status _ => negb (response_ok status) && Z.eqb status 429
  | Rejected _ => false
  end.

(** The outcomes after which the loop of [fetchPageOfUsers] takes another
    turn, as far as the outcome alone decides. *)
Definition retried (o : Outcome) : bool :=
  match o with
  | Response _ _ => is_rate_limited o
  | Rejected message => negb (Js.includes "HTTP error" message)
  end.

Definition rate_limited : Outcome := Response 429 NotJson.


(** *** Readings of a trace *)

Definition backoff_delay (e : Event) : option Q :=
  match e with
  | EvSleep RateLimitBackoff ms | EvSleep NetworkBackoff ms => Some ms
  | _ => None
  end.

(** The delays slept between the attempts of a call, in order. *)
Definition backoff_delays (ev : list Event) : list Q := omap backoff_delay ev.

(** Each delay is [next_backoff] of the one before it, the first of
    [previousDelay]; the draws of [random] are taken in order. *)
Fixpoint backoff_chain (random : nat -> Q) (previousDelay : Q) (draws : nat)
    (ds : list Q) : Prop :=
  match ds with
  | [] => True
  | d :: ds' =>
      d = next_backoff previousDelay (random draws)
      /\ backoff_chain random d (S draws) ds'
  end.

Definition request_of (e : Event) : option Request :=
  match e with EvFetch r => Some r | _ => None end.

(** The page requests issued, in order. *)
Definition requests (ev : list Event) : list Request := omap request_of ev.

Definition is_cooldown (e : Event) : bool :=
  match e with EvSleep BatchCooldown _ => true | _ => false end.

(** The number of batch cooldowns slept. *)
Definition cooldowns (ev : list Event) : nat :=
  length (filter (fun e => is_cooldown e = true) ev).

Definition rows_of (e : Event) : list PrivyUser :=
  match e with EvAppend _ rows => rows | _ => [] end.

(** The records whose rows were appended to the sink, in order. *)
Definition exported (ev : list Event) : list PrivyUser :=
  concat (map rows_of ev).

Definition saved_cursor (e : Event) : option string :=
  match e with EvSaveCursor content => Some content | _ => None end.

(** The content of the cursor file after the writes of [ev], when no
    [EvUnlinkCursor] follows them: the last content saved, or [init]. *)
Definition last_checkpoint (init : option string) (ev : list Event)
  : option string :=
  match last (omap saved_cursor ev) with
  | Some content => Some content
  | None => init
  end.

(** *** Sample data *)

Definition sample_user (n : nat) : PrivyUser :=
  {| id := "did:privy:" +:+ pretty n;
     created_at := 1700000000 + Z.of_nat n;
     is_guest := false;
     linked_accounts := [] |}.

(** A 2xx answer with [count] users numbered from [from]. *)
Definition sample_page (from count : nat) (next : option string) : Outcome :=
  Response 200
    (Json {| data := Some (map sample_user (seq from count));
             next_cursor := next |}).

Definition no_files : Files :=
  {| users_file := None; cursor_file := None; timestamp_file := None |}.

(** *** The sink as a log of records *)

(** An identifier the sink can hold and give back: no comma, no double
    quote, no line feed. *)
Definition clean_id (s : string) : bool :=
  negb (Js.has_char Js.comma s) && negb (Js.has_char Js.dquote s)
  && negb (Js.has_char Js.newline s).

Definition clean_users (users : list PrivyUser) : Prop :=
  Forall (fun u => clean_id (id u) = true) users.

Definition clean_outcome (o : Outcome) : bool :=
  match o with
  | Response _ (Json q) =>
      match data q with
      | Some users => forallb (fun u => clean_id (id u)) users
      | None => true
      end
  | _ => true
  end.

(** Every page the upstream serves holds clean identifiers only. *)
Definition clean_script (script : list Outcome) : bool :=
  forallb clean_outcome script.

(** Lines, each closed by a line feed. *)
Definition lines_text (lines : list string) : string :=
  fold_right (fun l acc => l +:+ String Js.newline acc) EmptyString lines.

(** The sink is missing or empty and nothing was exported, or it is the
    header line and the rows of the records exported, in order. *)
Definition sink_holds (f : Files) (log : list PrivyUser) : Prop :=
  match users_file f with
  | None => log = []
  | Some content =>
      (content = EmptyString /\ log = [])
      \/ content = lines_text (HEADER :: map formatUserToCsvRow log)
  end.

(** A run that starts from a saved cursor finds a sink with content. *)
Definition resumes_into_sink (f : Files) : Prop :=
  loadSavedCursor f <> None -> shouldAddHeader f = false.

(** The lives of a sink: it starts missing or empty; the script runs on it,
    never resuming from a cursor into a missing or empty sink, against an
    upstream of clean identifiers; between runs the cursor and timestamp
    files may be changed at will.  The second index is the list of the
    records the runs appended. *)
Inductive Lifetime : Files -> list PrivyUser -> Prop :=
| lifetime_start f :
    users_file f = None \/ users_file f = Some EmptyString ->
    Lifetime f []
| lifetime_run f log inv :
    Lifetime f log ->
    resumes_into_sink f ->
    clean_script (upstream inv) = true ->
    Lifetime (x_files (main inv f)) (log ++ exported (x_events (main inv f)))
| lifetime_state f log c t :
    Lifetime f log ->
    Lifetime (set_cursor_file c (set_timestamp_file t f)) log.

(** Pages of the given sizes, of users numbered from [from] on; every page
    but the last names a next cursor. *)
Fixpoint sample_script (from : nat) (sizes : list nat) : list Outcome :=
  match sizes with
  | [] => []
  | [n] => [sample_page from n None]
  | n :: rest =>
      sample_page from n (Some ("c" +:+ pretty (from + n)))
        :: sample_script (from + n) rest
  end.

(** The turns of the loop that start with a cooldown, by the test of the
    source, for pages that bring [sizes] new records. *)
Fixpoint cooldown_turns (total : nat) (sizes : list nat) : nat :=
  match sizes with
  | [] => 0
  | n :: rest =>
      (if cooldown_due total then 1 else 0) + cooldown_turns (total + n) rest
  end.

(** *** Predicates of the proofs *)

(** The events of a call are requests and sleeps between or after them. *)
Definition fetch_event (req : Request) (e : Event) : Prop :=
  match e with
  | EvFetch r => r = req
  | EvSleep k _ => k <> BatchCooldown
  | _ => False
  end.

(** Every page the script can serve satisfies [good]. *)
Definition serves (good : list PrivyUser -> Prop) (script : list Outcome) : Prop :=
  forall status q users,
    In (Response status (Json q)) script -> data q = Some users -> good users.

(** What [users.forEach] keeps, from an index [ids0] and [n0] users counted
    before: the index grows, every row is new to [ids0] and satisfies
    [keep], no identifier has two rows, and [newUsers] counts the rows. *)
Definition batch_inv (ids0 : gset string) (keep : PrivyUser -> Prop)
    (n0 : nat) (b : Batch) : Prop :=
  ids0 ⊆ b_ids b
  /\ Forall (fun u => (id u ∉ ids0) /\ (id u ∈ b_ids b) /\ keep u) (b_rows b)
  /\ NoDup (map id (b_rows b))
  /\ b_new b = n0 + length (b_rows b).

(** What the loop keeps between its turns, for the log of the sink. *)
Definition log_inv (log : list PrivyUser) (v : Loop) (st : State) : Prop :=
  sink_holds (files st) log
  /\ NoDup (map id log)
  /\ clean_users log
  /\ (forall u, In u log -> id u ∈ processedUserIds st)
  /\ (isFirstBatch v = false -> shouldAddHeader (files st) = false).

(** Records numbered from [from] on are new to an index of records
    numbered below [from]. *)
Definition index_below (from : nat) (ids : gset string) : Prop :=
  forall x, x ∈ ids -> exists k, k < from /\ x = id (sample_user k).


(** * The rest of the script *)

(** ** The output file name under [UNIQUE_FILES] *)

Module Startup.

(** [s.replace(/[:.]/g, "-")] *)
Fixpoint dash_colons_dots (s : string) : string :=
  match s with
  | EmptyString => EmptyString
  | String c s' =>
      String (if Ascii.eqb c ":" || Ascii.eqb c "." then "-"%char else c)
             (dash_colons_dots s')
  end.

(** The body of [if (process.env.UNIQUE_FILES === "true")]: [isoString] is
    [new Date().toISOString()].  [pop()] of an empty array gives
    [undefined], which a template prints as such. *)
Definition unique_name (isoString USERS_FILE : string) : string :=
  let timestamp := dash_colons_dots isoString in
  let filenameParts := Js.split "." USERS_FILE in
  let extension :=
    match last filenameParts with Some e => e | None => "undefined" end in
  let filenameParts := removelast filenameParts in
  Js.join "." filenameParts +:+ "_" +:+ timestamp +:+ "." +:+ extension.

End Startup.

(** ** Vocabulary of the further statements *)

(** A row read back column by column, the way [loadExistingUserIds] reads
    the first column: cut at the commas, the double quotes removed. *)
Definition csv_fields (row : string) : list string :=
  map (Js.remove_all Js.dquote) (Js.split Js.comma row).

(** A value a column can hold and give back: no comma, no double quote. *)
Definition plain (s : string) : bool :=
  negb (Js.has_char Js.comma s) && negb (Js.has_char Js.dquote s).

(** The two addresses [formatUserToCsvRow] prints. *)
Definition email_of (u : PrivyUser) : string :=
  address_or_empty (find_account "email" (linked_accounts u)).
Definition wallet_of (u : PrivyUser) : string :=
  address_or_empty (find_account "wallet" (linked_accounts u)).

(** A record whose row is one line of the sink that gives back its
    identifier: a clean identifier, no line feed in the addresses. *)
Definition clean_row (u : PrivyUser) : bool :=
  clean_id (id u)
  && negb (Js.has_char Js.newline (email_of u))
  && negb (Js.has_char Js.newline (wallet_of u)).

(** The identifiers of a list of records, as an index. *)
Definition ids_of (users : list PrivyUser) : gset string :=
  list_to_set (map id users).

(** Every request of a trace carries the cursor last saved before it, read
    the way the script reads one ([cur] before the first save). *)
Fixpoint follows (cur : option string) (ev : list Event) : Prop :=
  match ev with
  | [] => True
  | EvFetch r :: ev' => cursor_param r = cur /\ follows cur ev'
  | EvSaveCursor content :: ev' => follows (Js.or_null content) ev'
  | _ :: ev' => follows cur ev'
  end.

(** The texts handed to [fs.appendFileSync], in order, as one string. *)
Definition appended_text (ev : list Event) : string :=
  fold_right (fun e acc =>
                match e with EvAppend text _ => text +:+ acc | _ => acc end)
             EmptyString ev.

(** The pages the script reads in the outcomes it is served: the arrays of
    the 2xx answers that parse. *)
Definition page_of (o : Outcome) : option (list PrivyUser) :=
  match o with
  | Response status (Json q) => if response_ok status then data q else None
  | _ => None
  end.

Definition served (script : list Outcome) : list PrivyUser :=
  concat (omap page_of script).

(** Every request of a trace that is not its last effect is followed at
    once by a sleep of [min] ms or more that is not a batch cooldown. *)
Fixpoint spaced (min : Q) (ev : list Event) : Prop :=
  match ev with
  | [] => True
  | EvFetch _ :: ev' =>
      match ev' with
      | [] => True
      | EvSleep k ms :: _ => k <> BatchCooldown /\ (min <= ms)%Q
      | _ => False
      end
      /\ spaced min ev'
  | _ :: ev' => spaced min ev'
  end.

(** The outcome at which a call stops, after [n] outcomes it retried: one
    that is never retried, or a transport failure past the fifth retry. *)
Definition decisive (n : nat) (o : Outcome) : Prop :=
  retried o = false \/ (is_rejected o = true /\ 5 <= n).

(** How a call ends at the outcome at which it stops. *)
Definition decided (n : nat) (o : Outcome) : Result PrivyResponse :=
  match o with
  | Response status body =>
      if response_ok status then
        match body with Json q => Ok q | NotJson => Failed BodyError end
      else Failed (HttpError status)
  | Rejected message =>
      if Js.includes "HTTP error" message then Failed (TransportError message)
      else Failed (ExhaustedRetries (S n) message)
  end.

(** What [main] starts the loop from, and the pass it makes. *)
Definition main_since (inv : Invocation) (f : Files) : option Z :=
  if FETCH_NEW_ONLY inv then loadLastFetchTimestamp f else None.

(** The invocation gets past the date it prints first, to [getAllUsers]. *)
Definition begins (inv : Invocation) (f : Files) : bool :=
  match main_since inv f with
  | Some t => Js.time_value (t * 1000)
  | None => true
  end.

Definition main_state (f : Files) : State :=
  {| files := f; processedUserIds := loadExistingUserIds f ∅; draws := 0 |}.

Definition main_vars (f : Files) : Loop :=
  {| cursor := loadSavedCursor f;
     isFirstBatch := negb (Js.truthy (Js.or_empty (loadSavedCursor f)));
     totalUsers := 0; processedUsers := 0 |}.

Definition main_pass (inv : Invocation) (f : Files) : Run :=
  page_loop (random inv) (main_since inv f) (S (length (upstream inv)))
    (main_vars f) (main_state f) (upstream inv).

(** The records of a page that are new to an index: of every identifier the
    index does not hold, the first record of the page. *)
Fixpoint firsts (ids : gset string) (users : list PrivyUser) : list PrivyUser :=
  match users with
  | [] => []
  | u :: users' =>
      if decide (id u ∈ ids) then firsts ids users'
      else u :: firsts ({[ id u ]} ∪ ids) users'
  end.

(** The header is due only while the index is empty. *)
Definition header_inv (st : State) : Prop :=
  shouldAddHeader (files st) = true -> processedUserIds st = ∅.

(** The outcomes an invocation has read: one for each request. *)
Definition outcomes_read (inv : Invocation) (f : Files) : list Outcome :=
  take (length (requests (x_events (main inv f)))) (upstream inv).

(** Two states of the loop the sink cannot tell apart: the same sink, the
    same index, the same decision on the header. *)
Definition same_sink (v : Loop) (st : State) (v' : Loop) (st' : State) : Prop :=
  users_file (files st) = users_file (files st')
  /\ processedUserIds st = processedUserIds st'
  /\ isFirstBatch v && shouldAddHeader (files st)
     = isFirstBatch v' && shouldAddHeader (files st').


(** A script that ends between two calls: its last outcome is not one a
    call retries. *)
Definition ends_a_call (script : list Outcome) : Prop :=
  match last script with Some o => retried o = false | None => True end.



(** White space only. *)
Fixpoint blank (s : string) : bool :=
  match s with
  | EmptyString => true
  | String c s' => Js.is_ws c && blank s'
  end.

(** The number of code units [c] in [s]. *)
Fixpoint count_char (c : ascii) (s : string) : nat :=
  match s with
  | EmptyString => 0
  | String a s' => (if Ascii.eqb a c then 1 else 0) + count_char c s'
  end.

(** ** The checkpoint *)

(** The answers a pass processes as pages: the 2xx answers whose body
    parses and holds an array in [data]. *)
Definition answer_of (o : Outcome) : option PrivyResponse :=
  match o with
  | Response status (Json q) =>
      if response_ok status
      then match data q with Some _ => Some q | None => None end
      else None
  | _ => None
  end.

Definition answers (script : list Outcome) : list PrivyResponse :=
  omap answer_of script.

(** The pages an invocation has processed: those of the outcomes it read. *)
Definition pages_read (inv : Invocation) (f : Files) : list PrivyResponse :=
  answers (outcomes_read inv f).

(** The writes of a trace to the cursor file. *)
Definition cursor_write (e : Event) : option Event :=
  match e with
  | EvSaveCursor _ | EvUnlinkCursor => Some e
  | _ => None
  end.

Definition cursor_writes (ev : list Event) : list Event := omap cursor_write ev.

(** What [saveCursor] writes after the page [q]. *)
Definition save_of (q : PrivyResponse) : Event :=
  EvSaveCursor (Js.or_empty (next_cursor q)).

(** The content of the cursor file after the pages [pages], from the files
    [f]: what was saved after the last of them, or what the file held. *)
Definition checkpoint (f : Files) (pages : list PrivyResponse) : option string :=
  match last pages with
  | Some q => Some (Js.or_empty (next_cursor q))
  | None => cursor_file f
  end.

Definition is_append (e : Event) : bool :=
  match e with EvAppend _ _ => true | _ => false end.
Definition is_save (e : Event) : bool :=
  match e with EvSaveCursor _ => true | _ => false end.
Definition is_pacing (e : Event) : bool :=
  match e with EvSleep Pacing _ => true | _ => false end.

(** An effect that neither appends nor writes the cursor file. *)
Definition quiet (e : Event) : Prop :=
  is_append e = false /\ cursor_write e = None.

(** In a trace that comes after the effect [prev]: an append is followed at
    once by a save of the cursor, and a save of the cursor comes at once
    after an append or after the pacing sleep that ends a call. *)
Fixpoint checkpointed (prev : option Event) (ev : list Event) : Prop :=
  match ev with
  | [] => True
  | e :: ev' =>
      (from_option is_append false prev = true -> is_save e = true)
      /\ (is_save e = true ->
          from_option (fun p => is_append p || is_pacing p) false prev = true)
      /\ checkpointed (Some e) ev'
  end.

(** ** The URL of a request *)

Module Url.

(** The code units the serializer of [URLSearchParams] leaves as they are:
    the ASCII letters and digits and [* - . _]. *)
Definition unreserved (c : ascii) : bool :=
  let n := N_of_ascii c in
  ((48 <=? n) && (n <=? 57) || (65 <=? n) && (n <=? 90)
   || (97 <=? n) && (n <=? 122)
   || (n =? 42) || (n =? 45) || (n =? 46) || (n =? 95))%N.

(** A digit in base sixteen, in upper case. *)
Definition hex (n : N) : ascii :=
  ascii_of_N (if (n <? 10)%N then 48 + n else 55 + n).

(** A byte, percent-encoded. *)
Definition percent (byte : N) : string :=
  String "%" (String (hex (byte / 16)) (String (hex (byte mod 16)) EmptyString)).

(** The bytes of a code unit below 256 in UTF-8. *)
Definition utf8 (c : ascii) : list N :=
  let n := N_of_ascii c in
  if (n <? 128)%N then [n] else [192 + n / 64; 128 + n mod 64]%N.

(** A name or a value as [URLSearchParams.toString()] writes it: a space
    as [+], an unreserved code unit as it is, any other as the
    percent-encoded bytes of its UTF-8 encoding. *)
Fixpoint encode (s : string) : string :=
  match s with
  | EmptyString => EmptyString
  | String c s' =>
      (if Ascii.eqb c " " then "+"
       else if unreserved c then String c EmptyString
       else foldr (fun b acc => percent b +:+ acc) EmptyString (utf8 c))
      +:+ encode s'
  end.

(** Only unreserved code units: encoding changes nothing. *)
Fixpoint plain (s : string) : bool :=
  match s with
  | EmptyString => true
  | String c s' => unreserved c && plain s'
  end.

End Url.

Definition USERS_URL : string := "https://auth.privy.io/api/v1/users".

(** The URL [fetchPageOfUsers(cursor, since)] fetches: the parameters that
    are truthy, appended to a [URLSearchParams] and written after a [?] when
    there is one. *)
Definition fetch_url (cursor : option string) (since : option Z) : string :=
  let params :=
    (if Js.truthy (Js.or_empty cursor)
     then [("cursor", Js.or_empty cursor)] else [])
    ++ match since with
       | Some n =>
           if Z.eqb n 0 then [] else [("created_after", Js.toString n)]
       | None => []
       end in
  let queryString :=
    Js.join "&" (map (fun kv => Url.encode kv.1 +:+ "=" +:+ Url.encode kv.2)
                     params) in
  USERS_URL +:+ (if Js.truthy queryString then "?" +:+ queryString else "").

Definition url_of (r : Request) : string :=
  fetch_url (cursor_param r) (created_after_param r).

(** An effect as it reaches the outside: of a request the URL fetched, of a
    sleep its length, of an append the text. *)
Inductive Effect :=
| FxFetch (url : string)
| FxSleep (ms : Q)
| FxAppend (text : string)
| FxSaveCursor (content : string)
| FxUnlinkCursor
| FxSaveTimestamp (content : string).

Definition effect_of (url_of : Request -> string) (e : Event) : Effect :=
  match e with
  | EvFetch r => FxFetch (url_of r)
  | EvSleep _ ms => FxSleep ms
  | EvAppend text _ => FxAppend text
  | EvSaveCursor content => FxSaveCursor content
  | EvUnlinkCursor => FxUnlinkCursor
  | EvSaveTimestamp content => FxSaveTimestamp content
  end.

(** A cursor the two texts of the script write into a URL in the same way:
    none, or one of unreserved code units. *)
Definition plain_cursor (c : option string) : bool :=
  match c with Some s => Url.plain s | None => true end.

(** * The script before de-duplication, [part_000]

    The earlier text of the script: no index, no timestamp file, no
    [created_after]; the header goes with every first batch, and the URL
    is written by hand, the cursor not encoded.  [sleep],
    [formatUserToCsvRow], [saveCursor], [loadSavedCursor] and the loop of
    [fetchPageOfUsers] are the ones above, word for word; a request of a
    trace ([EvFetch]) holds the arguments of the call, and the URL it
    fetches is [V0.url_of] of them here, [url_of] above. *)

Module V0.

(** [appendUsersToFile(users, isFirstBatch)]: the header for a first batch,
    a row for every user, and the text is appended whatever it holds. *)
Definition appendUsersToFile (users : list PrivyUser) (isFirstBatch : bool)
    (f : Files) : Files * string :=
  let csv := (if isFirstBatch then [HEADER] else [])
             ++ map formatUserToCsvRow users in
  let text := Js.join (String Js.newline EmptyString) csv
              +:+ String Js.newline EmptyString in
  (appendFileSync text f, text).

(** The arguments of a call: the cursor when it is truthy, no
    [since]. *)
Definition build_request (cursor : option string) : Request :=
  {| cursor_param := Js.or_undefined cursor; created_after_param := None |}.

(** ["https://auth.privy.io/api/v1/users" + (cursor ? `?cursor=${cursor}` : "")]:
    the URL fetched, the cursor pasted as it is. *)
Definition fetch_url (cursor : option string) : string :=
  USERS_URL
  +:+ (if Js.truthy (Js.or_empty cursor)
       then "?cursor=" +:+ Js.or_empty cursor else "").

Definition url_of (r : Request) : string := fetch_url (cursor_param r).

Definition fetchPageOfUsers (random : nat -> Q) (cursor : option string)
    (draws : nat) (script : list Outcome) : FetchRun :=
  fetch_loop random (build_request cursor)
    0 CONFIG.rateLimit.initialBackoffMs draws script.

(** The mutable state outside the loop variables. *)
Record State := {
  files : Files;
  draws : nat
}.

(** The variables of the [do ... while] loop. *)
Record Loop := {
  cursor : option string;
  isFirstBatch : bool;
  totalUsers : nat
}.

Record Run := {
  r_result : Result unit;
  r_state : State;
  r_loop : Loop;
  r_events : list Event;
  r_rest : list Outcome
}.

Definition run_emit (ev : list Event) (r : Run) : Run :=
  {| r_result := r_result r; r_state := r_state r; r_loop := r_loop r;
     r_events := ev ++ r_events r; r_rest := r_rest r |}.

Record Processed := {
  p_state : State;
  p_loop : Loop;
  p_events : list Event;
  p_next : Next
}.

(** The loop body after [fetchPageOfUsers] has returned [query] with an
    array [users] in its [data]. *)
Definition processPage (users : list PrivyUser) (new_cursor : option string)
    (v : Loop) (st : State) : Processed :=
  let '(f1, v1, ev1) :=
    match users with
    | [] => (files st, v, [])
    | _ =>
        let '(f1, text) := appendUsersToFile users (isFirstBatch v) (files st) in
        (f1,
         {| cursor := cursor v; isFirstBatch := false;
            totalUsers := totalUsers v + length users |},
         [EvAppend text users])
    end in
  {| p_state := {| files := saveCursor new_cursor f1; draws := draws st |};
     p_loop := {| cursor := new_cursor; isFirstBatch := isFirstBatch v1;
                  totalUsers := totalUsers v1 |};
     p_events := ev1 ++ [EvSaveCursor (Js.or_empty new_cursor)];
     p_next :=
       if (length users =? 0)%nat && negb (Js.truthy (Js.or_empty new_cursor))
       then Stop
       else match new_cursor with Some _ => Continue | None => Stop end |}.

Section Driver.
Variable random : nat -> Q.

(** The [do ... while] loop, one turn per page. *)
Fixpoint page_loop (fuel : nat) (v : Loop) (st : State)
    (script : list Outcome) : Run :=
  match fuel with
  | 0 => {| r_result := Blocked; r_state := st; r_loop := v;
            r_events := []; r_rest := script |}
  | S fuel =>
      let fr := fetchPageOfUsers random (Js.or_undefined (cursor v))
                  (draws st) script in
      let st := {| files := files st; draws := f_draws fr |} in
      let ev := cooldown_events (totalUsers v) ++ f_events fr in
      let stop res :=
        {| r_result := res; r_state := st; r_loop := v;
           r_events := ev; r_rest := f_rest fr |} in
      match f_result fr with
      | Failed e => stop (Failed e)
      | Blocked => stop Blocked
      | Ok query =>
          match data query with
          | None => stop (Failed InvalidFormat)
          | Some users =>
              let p := processPage users (next_cursor query) v st in
              match p_next p with
              | Stop =>
                  {| r_result := Ok tt; r_state := p_state p;
                     r_loop := p_loop p; r_events := ev ++ p_events p;
                     r_rest := f_rest fr |}
              | Continue =>
                  run_emit (ev ++ p_events p)
                    (page_loop fuel (p_loop p) (p_state p) (f_rest fr))
              end
          end
      end
  end.

(** [getAllUsers()]: the loop, then [fs.unlinkSync(CURSOR_FILE)]. *)
Definition getAllUsers (st : State) (script : list Outcome) : Run :=
  let cursor := loadSavedCursor (files st) in
  let v := {| cursor := cursor;
              isFirstBatch := negb (Js.truthy (Js.or_empty cursor));
              totalUsers := 0 |} in
  let r := page_loop (S (length script)) v st script in
  match r_result r with
  | Ok _ =>
      {| r_result := Ok tt;
         r_state := {| files := set_cursor_file None (files (r_state r));
                       draws := draws (r_state r) |};
         r_loop := r_loop r;
         r_events := r_events r ++ [EvUnlinkCursor];
         r_rest := r_rest r |}
  | _ => r
  end.
End Driver.

(** [main()]: [getAllUsers()], and [process.exit(1)] when it throws. *)
Definition main (random : nat -> Q) (upstream : list Outcome) (f : Files) : Exit :=
  let r := getAllUsers random {| files := f; draws := 0 |} upstream in
  {| x_result := r_result r; x_files := files (r_state r);
     x_events := r_events r |}.

End V0.

(** The states of the two texts of the script that go together: the same
    files, draws and loop variables. *)
Definition same_run (v : Loop) (st : State) (v0 : V0.Loop) (st0 : V0.State)
  : Prop :=
  cursor v = V0.cursor v0 /\ isFirstBatch v = V0.isFirstBatch v0
  /\ totalUsers v = V0.totalUsers v0
  /\ files st = V0.files st0 /\ draws st = V0.draws st0.

(** The records still to come are new to the index, each with an identifier
    of its own, and the header is due while the first batch is to come. *)
Definition all_new (v : Loop) (st : State) (script : list Outcome) : Prop :=
  NoDup (map id (served script))
  /\ Forall (fun u => id u ∉ processedUserIds st) (served script)
  /\ (isFirstBatch v = true -> shouldAddHeader (files st) = true).

(** * Proofs *)

(** ** Three runs, evaluated *)

(** A fresh run against two pages: the sink holds the header and two rows,
    the cursor file is removed, nothing is skipped. *)
Example fresh_run_of_two_pages :
  let user i t := {| id := i; created_at := t; is_guest := false;
                     linked_accounts := [] |} in
  let inv := {| FETCH_NEW_ONLY := false; now := 5000; now_time_value := I;
                random := fun _ => 1 # 2;
                upstream :=
                  [Response 200 (Json {| data := Some [user "a" 100%Z];
                                         next_cursor := Some "c1" |});
                   Response 200 (Json {| data := Some [user "b" 200%Z];
                                         next_cursor := None |})] |} in
  let x := main inv no_files in
  x_result x = Ok tt
  /\ users_file (x_files x)
     = Some (lines_text [HEADER; formatUserToCsvRow (user "a" 100%Z);
                         formatUserToCsvRow (user "b" 200%Z)])
  /\ cursor_file (x_files x) = None
  /\ map id (exported (x_events x)) = ["a"; "b"]
  /\ requests (x_events x)
     = [ {| cursor_param := None; created_after_param := None |};
         {| cursor_param := Some "c1"; created_after_param := None |} ].
Proof. by vm_compute. Qed.

(** A later incremental run to which the upstream serves a record again:
    the request carries the watermark, the record is dropped. *)
Example incremental_run_drops_known_record :
  let user i t := {| id := i; created_at := t; is_guest := false;
                     linked_accounts := [] |} in
  let f := {| users_file :=
                Some (lines_text [HEADER; formatUserToCsvRow (user "a" 100%Z);
                                  formatUserToCsvRow (user "b" 200%Z)]);
              cursor_file := None; timestamp_file := Some "5" |} in
  let inv := {| FETCH_NEW_ONLY := true; now := 9000; now_time_value := I;
                random := fun _ => 1 # 2;
                upstream :=
                  [Response 200 (Json {| data := Some [user "a" 100%Z];
                                         next_cursor := None |})] |} in
  let x := main inv f in
  x_result x = Ok tt
  /\ requests (x_events x)
     = [ {| cursor_param := None; created_after_param := Some 5%Z |} ]
  /\ exported (x_events x) = []
  /\ users_file (x_files x) = users_file f
  /\ timestamp_file (x_files x) = Some "9".
Proof. by vm_compute. Qed.

(** Three answers 429 and then a page: three backoff sleeps, the page is
    returned. *)
Example three_rate_limits_then_a_page :
  let q := {| data := Some []; next_cursor := None |} in
  let fr := fetchPageOfUsers (fun _ => 1 # 2) None None 0
              [rate_limited; rate_limited; rate_limited;
               Response 200 (Json q)] in
  f_result fr = Ok q
  /\ Forall2 Qeq (backoff_delays (f_events fr)) [2000; 4000; 8000]%Q
  /\ length (requests (f_events fr)) = 4.
Proof.
  split_and!; [by vm_compute| |by vm_compute].
  vm_compute. repeat constructor.
Qed.
(** ** The cursor store *)

Lemma or_null_trim_empty : Js.or_null (Js.trim EmptyString) = None.
Proof. reflexivity. Qed.

(** C9.  [loadSavedCursor] after [saveCursor(c)] gives the trimmed [c] when
    the trim is not empty and [null] otherwise; [saveCursor(null)] writes the
    empty file, which reads back as [null]. *)
Theorem saveCursor_loadSavedCursor (c : option string) (f : Files) :
  loadSavedCursor (saveCursor c f) =
    match c with
    | Some s => if Js.truthy (Js.trim s) then Some (Js.trim s) else None
    | None => None
    end
  /\ cursor_file (saveCursor None f) = Some EmptyString
  /\ loadSavedCursor (saveCursor None f) = None.
Proof.
  split; [|split]; try reflexivity.
  destruct c as [s|]; reflexivity.
Qed.

(** ** The retry loop *)

Lemma fetch_emit_result ev r : f_result (fetch_emit ev r) = f_result r.
Proof. reflexivity. Qed.

Lemma fetch_emit_events ev r : f_events (fetch_emit ev r) = ev ++ f_events r.
Proof. reflexivity. Qed.

Lemma fetch_emit_rest ev r : f_rest (fetch_emit ev r) = f_rest r.
Proof. reflexivity. Qed.

Lemma fetch_emit_draws ev r : f_draws (fetch_emit ev r) = f_draws r.
Proof. reflexivity. Qed.

Lemma run_emit_events ev r : r_events (run_emit ev r) = ev ++ r_events r.
Proof. reflexivity. Qed.





(** ** The backoff schedule *)

Lemma jitter_range r : (0 <= r <= 1)%Q -> (9 # 10 <= jitter r <= 11 # 10)%Q.
Proof. unfold jitter, CONFIG.rateLimit.jitterFactor. intros [??]. split; lra. Qed.

Lemma next_backoff_le_max b r : (next_backoff b r <= CONFIG.rateLimit.maxBackoffMs)%Q.
Proof. apply Q.le_min_r. Qed.

Lemma next_backoff_grows b r :
  (0 <= r <= 1)%Q -> (0 <= b <= CONFIG.rateLimit.maxBackoffMs)%Q ->
  (b <= next_backoff b r)%Q.
Proof.
  intros Hr [Hb0 Hb]. apply jitter_range in Hr as [Hj _].
  unfold next_backoff, CONFIG.rateLimit.backoffFactor.
  apply Q.min_glb; [|done]. nra.
Qed.

Lemma next_backoff_lower b r :
  (0 <= r <= 1)%Q -> (1000 <= b)%Q -> (1800 <= next_backoff b r)%Q.
Proof.
  intros Hr Hb. apply jitter_range in Hr as [Hj _].
  unfold next_backoff, CONFIG.rateLimit.backoffFactor,
    CONFIG.rateLimit.maxBackoffMs.
  apply Q.min_glb; [nra|lra].
Qed.

Lemma fetch_loop_backoff_chain random req script :
  forall retries backoffMs draws,
  backoff_chain random backoffMs draws
    (backoff_delays (f_events (fetch_loop random req retries backoffMs draws script))).
Proof.
  induction script as [|[status body|message] script IH]; intros; simpl; [done|..].
  - destruct (response_ok status); [done|].
    destruct (Z.eqb status 429); [|done]. simpl. auto.
  - destruct (Js.includes _ message); [done|].
    destruct (5 <? S retries)%nat; [done|]. simpl. auto.
Qed.

Lemma backoff_chain_bounds random :
  (forall n, (0 <= random n <= 1)%Q) ->
  forall ds b draws,
  (1000 <= b <= CONFIG.rateLimit.maxBackoffMs)%Q ->
  backoff_chain random b draws ds ->
  Forall (fun d => (1800 <= d <= CONFIG.rateLimit.maxBackoffMs)%Q) ds
  /\ Sorted Qle (b :: ds).
Proof.
  intros Hrnd. induction ds as [|d ds IH]; intros b draws Hb Hc.
  - split; [constructor|]. repeat constructor.
  - destruct Hc as [-> Hc].
    assert (Hd : (1800 <= next_backoff b (random draws)
                  <= CONFIG.rateLimit.maxBackoffMs)%Q).
    { split; [apply next_backoff_lower; [done|tauto]|apply next_backoff_le_max]. }
    assert (Hd' : (1000 <= next_backoff b (random draws)
                   <= CONFIG.rateLimit.maxBackoffMs)%Q) by (split; [lra|tauto]).
    destruct (IH _ _ Hd' Hc) as [Hall Hs].
    split; [by constructor|].
    constructor; [done|]. constructor.
    apply next_backoff_grows; [done|]. split; [lra|tauto].
Qed.

(** C5 (as amended).  With [Math.random] in [0, 1] the jitter is in
    [0.9, 1.1], and the delays slept between the attempts of one call (after
    a 429 answer or a transport failure) follow
    [delay = min(60000, previous * 2 * jitter)], where [previous] is the
    1000 ms base for the first delay of the call.  So every delay, the first
    included, is between 1800 and 60000 ms, and the delays never decrease. *)
Theorem fetchPageOfUsers_backoff_schedule random cursor since draws script :
  (forall n, (0 <= random n <= 1)%Q) ->
  let ds := backoff_delays
              (f_events (fetchPageOfUsers random cursor since draws script)) in
  backoff_chain random CONFIG.rateLimit.initialBackoffMs draws ds
  /\ (forall n, (9 # 10 <= jitter (random n) <= 11 # 10)%Q)
  /\ Forall (fun d => (1800 <= d <= CONFIG.rateLimit.maxBackoffMs)%Q) ds
  /\ Sorted Qle ds.
Proof.
  intros Hrnd ds.
  assert (Hc : backoff_chain random CONFIG.rateLimit.initialBackoffMs draws ds)
    by apply fetch_loop_backoff_chain.
  assert (Hb : (1000 <= CONFIG.rateLimit.initialBackoffMs
                <= CONFIG.rateLimit.maxBackoffMs)%Q)
    by (split; vm_compute; discriminate).
  clearbody ds.
  destruct (backoff_chain_bounds random Hrnd ds _ draws Hb Hc) as [Hall Hs].
  split_and!; [done| |done|].
  - intros n. by apply jitter_range.
  - by inversion Hs.
Qed.

(** C5, at three answers 429 and a 2xx answer, with [Math.random] at 1/2. *)
Lemma fetchPageOfUsers_backoff_schedule_witness :
  (forall n : nat, (0 <= (fun _ : nat => 1 # 2) n <= 1)%Q)
  /\ let ds := backoff_delays
                 (f_events (fetchPageOfUsers (fun _ => 1 # 2) None None 0
                              [rate_limited; rate_limited; rate_limited;
                               Response 200 (Json {| data := Some [];
                                                     next_cursor := None |})])) in
     backoff_chain (fun _ => 1 # 2) CONFIG.rateLimit.initialBackoffMs 0 ds
     /\ (forall n : nat, (9 # 10 <= jitter ((fun _ : nat => 1 # 2) n) <= 11 # 10)%Q)
     /\ Forall (fun d => (1800 <= d <= CONFIG.rateLimit.maxBackoffMs)%Q) ds
     /\ Sorted Qle ds.
Proof.
  assert (H : forall n : nat, (0 <= (fun _ : nat => 1 # 2) n <= 1)%Q).
  { intros _. split; vm_compute; discriminate. }
  split; [exact H|].
  exact (fetchPageOfUsers_backoff_schedule (fun _ => 1 # 2) None None 0 _ H).
Defined.

(** C5, counterexample: one answer 429, jitter 1.  The first delay is
    2000 ms, not the 1000 ms base. *)
Lemma first_backoff_delay_is_not_the_base :
  exists d,
    backoff_delays
      (f_events (fetchPageOfUsers (fun _ => 1 # 2) None None 0
                   [rate_limited;
                    Response 200 (Json {| data := Some []; next_cursor := None |})]))
    = [d]
    /\ (d == 2000)%Q
    /\ ~ (d == CONFIG.rateLimit.initialBackoffMs)%Q.
Proof.
  eexists. split; [vm_compute; reflexivity|].
  split; [reflexivity|]. vm_compute. discriminate.
Qed.

(** ** What a call of [fetchPageOfUsers] leaves behind *)

Lemma fetch_loop_rest random req script :
  forall retries backoffMs draws,
  let fr := fetch_loop random req retries backoffMs draws script in
  exists used, script = used ++ f_rest fr
    /\ (forall q, f_result fr = Ok q ->
          exists status used', used = used' ++ [Response status (Json q)]).
Proof.
  induction script as [|[status body|message] script IH];
    intros retries backoffMs draws fr; simpl.
  - exists []. split; [done|discriminate].
  - subst fr. simpl. destruct (response_ok status).
    + exists [Response status body]. split; [done|].
      intros q Hq. exists status, []. destruct body; by simplify_eq/=.
    + destruct (Z.eqb status 429).
      * destruct (IH (S retries) (next_backoff backoffMs (random draws)) (S draws))
          as (used & E & Hq).
        exists (Response status body :: used). split; [simpl; by f_equal|].
        intros q Hres. destruct (Hq q Hres) as (s & u' & ->).
        by exists s, (Response status body :: u').
      * exists [Response status body]. split; [done|discriminate].
  - subst fr. simpl. destruct (Js.includes _ message).
    + exists [Rejected message]. split; [done|discriminate].
    + destruct (5 <? S retries)%nat.
      * exists [Rejected message]. split; [done|discriminate].
      * destruct (IH (S retries) (next_backoff backoffMs (random draws)) (S draws))
          as (used & E & Hq).
        exists (Rejected message :: used). split; [simpl; by f_equal|].
        intros q Hres. destruct (Hq q Hres) as (s & u' & ->).
        by exists s, (Rejected message :: u').
Qed.

Lemma fetchPageOfUsers_rest_shorter random cursor since draws script q :
  let fr := fetchPageOfUsers random cursor since draws script in
  f_result fr = Ok q -> length (f_rest fr) < length script.
Proof.
  intros fr Hq.
  destruct (fetch_loop_rest random (build_request cursor since) script
              0 CONFIG.rateLimit.initialBackoffMs draws) as (used & E & Hu).
  destruct (Hu q Hq) as (s & u' & ->).
  fold (fetchPageOfUsers random cursor since draws script) in E. fold fr in E.
  apply (f_equal length) in E. rewrite !length_app in E. simpl in E.
  subst fr. lia.
Qed.

Lemma fetch_loop_events random req script :
  forall retries backoffMs draws,
  let fr := fetch_loop random req retries backoffMs draws script in
  exists tl, f_events fr = EvFetch req :: tl /\ Forall (fetch_event req) tl.
Proof.
  induction script as [|[status body|message] script IH];
    intros retries backoffMs draws fr; subst fr; simpl.
  - by exists [].
  - destruct (response_ok status).
    + eexists. split; [done|]. by repeat constructor.
    + destruct (Z.eqb status 429); [|by exists []].
      destruct (IH (S retries) (next_backoff backoffMs (random draws)) (S draws))
        as (tl & E & Htl).
      simpl in E. rewrite fetch_emit_events, E. eexists. split; [done|].
      by repeat constructor.
  - destruct (Js.includes _ message); [by exists []|].
    destruct (5 <? S retries)%nat; [by exists []|].
    destruct (IH (S retries) (next_backoff backoffMs (random draws)) (S draws))
      as (tl & E & Htl).
    simpl in E. rewrite fetch_emit_events, E. eexists. split; [done|].
    by repeat constructor.
Qed.

Lemma fetch_events_readings req ev :
  Forall (fetch_event req) ev ->
  requests ev = repeat req (length (requests ev))
  /\ exported ev = []
  /\ omap saved_cursor ev = []
  /\ cooldowns ev = 0.
Proof.
  induction 1 as [|e ev He _ (IH1 & IH2 & IH3 & IH4)]; [done|].
  destruct e as [r|k ms| | | |]; simpl in He; try done.
  - subst r. split_and!; try done. simpl. by f_equal.
  - split_and!; try done. unfold cooldowns in *. simpl.
    destruct k; try done.
Qed.

(** ** A rule for the page loop *)

(** A relation between the state before and after a stretch of the loop and
    the events of the stretch holds of every run of [page_loop] when it holds
    of the empty stretch, of a fetch, of the processing of a page the script
    can serve, and is closed under sequencing. *)
Section Summary.
Variable random : nat -> Q.
Variable since : option Z.
Variable good : list PrivyUser -> Prop.
Variable Sum : Loop -> State -> list Event -> Loop -> State -> Prop.
Hypothesis Sum_refl : forall v st, Sum v st [] v st.
Hypothesis Sum_trans : forall v1 s1 e1 v2 s2 e2 v3 s3,
  Sum v1 s1 e1 v2 s2 -> Sum v2 s2 e2 v3 s3 -> Sum v1 s1 (e1 ++ e2) v3 s3.
Hypothesis Sum_fetch : forall v st script,
  let fr := fetchPageOfUsers random (Js.or_undefined (cursor v)) since
              (draws st) script in
  Sum v st (cooldown_events (totalUsers v) ++ f_events fr)
      v (with_draws (f_draws fr) st).
Hypothesis Sum_page : forall users c v st,
  good users ->
  let p := processPage users c v st in
  Sum v st (p_events p) (p_loop p) (p_state p).

Lemma page_loop_summary fuel :
  forall v st script,
  serves good script ->
  let r := page_loop random since fuel v st script in
  Sum v st (r_events r) (r_loop r) (r_state r).
Proof.
  induction fuel as [|fuel IH]; intros v st script Hgood; simpl; [apply Sum_refl|].
  pose proof (Sum_fetch v st script) as Hf. simpl in Hf.
  pose proof (fetch_loop_rest random
                (build_request (Js.or_undefined (cursor v)) since) script
                0 CONFIG.rateLimit.initialBackoffMs (draws st)) as (used & E & Hu).
  fold (fetchPageOfUsers random (Js.or_undefined (cursor v)) since (draws st) script)
    in E, Hu.
  destruct (f_result (fetchPageOfUsers _ _ _ _ _)) as [q| |] eqn:Hres; simpl; try done.
  destruct (data q) as [users|] eqn:Hdata; simpl; [|done].
  destruct (Hu q eq_refl) as (s & u' & ->).
  assert (Hus : good users).
  { apply (Hgood s q users); [|done]. rewrite E.
    rewrite !in_app_iff. left. right. by left. }
  pose proof (Sum_page users (next_cursor q) v
                (with_draws (f_draws (fetchPageOfUsers random
                   (Js.or_undefined (cursor v)) since (draws st) script)) st) Hus)
    as Hp. simpl in Hp.
  destruct (p_next _) eqn:Hnext; simpl.
  - eapply Sum_trans; [eapply Sum_trans; [exact Hf|exact Hp]|].
    apply IH. intros s' q' us' Hin. apply (Hgood s' q' us').
    rewrite E, in_app_iff. by right.
  - eapply Sum_trans; [exact Hf|exact Hp].
Qed.
End Summary.

(** ** Readings of the trace of a run *)

Lemma requests_app e1 e2 : requests (e1 ++ e2) = requests e1 ++ requests e2.
Proof. apply omap_app. Qed.

Lemma exported_app e1 e2 : exported (e1 ++ e2) = exported e1 ++ exported e2.
Proof. unfold exported. by rewrite map_app, concat_app. Qed.

Lemma cooldowns_app e1 e2 : cooldowns (e1 ++ e2) = cooldowns e1 + cooldowns e2.
Proof. unfold cooldowns. by rewrite filter_app, length_app. Qed.

Lemma last_checkpoint_app init e1 e2 :
  last_checkpoint init (e1 ++ e2) = last_checkpoint (last_checkpoint init e1) e2.
Proof.
  unfold last_checkpoint. rewrite omap_app.
  destruct (omap saved_cursor e2) as [|c l] using rev_ind.
  - by rewrite app_nil_r.
  - by rewrite app_assoc, !last_snoc.
Qed.

Lemma cooldown_events_readings total :
  requests (cooldown_events total) = []
  /\ exported (cooldown_events total) = []
  /\ omap saved_cursor (cooldown_events total) = [].
Proof. unfold cooldown_events. by destruct (cooldown_due total). Qed.

Lemma processPage_events users c v st :
  let p := processPage users c v st in
  exists ev, p_events p = ev ++ [EvSaveCursor (Js.or_empty c)]
    /\ (ev = [] \/ exists text rows, ev = [EvAppend text rows])
    /\ cursor_file (files (p_state p)) = Some (Js.or_empty c)
    /\ timestamp_file (files (p_state p)) = timestamp_file (files st)
    /\ cursor (p_loop p) = c.
Proof.
  unfold processPage. destruct users as [|u users].
  - exists []. simpl. split_and!; auto.
  - set (a := appendUsersToFile _ _ _ _).
    exists (match a_text a with Some text => [EvAppend text (a_rows a)] | None => [] end).
    simpl. split_and!; auto.
    + destruct (a_text a); eauto.
    + subst a. unfold appendUsersToFile.
      destruct (_ ++ _); simpl; done.
Qed.

Lemma processPage_requests users c v st :
  requests (p_events (processPage users c v st)) = [].
Proof.
  destruct (processPage_events users c v st) as (ev & -> & [->|(t & r & ->)] & _);
    done.
Qed.

Lemma fetchPageOfUsers_events random cursor since draws script :
  let fr := fetchPageOfUsers random cursor since draws script in
  exists tl, f_events fr = EvFetch (build_request cursor since) :: tl
    /\ Forall (fetch_event (build_request cursor since)) tl.
Proof. apply fetch_loop_events. Qed.

(** Every request of the loop carries the same [created_after]. *)
Lemma page_loop_requests_since random since fuel v st script :
  Forall (fun r => created_after_param r
                   = created_after_param (build_request None since))
    (requests (r_events (page_loop random since fuel v st script))).
Proof.
  apply (page_loop_summary random since (fun _ => True)
           (fun _ _ ev _ _ =>
              Forall (fun r => created_after_param r
                               = created_after_param (build_request None since))
                (requests ev))); clear; cbv beta; try done.
  - intros ? ? e1 ? ? e2 ? ? H1 H2. rewrite requests_app. by apply Forall_app.
  - intros v st script fr.
    destruct (fetchPageOfUsers_events random (Js.or_undefined (cursor v)) since
                (draws st) script) as (tl & E & Htl).
    fold fr in E. rewrite requests_app, E.
    destruct (cooldown_events_readings (totalUsers v)) as (-> & _).
    destruct (fetch_events_readings _ _ Htl) as (Hr & _).
    simpl. constructor; [done|]. rewrite Hr.
    apply List.Forall_forall. intros x Hx. apply repeat_spec in Hx. by subst.
  - intros users c v st _ p. subst p. by rewrite processPage_requests.
Qed.

(** The first request of the loop carries the cursor the loop starts with. *)
Lemma page_loop_first_request random since fuel v st script :
  exists tl,
    requests (r_events (page_loop random since (S fuel) v st script))
    = build_request (Js.or_undefined (cursor v)) since :: tl.
Proof.
  simpl.
  destruct (fetchPageOfUsers_events random (Js.or_undefined (cursor v)) since
              (draws st) script) as (tl & E & Htl).
  destruct (cooldown_events_readings (totalUsers v)) as (Hc & _).
  assert (Hev : forall more,
    exists tl', requests ((cooldown_events (totalUsers v)
       ++ f_events (fetchPageOfUsers random (Js.or_undefined (cursor v)) since
                      (draws st) script)) ++ more)
    = build_request (Js.or_undefined (cursor v)) since :: tl').
  { intros more. rewrite !requests_app, Hc, E. simpl. eauto. }
  assert (Hev0 : exists tl', requests (cooldown_events (totalUsers v)
       ++ f_events (fetchPageOfUsers random (Js.or_undefined (cursor v)) since
                      (draws st) script))
    = build_request (Js.or_undefined (cursor v)) since :: tl').
  { destruct (Hev []) as (tl' & Hq). rewrite app_nil_r in Hq. eauto. }
  destruct (f_result _) as [q| |]; simpl; [|exact Hev0..].
  destruct (data q); simpl; [|exact Hev0].
  destruct (p_next _); simpl.
  - rewrite ?run_emit_events, <- app_assoc. apply Hev.
  - apply Hev.
Qed.

(** The cursor file holds the last checkpoint written, or what it held. *)
Lemma page_loop_cursor_file random since fuel v st script :
  let r := page_loop random since fuel v st script in
  cursor_file (files (r_state r))
  = last_checkpoint (cursor_file (files st)) (r_events r).
Proof.
  apply (page_loop_summary random since (fun _ => True)
           (fun _ st ev _ st' =>
              cursor_file (files st')
              = last_checkpoint (cursor_file (files st)) ev)); clear; cbv beta; try done.
  - intros ? ? e1 ? ? e2 ? ? H1 H2. by rewrite last_checkpoint_app, <- H1.
  - intros v st script fr.
    destruct (fetchPageOfUsers_events random (Js.or_undefined (cursor v)) since
                (draws st) script) as (tl & E & Htl).
    fold fr in E. unfold last_checkpoint. rewrite omap_app, E.
    destruct (cooldown_events_readings (totalUsers v)) as (_ & _ & ->).
    destruct (fetch_events_readings _ _ Htl) as (_ & _ & Hs & _).
    simpl. unfold omap in Hs. by rewrite Hs.
  - intros users c v st _ p.
    destruct (processPage_events users c v st) as (ev & E & Hev & Hc & _).
    fold p in E, Hc. rewrite Hc, E, last_checkpoint_app.
    unfold last_checkpoint at 1. done.
Qed.

(** The timestamp file is not written by the loop. *)
Lemma page_loop_timestamp_file random since fuel v st script :
  timestamp_file (files (r_state (page_loop random since fuel v st script)))
  = timestamp_file (files st).
Proof.
  apply (page_loop_summary random since (fun _ => True)
           (fun _ st _ _ st' =>
              timestamp_file (files st') = timestamp_file (files st)));
    clear; cbv beta; try done.
  - intros ? ? e1 ? ? e2 ? ? H1 H2. congruence.
  - intros users c v st _ p.
    by destruct (processPage_events users c v st) as (ev & _ & _ & _ & E & _).
Qed.

(** ** Strings *)

Lemma app_cons c s t : String c s +:+ t = String c (s +:+ t).
Proof. reflexivity. Qed.

Lemma app_empty_l s : EmptyString +:+ s = s.
Proof. reflexivity. Qed.

Lemma app_empty_r s : s +:+ EmptyString = s.
Proof. induction s as [|c s IH]; [done|]. by rewrite app_cons, IH. Qed.

Lemma app_assoc_s s t u : (s +:+ t) +:+ u = s +:+ (t +:+ u).
Proof. induction s as [|c s IH]; [done|]. by rewrite !app_cons, IH. Qed.

Lemma split_nonempty sep s : Js.split sep s <> [].
Proof.
  destruct s as [|c s]; simpl; [done|].
  destruct (Ascii.eqb c sep); [done|]. by destruct (Js.split sep s).
Qed.

Lemma split_cons_other sep c s :
  Ascii.eqb c sep = false ->
  Js.split sep (String c s)
  = String c (hd EmptyString (Js.split sep s)) :: tl (Js.split sep s).
Proof.
  intros H. simpl. rewrite H.
  pose proof (split_nonempty sep s). by destruct (Js.split sep s).
Qed.

(** Splitting at a separator splits the pieces each on its own. *)
Lemma split_app_sep sep a b :
  Js.split sep (a +:+ String sep b) = Js.split sep a ++ Js.split sep b.
Proof.
  induction a as [|c a IH].
  - rewrite app_empty_l. simpl. by rewrite Ascii.eqb_refl.
  - rewrite app_cons. simpl. destruct (Ascii.eqb c sep); [by rewrite IH|].
    rewrite IH. pose proof (split_nonempty sep a).
    by destruct (Js.split sep a).
Qed.

(** The first piece of a string that starts with a piece free of the
    separator. *)
Lemma split_hd_app sep a b :
  Js.has_char sep a = false ->
  hd EmptyString (Js.split sep (a +:+ b))
  = a +:+ hd EmptyString (Js.split sep b).
Proof.
  induction a as [|c a IH]; [done|]. intros H. simpl in H.
  apply orb_false_iff in H as [Hc Ha].
  rewrite !app_cons, split_cons_other by done. simpl. by rewrite IH.
Qed.

Lemma split_hd_sep sep a b :
  Js.has_char sep a = false ->
  hd EmptyString (Js.split sep (a +:+ String sep b)) = a.
Proof.
  intros Ha. rewrite split_hd_app by done. simpl.
  by rewrite Ascii.eqb_refl, app_empty_r.
Qed.

Lemma trimEnd_cons_keep c s :
  Js.trimEnd s <> EmptyString -> Js.trimEnd (String c s) = String c (Js.trimEnd s).
Proof. simpl. by destruct (Js.trimEnd s). Qed.

Lemma trimEnd_cons_nonempty c s :
  Js.is_ws c = false -> Js.trimEnd (String c s) <> EmptyString.
Proof. simpl. intros ->. by destruct (Js.trimEnd s). Qed.

Lemma trimEnd_cons_head c s :
  Js.is_ws c = false -> exists t, Js.trimEnd (String c s) = String c t.
Proof. simpl. intros ->. destruct (Js.trimEnd s); eauto. Qed.

(** The end of a string is trimmed inside its last part when something of
    that part stays. *)
Lemma trimEnd_app a b :
  Js.trimEnd b <> EmptyString -> Js.trimEnd (a +:+ b) = a +:+ Js.trimEnd b.
Proof.
  intros Hb. induction a as [|c a IH]; [done|].
  rewrite !app_cons, trimEnd_cons_keep; rewrite IH; [done|].
  destruct a; [done|]. by rewrite app_cons.
Qed.

Lemma remove_all_app c a b :
  Js.remove_all c (a +:+ b) = Js.remove_all c a +:+ Js.remove_all c b.
Proof.
  induction a as [|x a IH]; [done|]. rewrite app_cons. simpl.
  destruct (Ascii.eqb x c); [done|]. by rewrite app_cons, IH.
Qed.

Lemma remove_all_absent c s :
  Js.has_char c s = false -> Js.remove_all c s = s.
Proof.
  induction s as [|x s IH]; [done|]. simpl. intros [-> Hs]%orb_false_iff.
  by rewrite IH.
Qed.

Lemma has_char_app c a b :
  Js.has_char c (a +:+ b) = Js.has_char c a || Js.has_char c b.
Proof.
  induction a as [|x a IH]; [done|]. rewrite app_cons. simpl.
  by rewrite IH, orb_assoc.
Qed.

(** A string without white space at either end is its own trim. *)
Lemma trimEnd_no_ws s :
  (forall c, Js.has_char c s = true -> Js.is_ws c = false) -> Js.trimEnd s = s.
Proof.
  induction s as [|x s IH]; [done|]. intros H.
  assert (Hx : Js.is_ws x = false).
  { apply H. simpl. by rewrite Ascii.eqb_refl. }
  assert (Hs : Js.trimEnd s = s).
  { apply IH. intros c Hc. apply H. simpl. by rewrite Hc, orb_true_r. }
  simpl. rewrite Hs, Hx. by destruct s.
Qed.

Lemma trim_no_ws s :
  (forall c, Js.has_char c s = true -> Js.is_ws c = false) -> Js.trim s = s.
Proof.
  intros H. unfold Js.trim. rewrite trimEnd_no_ws by done.
  destruct s as [|x s]; [done|]. simpl.
  rewrite (H x); [done|]. simpl. by rewrite Ascii.eqb_refl.
Qed.

(** ** Integers in base ten *)

Lemma pretty_N_char_digit d :
  (d < 10)%N ->
  Js.is_digit (pretty_N_char d) = true
  /\ Js.digit_val (pretty_N_char d) = Z.of_N d.
Proof.
  intros Hd.
  assert (d = 0 \/ d = 1 \/ d = 2 \/ d = 3 \/ d = 4 \/ d = 5 \/ d = 6
          \/ d = 7 \/ d = 8 \/ d = 9)%N as H by lia.
  repeat (destruct H as [->|H]; [by vm_compute|]). by subst.
Qed.

Lemma digits_go_pretty_N_go x :
  forall s seen,
  Js.digits_go 0 seen (pretty_N_go x s)
  = if decide (x = 0)%N then Js.digits_go 0 seen s
    else Js.digits_go (Z.of_N x) true s.
Proof.
  induction (N.lt_wf_0 x) as [x _ IH]; intros s seen.
  destruct (decide (x = 0)%N) as [->|Hx]; [by rewrite pretty_N_go_0|].
  rewrite pretty_N_go_step by lia.
  rewrite IH by (apply N.div_lt; lia).
  destruct (pretty_N_char_digit (x `mod` 10)%N) as [Hd Hv];
    [by apply N.mod_lt|].
  destruct (decide (x `div` 10 = 0)%N) as [H0|H0]; simpl; rewrite Hd, Hv.
  - f_equal. rewrite (N.div_mod x 10) at 2 by done. rewrite H0. lia.
  - f_equal. rewrite (N.div_mod x 10) at 3 by done. lia.
Qed.

Lemma digits_go_pretty_N (x : N) :
  Js.digits_go 0 false (pretty x) = Some (Z.of_N x).
Proof.
  unfold pretty, pretty_N. destruct (decide (x = 0)%N) as [->|Hx]; [done|].
  rewrite digits_go_pretty_N_go. by destruct (decide (x = 0)%N).
Qed.

Lemma pretty_N_go_chars x :
  forall s c, Js.has_char c (pretty_N_go x s) = true ->
  Js.is_digit c = true \/ Js.has_char c s = true.
Proof.
  induction (N.lt_wf_0 x) as [x _ IH]; intros s c.
  destruct (decide (x = 0)%N) as [->|Hx]; [rewrite pretty_N_go_0; auto|].
  rewrite pretty_N_go_step by lia. intros H.
  apply IH in H; [|apply N.div_lt; lia].
  destruct H as [H|H]; [by left|]. simpl in H.
  apply orb_true_iff in H as [H|H]; [|by right].
  apply Ascii.eqb_eq in H as <-. left.
  by apply pretty_N_char_digit, N.mod_lt.
Qed.

Lemma pretty_N_chars (x : N) c :
  Js.has_char c (pretty x) = true -> Js.is_digit c = true.
Proof.
  unfold pretty, pretty_N. destruct (decide (x = 0)%N) as [->|Hx].
  - cbn [Js.has_char]. rewrite orb_false_r. by intros <-%Ascii.eqb_eq.
  - intros [H|H]%pretty_N_go_chars; done.
Qed.

Lemma pretty_N_head (x : N) :
  exists c s, pretty x = String c s /\ Js.is_digit c = true.
Proof.
  destruct (pretty x) as [|c s] eqn:E.
  - pose proof (digits_go_pretty_N x) as H. by rewrite E in H.
  - exists c, s. split; [done|]. apply (pretty_N_chars x). rewrite E. simpl.
    by rewrite Ascii.eqb_refl.
Qed.

Lemma is_digit_not_ws c : Js.is_digit c = true -> Js.is_ws c = false.
Proof.
  unfold Js.is_digit. intros [H1 H2]%andb_true_iff.
  apply N.leb_le in H1, H2.
  destruct (Js.is_ws c) eqn:Hw; [|done]. exfalso.
  destruct c as [[] [] [] [] [] [] [] []]; simpl in Hw; try discriminate;
    vm_compute in H1, H2; try (by apply H1); try (by apply H2).
Qed.

Lemma toString_chars n c :
  Js.has_char c (Js.toString n) = true ->
  Js.is_digit c = true \/ c = "-"%char.
Proof.
  unfold Js.toString, pretty, pretty_Z. destruct n as [|p|p].
  - cbn [Js.has_char]. rewrite orb_false_r. intros <-%Ascii.eqb_eq. by left.
  - intros H. left. by apply (pretty_N_chars (Npos p)).
  - change ("-" +:+ pretty p) with (String "-" (pretty p)).
    cbn [Js.has_char]. intros [H|H]%orb_true_iff.
    + apply Ascii.eqb_eq in H. by right.
    + left. by apply (pretty_N_chars (Npos p)).
Qed.

Lemma trim_toString n : Js.trim (Js.toString n) = Js.toString n.
Proof.
  apply trim_no_ws. intros c [H| ->]%toString_chars; [|done].
  by apply is_digit_not_ws.
Qed.

(** [parseInt] reads back what [toString] wrote. *)
Lemma parseInt_toString n : Js.parseInt (Js.toString n) = Some n.
Proof.
  unfold Js.parseInt.
  replace (Js.trimStart (Js.toString n)) with (Js.toString n).
  2:{ pose proof (trim_toString n) as H. unfold Js.trim in H.
      rewrite trimEnd_no_ws in H; [done|].
      intros c [Hc| ->]%toString_chars; [by apply is_digit_not_ws|done]. }
  unfold Js.toString, pretty, pretty_Z. destruct n as [|p|p].
  - done.
  - change (pretty p) with (pretty (Npos p)).
    destruct (pretty_N_head (Npos p)) as (c & s & E & Hc).
    pose proof (digits_go_pretty_N (Npos p)) as H. rewrite E in *.
    assert (c <> "-"%char /\ c <> "+"%char) as [??].
    { split; intros ->; by vm_compute in Hc. }
    destruct c as [[] [] [] [] [] [] [] []]; try done.
  - change (pretty p) with (pretty (Npos p)).
    change ("-" +:+ pretty (Npos p)) with (String "-" (pretty (Npos p))).
    cbv iota beta. by rewrite digits_go_pretty_N.
Qed.

(** ** One invocation *)

Lemma loadLastFetchTimestamp_nonzero f : loadLastFetchTimestamp f <> Some 0%Z.
Proof.
  unfold loadLastFetchTimestamp. destruct (timestamp_file f); [|done].
  destruct (Js.parseInt _) as [n|]; [|done].
  destruct (Z.eqb_spec n 0); congruence.
Qed.

Lemma or_undefined_loadSavedCursor f :
  Js.or_undefined (loadSavedCursor f) = loadSavedCursor f.
Proof.
  unfold loadSavedCursor. destruct (cursor_file f); [|done].
  unfold Js.or_null. destruct (Js.truthy (Js.trim s)) eqn:E; [|done].
  simpl. unfold Js.or_null. by rewrite E.
Qed.

Lemma created_after_build_request c since :
  since <> Some 0%Z -> created_after_param (build_request c since) = since.
Proof.
  destruct since as [n|]; [|done]. simpl. intros H.
  destruct (Z.eqb_spec n 0); congruence.
Qed.

Lemma getAllUsers_events random since st script :
  let r := getAllUsers random since st script in
  exists v tail,
    cursor v = loadSavedCursor (files st)
    /\ r_events r
       = r_events (page_loop random since (S (length script)) v st script) ++ tail
    /\ requests tail = [] /\ exported tail = [].
Proof.
  unfold getAllUsers. cbv zeta.
  match goal with
  | |- context [page_loop ?a ?b ?c ?v ?s ?l] =>
      set (r := page_loop a b c v s l); exists v
  end.
  destruct (r_result r).
  - exists [EvUnlinkCursor]. by split_and!.
  - exists []. by rewrite app_nil_r.
  - exists []. by rewrite app_nil_r.
Qed.

(** An invocation that stops at the date of the watermark has done
    nothing. *)
Lemma main_not_begun inv f :
  begins inv f = false ->
  main inv f
  = {| x_result := Failed InvalidTime; x_files := f; x_events := [] |}.
Proof.
  unfold begins, main_since, main. cbv zeta.
  destruct (if FETCH_NEW_ONLY inv then loadLastFetchTimestamp f else None);
    [|done]. by intros ->.
Qed.

(** An invocation that gets past it is [getAllUsers] and, when that
    returns, [saveTimestamp]. *)
Lemma main_begun inv f :
  begins inv f = true ->
  main inv f
  = let r := getAllUsers (random inv) (main_since inv f)
               {| files := f; processedUserIds := loadExistingUserIds f ∅;
                  draws := 0 |} (upstream inv) in
    match r_result r with
    | Ok _ =>
        {| x_result := Ok tt;
           x_files := saveTimestamp (now inv / 1000) (files (r_state r));
           x_events := r_events r
                       ++ [EvSaveTimestamp (Js.toString (now inv / 1000))] |}
    | res => {| x_result := res; x_files := files (r_state r);
                x_events := r_events r |}
    end.
Proof.
  unfold begins, main_since, main. cbv zeta.
  destruct (if FETCH_NEW_ONLY inv then loadLastFetchTimestamp f else None);
    [|done]. by intros ->.
Qed.

Lemma main_result_begins inv f :
  x_result (main inv f) <> Failed InvalidTime -> begins inv f = true.
Proof.
  destruct (begins inv f) eqn:Hb; [done|].
  by rewrite (main_not_begun inv f Hb).
Qed.

(** The two ways of an invocation: it gets past the date, or it has done
    nothing. *)
Ltac begun inv f Hb :=
  destruct (begins inv f) eqn:Hb;
  [|rewrite ?(main_not_begun inv f Hb); cbn [x_events x_files x_result]].

Lemma begins_without_watermark inv f :
  main_since inv f = None -> begins inv f = true.
Proof. unfold begins. by intros ->. Qed.

(** The start time of an invocation, in seconds, is the watermark of a
    valid date. *)
Lemma now_seconds_time_value inv :
  Js.time_value (now inv / 1000 * 1000) = true.
Proof.
  pose proof (now_time_value inv) as H. unfold Js.time_value in *.
  apply Is_true_true, Z.leb_le in H. apply Z.leb_le.
  pose proof (Z.div_mod (now inv) 1000 ltac:(done)).
  pose proof (Z.mod_pos_bound (now inv) 1000 ltac:(done)). lia.
Qed.

Lemma main_events inv f :
  let since := if FETCH_NEW_ONLY inv then loadLastFetchTimestamp f else None in
  let st := {| files := f; processedUserIds := loadExistingUserIds f ∅;
               draws := 0 |} in
  begins inv f = true ->
  exists tail,
    x_events (main inv f)
    = r_events (getAllUsers (random inv) since st (upstream inv)) ++ tail
    /\ requests tail = [] /\ exported tail = [].
Proof.
  intros since st Hb. rewrite (main_begun inv f Hb). cbv zeta.
  fold since st. destruct (r_result (getAllUsers _ _ _ _)).
  - eexists [_]. by split_and!.
  - exists []. by rewrite app_nil_r.
  - exists []. by rewrite app_nil_r.
Qed.

(** The requests of an invocation: all carry the timestamp [main] passes to
    [getAllUsers], the first carries the saved cursor. *)
Lemma main_requests inv f :
  let since := if FETCH_NEW_ONLY inv then loadLastFetchTimestamp f else None in
  Forall (fun r => created_after_param r = since)
    (requests (x_events (main inv f)))
  /\ (begins inv f = true ->
      exists tl,
        requests (x_events (main inv f))
        = {| cursor_param := loadSavedCursor f; created_after_param := since |}
          :: tl).
Proof.
  intros since.
  destruct (begins inv f) eqn:Hb;
    [|by rewrite (main_not_begun inv f Hb)].
  cut (Forall (fun r => created_after_param r = since)
         (requests (x_events (main inv f)))
       /\ exists tl,
            requests (x_events (main inv f))
            = {| cursor_param := loadSavedCursor f;
                 created_after_param := since |} :: tl); [by intros [??]|].
  assert (Hs : since <> Some 0%Z).
  { subst since. destruct (FETCH_NEW_ONLY inv); [|done].
    apply loadLastFetchTimestamp_nonzero. }
  destruct (main_events inv f Hb) as (t1 & E1 & Ht1 & _).
  destruct (getAllUsers_events (random inv) since
              {| files := f; processedUserIds := loadExistingUserIds f ∅;
                 draws := 0 |} (upstream inv)) as (v & t2 & Hv & E2 & Ht2 & _).
  fold since in E1. rewrite E1, E2, !requests_app, Ht1, Ht2, !app_nil_r. split.
  - pose proof (page_loop_requests_since (random inv) since
                  (S (length (upstream inv))) v
                  {| files := f; processedUserIds := loadExistingUserIds f ∅;
                     draws := 0 |} (upstream inv)) as H.
    by rewrite created_after_build_request in H.
  - destruct (page_loop_first_request (random inv) since
                (length (upstream inv)) v
                {| files := f; processedUserIds := loadExistingUserIds f ∅;
                   draws := 0 |} (upstream inv)) as (tl & ->).
    exists tl. f_equal. unfold build_request. f_equal.
    + rewrite Hv. simpl. by rewrite !or_undefined_loadSavedCursor.
    + by apply (created_after_build_request None).
Qed.

(** C3 (as amended).  Every page request of an invocation carries as
    [created_after] the timestamp [main] hands to [getAllUsers]: the
    watermark (read by [parseInt], with 0 and [NaN] for none) when
    incremental mode is on, nothing otherwise, whether or not a cursor is
    saved.  An invocation that gets past the date it prints first (every
    invocation out of incremental mode or without a watermark, and in
    incremental mode every one whose watermark is the second of a valid
    date) issues a request, and the first request carries the saved cursor
    as well.  An invocation that does not, issues no request: it exits with
    the [RangeError] and has touched no file. *)
Theorem main_requests_since inv f :
  let since := if FETCH_NEW_ONLY inv then loadLastFetchTimestamp f else None in
  Forall (fun r => created_after_param r = since)
    (requests (x_events (main inv f)))
  /\ (match since with Some t => Js.time_value (t * 1000) | None => true end
      = true ->
      exists tl,
        requests (x_events (main inv f))
        = {| cursor_param := loadSavedCursor f; created_after_param := since |}
          :: tl)
  /\ (match since with Some t => Js.time_value (t * 1000) | None => true end
      = false ->
      main inv f
      = {| x_result := Failed InvalidTime; x_files := f; x_events := [] |}).
Proof.
  intros since. destruct (main_requests inv f) as [Hall Hfirst].
  split_and!; [done|exact Hfirst|apply main_not_begun].
Qed.

(** C3, counterexample: a saved cursor, a watermark of 100 and incremental
    mode.  The request of the resumed pass carries [cursor=c1] and
    [created_after=100]. *)
Lemma resumed_pass_carries_created_after :
  let f := {| users_file := None; cursor_file := Some "c1";
              timestamp_file := Some "100" |} in
  let inv := {| FETCH_NEW_ONLY := true; now := 5000; now_time_value := I;
                random := fun _ => 1 # 2;
                upstream := [] |} in
  loadSavedCursor f = Some "c1"
  /\ requests (x_events (main inv f))
     = [ {| cursor_param := Some "c1"; created_after_param := Some 100%Z |} ]
  /\ ~ Forall (fun r => created_after_param r = None)
         (requests (x_events (main inv f))).
Proof.
  split_and!; [by vm_compute..|].
  intros H. vm_compute in H. by inversion H.
Qed.

(** In incremental mode, a watermark one second past the last valid date:
    the invocation exits on the date, with no request and no file written;
    at the last valid second it goes on to the first request. *)
Lemma invalid_watermark_exits_at_start :
  let f t := {| users_file := None; cursor_file := Some "c7";
                timestamp_file := Some t |} in
  let inv := {| FETCH_NEW_ONLY := true; now := 5000; now_time_value := I;
                random := fun _ => 1 # 2; upstream := [] |} in
  main inv (f "8640000000001")
  = {| x_result := Failed InvalidTime; x_files := f "8640000000001";
       x_events := [] |}
  /\ requests (x_events (main inv (f "8640000000000")))
     = [ {| cursor_param := Some "c7";
            created_after_param := Some 8640000000000%Z |} ].
Proof. by vm_compute. Qed.

Lemma main_files inv f :
  let since := if FETCH_NEW_ONLY inv then loadLastFetchTimestamp f else None in
  let st := {| files := f; processedUserIds := loadExistingUserIds f ∅;
               draws := 0 |} in
  let v := {| cursor := loadSavedCursor f;
              isFirstBatch := negb (Js.truthy (Js.or_empty (loadSavedCursor f)));
              totalUsers := 0; processedUsers := 0 |} in
  let r := page_loop (random inv) since (S (length (upstream inv))) v st
             (upstream inv) in
  begins inv f = true ->
  x_result (main inv f) = r_result r
  /\ match r_result r with
     | Ok _ =>
         x_files (main inv f)
         = saveTimestamp (now inv / 1000) (set_cursor_file None (files (r_state r)))
     | _ => x_files (main inv f) = files (r_state r)
     end.
Proof.
  intros since st v r Hb. subst since st v r. rewrite (main_begun inv f Hb).
  unfold main_since, getAllUsers. cbv zeta. cbn [files].
  match goal with
  | |- context [page_loop ?a ?b ?c ?v ?s ?l] => set (r := page_loop a b c v s l)
  end.
  clearbody r. destruct (r_result r) as [[]| |] eqn:E; cbn; by rewrite ?E.
Qed.

(** C4 (as amended).  When an invocation started at [Date.now() = now]
    completes, the cursor file is gone and the timestamp file holds
    [T = floor(now / 1000)], in incremental mode or not.  When [T] is not 0,
    every request of a later incremental invocation that finds this
    timestamp file carries [created_after = T], and there is such a
    request. *)
Theorem main_completes inv f :
  x_result (main inv f) = Ok tt ->
  let T := (now inv / 1000)%Z in
  cursor_file (x_files (main inv f)) = None
  /\ timestamp_file (x_files (main inv f)) = Some (Js.toString T)
  /\ (T <> 0%Z ->
      forall inv' f',
        FETCH_NEW_ONLY inv' = true ->
        timestamp_file f' = timestamp_file (x_files (main inv f)) ->
        Forall (fun r => created_after_param r = Some T)
          (requests (x_events (main inv' f')))
        /\ requests (x_events (main inv' f')) <> []).
Proof.
  intros Hok T.
  assert (Hb0 : begins inv f = true)
    by (apply main_result_begins; by rewrite Hok).
  destruct (main_files inv f Hb0) as [Hres Hfiles].
  rewrite Hok in Hres. rewrite <- Hres in Hfiles. rewrite Hfiles.
  split_and!; [done..|].
  intros HT inv' f' Hinc Hts. simpl in Hts.
  assert (Hl : loadLastFetchTimestamp f' = Some T).
  { unfold loadLastFetchTimestamp. rewrite Hts, trim_toString, parseInt_toString.
    fold T. destruct (Z.eqb_spec T 0); congruence. }
  assert (Hb : begins inv' f' = true).
  { unfold begins, main_since. rewrite Hinc, Hl. apply now_seconds_time_value. }
  destruct (main_requests inv' f') as [Hall Hfirst].
  destruct (Hfirst Hb) as (tl & Hhd).
  rewrite Hinc, Hl in Hall. split; [done|]. by rewrite Hhd.
Qed.

(** C4, at a run without incremental mode that ends on its first page. *)
Lemma main_completes_witness :
  let inv := {| FETCH_NEW_ONLY := false; now := 1700000000123; now_time_value := I;
                random := fun _ => 1 # 2;
                upstream := [Response 200 (Json {| data := Some [];
                                                   next_cursor := None |})] |} in
  let f := {| users_file := None; cursor_file := Some "c7";
              timestamp_file := None |} in
  x_result (main inv f) = Ok tt
  /\ cursor_file (x_files (main inv f)) = None
  /\ timestamp_file (x_files (main inv f)) = Some (Js.toString 1700000000)
  /\ (1700000000%Z <> 0%Z ->
      forall inv' f',
        FETCH_NEW_ONLY inv' = true ->
        timestamp_file f' = timestamp_file (x_files (main inv f)) ->
        Forall (fun r => created_after_param r = Some 1700000000%Z)
          (requests (x_events (main inv' f')))
        /\ requests (x_events (main inv' f')) <> []).
Proof.
  intros inv f.
  assert (H : x_result (main inv f) = Ok tt) by (vm_compute; reflexivity).
  split; [exact H|]. exact (main_completes inv f H).
Defined.

(** C4, counterexample: incremental mode is off and the run completes.  The
    timestamp file, missing before, holds the start time. *)
Lemma watermark_written_without_incremental_mode :
  let inv := {| FETCH_NEW_ONLY := false; now := 5000; now_time_value := I;
                random := fun _ => 1 # 2;
                upstream := [Response 200 (Json {| data := Some [];
                                                   next_cursor := None |})] |} in
  let f := {| users_file := None; cursor_file := None;
              timestamp_file := None |} in
  FETCH_NEW_ONLY inv = false
  /\ x_result (main inv f) = Ok tt
  /\ timestamp_file f = None
  /\ timestamp_file (x_files (main inv f)) = Some "5"
  /\ timestamp_file (x_files (main inv f)) <> timestamp_file f.
Proof. by vm_compute. Qed.

(** ** The sink read back *)

Lemma join_lines l :
  l <> [] ->
  Js.join (String Js.newline EmptyString) l +:+ String Js.newline EmptyString
  = lines_text l.
Proof.
  induction l as [|x [|y l] IH]; [done| |]; intros _.
  - reflexivity.
  - change (Js.join _ (x :: y :: l))
      with (x +:+ String Js.newline EmptyString
              +:+ Js.join (String Js.newline EmptyString) (y :: l)).
    rewrite !app_assoc_s, IH by done. done.
Qed.

Lemma lines_text_app a b : lines_text (a ++ b) = lines_text a +:+ lines_text b.
Proof.
  induction a as [|x a IH]; [done|]. simpl.
  by rewrite IH, app_assoc_s, app_cons.
Qed.

Lemma split_lines_text ls rest :
  Js.split Js.newline (lines_text ls +:+ rest)
  = concat (map (Js.split Js.newline) ls) ++ Js.split Js.newline rest.
Proof.
  induction ls as [|l ls IH]; [done|]. simpl.
  by rewrite app_assoc_s, app_cons, split_app_sep, IH, app_assoc.
Qed.

Lemma load_line_mono L (ids : gset string) : ids ⊆ load_line L ids.
Proof.
  unfold load_line. destruct (Js.truthy _); [|done].
  destruct (Js.split _ _); set_solver.
Qed.

Lemma fold_load_line_mono ls (ids : gset string) :
  ids ⊆ fold_left (fun acc line => load_line line acc) ls ids.
Proof.
  revert ids. induction ls as [|l ls IH]; intros ids; simpl; [done|].
  etrans; [apply (load_line_mono l)|apply IH].
Qed.

Lemma fold_load_line_elem x L ls (ids : gset string) :
  In L ls -> (forall ids', x ∈ load_line L ids') ->
  x ∈ fold_left (fun acc line => load_line line acc) ls ids.
Proof.
  intros HL Hx. revert ids. induction ls as [|l ls IH]; intros ids; [done|].
  simpl. destruct HL as [->|HL]; [|by apply IH].
  by apply fold_load_line_mono.
Qed.

(** The index holds what the first line of every row after the header
    gives. *)
Lemma load_lines_row x h rows r (ids : gset string) :
  In r rows ->
  (forall ids', x ∈ load_line (hd EmptyString (Js.split Js.newline r)) ids') ->
  x ∈ load_lines (Js.split Js.newline (lines_text (h :: rows))) ids.
Proof.
  intros Hr Hx. unfold load_lines.
  rewrite <- (app_empty_r (lines_text _)), split_lines_text. simpl.
  pose proof (split_nonempty Js.newline h) as Hh.
  destruct (Js.split Js.newline h) as [|h0 hs]; [done|]. simpl.
  apply (fold_load_line_elem x (hd EmptyString (Js.split Js.newline r)));
    [|done].
  rewrite !in_app_iff. left. right. apply in_concat.
  exists (Js.split Js.newline r). split; [by apply in_map|].
  pose proof (split_nonempty Js.newline r).
  destruct (Js.split Js.newline r); [done|]. by left.
Qed.

Lemma has_char_quoted c s :
  Ascii.eqb Js.dquote c = false ->
  Js.has_char c (quoted s) = Js.has_char c s.
Proof.
  intros H. unfold quoted. cbn [Js.has_char]. rewrite H, has_char_app.
  cbn [Js.has_char]. by rewrite H, !orb_false_r.
Qed.

(** A line that starts with a quoted field free of commas and quotes puts
    the field into the index. *)
Lemma load_line_quoted i z (ids : gset string) :
  Js.has_char Js.comma i = false ->
  Js.has_char Js.dquote i = false ->
  load_line (quoted i +:+ String Js.comma (String Js.dquote z)) ids
  = {[ i ]} ∪ ids.
Proof.
  intros Hc Hq. unfold load_line, Js.trim.
  destruct (trimEnd_cons_head Js.dquote z eq_refl) as (t & Ht).
  assert (E : forall y, quoted i +:+ String Js.comma (String Js.dquote y)
                        = (quoted i +:+ String Js.comma EmptyString)
                            +:+ String Js.dquote y)
    by (intros; by rewrite app_assoc_s).
  rewrite E, trimEnd_app by (by rewrite Ht). rewrite Ht, <- E.
  assert (Ets : forall y, Js.trimStart (quoted i +:+ y) = quoted i +:+ y) by done.
  rewrite Ets.
  assert (Etr : forall y, Js.truthy (quoted i +:+ y) = true) by done.
  rewrite Etr.
  pose proof (split_hd_sep Js.comma (quoted i) (String Js.dquote t)) as Hhd.
  rewrite has_char_quoted in Hhd by done. specialize (Hhd Hc).
  pose proof (split_nonempty Js.comma
                (quoted i +:+ String Js.comma (String Js.dquote t))).
  destruct (Js.split Js.comma _) as [|col0 cols]; [done|].
  simpl in Hhd. subst col0. unfold quoted. cbn [Js.remove_all].
  rewrite Ascii.eqb_refl, remove_all_app. cbn [Js.remove_all].
  by rewrite Ascii.eqb_refl, remove_all_absent, app_empty_r.
Qed.

Lemma formatUserToCsvRow_head u :
  exists y, formatUserToCsvRow u
            = quoted (id u) +:+ String Js.comma (String Js.dquote y).
Proof. eexists. reflexivity. Qed.

Lemma clean_id_spec s :
  clean_id s = true ->
  Js.has_char Js.comma s = false /\ Js.has_char Js.dquote s = false
  /\ Js.has_char Js.newline s = false.
Proof.
  unfold clean_id. intros [[H1 H2]%andb_true_iff H3]%andb_true_iff.
  by rewrite !negb_true_iff in *.
Qed.

(** The first line of the row of a clean identifier starts with it. *)
Lemma row_first_line u :
  clean_id (id u) = true ->
  exists z, hd EmptyString (Js.split Js.newline (formatUserToCsvRow u))
            = quoted (id u) +:+ String Js.comma (String Js.dquote z).
Proof.
  intros (_ & _ & Hn)%clean_id_spec.
  destruct (formatUserToCsvRow_head u) as (y & ->).
  exists (hd EmptyString (Js.split Js.newline y)).
  assert (E : forall t, quoted (id u) +:+ String Js.comma (String Js.dquote t)
                        = (quoted (id u) +:+ String Js.comma EmptyString)
                            +:+ String Js.dquote t)
    by (intros; by rewrite app_assoc_s).
  rewrite !E, split_hd_app.
  - by rewrite split_cons_other.
  - rewrite has_char_app, has_char_quoted by done. by rewrite Hn.
Qed.

Lemma load_line_row u (ids : gset string) :
  clean_id (id u) = true ->
  id u ∈ load_line (hd EmptyString (Js.split Js.newline (formatUserToCsvRow u))) ids.
Proof.
  intros Hu. destruct (row_first_line u Hu) as (z & ->).
  destruct (clean_id_spec _ Hu) as (Hc & Hq & _).
  rewrite load_line_quoted by done. set_solver.
Qed.

(** The index rebuilt from a sink holds every clean identifier of it. *)
Lemma loadExistingUserIds_row u h rows cf tf (ids : gset string) :
  clean_id (id u) = true ->
  In (formatUserToCsvRow u) rows ->
  id u ∈ loadExistingUserIds
           {| users_file := Some (lines_text (h :: rows));
              cursor_file := cf; timestamp_file := tf |} ids.
Proof.
  intros Hu Hin. unfold loadExistingUserIds. cbn [users_file].
  apply (load_lines_row (id u) h rows (formatUserToCsvRow u)); [done|].
  intros ids'. by apply load_line_row.
Qed.

(** ** [appendUsersToFile] *)

Section Batch.
Variable ids0 : gset string.
Variable keep : PrivyUser -> Prop.

Lemma batch_step_inv n0 b u :
  keep u -> batch_inv ids0 keep n0 b ->
  batch_inv ids0 keep n0 (batch_step b u) /\ id u ∈ b_ids (batch_step b u)
  /\ b_ids b ⊆ b_ids (batch_step b u).
Proof.
  intros Hk (Hsub & Hrows & Hnd & Hnew). unfold batch_step, batch_inv.
  destruct (decide (id u ∈ b_ids b)) as [Hin|Hin]; simpl.
  - by split_and!.
  - split_and!; try set_solver.
    + apply Forall_app. split.
      * eapply Forall_impl; [exact Hrows|]. simpl. set_solver.
      * constructor; [|done]. set_solver.
    + rewrite map_app. simpl. apply NoDup_app. split_and!; [done| |].
      * intros x Hx ->%list_elem_of_singleton. apply Hin.
        apply list_elem_of_fmap in Hx as (w & -> & Hw).
        rewrite Forall_forall in Hrows. by apply Hrows.
      * apply NoDup_singleton.
    + rewrite length_app. simpl. lia.
Qed.

Lemma fold_batch_step_inv users :
  forall n0 b,
  Forall keep users -> batch_inv ids0 keep n0 b ->
  batch_inv ids0 keep n0 (fold_left batch_step users b)
  /\ b_ids b ⊆ b_ids (fold_left batch_step users b)
  /\ Forall (fun u => id u ∈ b_ids (fold_left batch_step users b)) users.
Proof.
  induction users as [|u users IH]; intros n0 b Hk Hb; simpl; [by split_and!|].
  apply Forall_cons in Hk as [Hu Hk].
  destruct (batch_step_inv n0 b u Hu Hb) as (Hb' & Hin & Hsub).
  destruct (IH n0 (batch_step b u) Hk Hb') as (H1 & H2 & H3).
  split_and!; [done|set_solver|]. constructor; [set_solver|done].
Qed.
End Batch.

Lemma batch_users_spec keep users ids :
  Forall keep users ->
  let b := batch_users users ids in
  ids ⊆ b_ids b
  /\ Forall (fun u => (id u ∉ ids) /\ (id u ∈ b_ids b) /\ keep u) (b_rows b)
  /\ NoDup (map id (b_rows b))
  /\ b_new b = length (b_rows b)
  /\ Forall (fun u => id u ∈ b_ids b) users.
Proof.
  intros Hk b.
  destruct (fold_batch_step_inv ids keep users 0
              {| b_rows := []; b_ids := ids; b_new := 0; b_dup := 0 |} Hk)
    as ((H1 & H2 & H3 & H4) & _ & H5).
  { split_and!; try done; simpl; constructor. }
  by split_and!.
Qed.

(** Users with distinct identifiers that the index does not hold are all
    new. *)
Lemma fold_batch_step_fresh users :
  forall b,
  NoDup (map id users) ->
  Forall (fun u => id u ∉ b_ids b) users ->
  b_rows (fold_left batch_step users b) = b_rows b ++ users
  /\ b_new (fold_left batch_step users b) = b_new b + length users.
Proof.
  induction users as [|u users IH]; intros b Hnd Hf; simpl.
  - by rewrite app_nil_r, Nat.add_0_r.
  - apply NoDup_cons in Hnd as [Hu Hnd]. apply Forall_cons in Hf as [Hub Hf].
    assert (E : batch_step b u
                = {| b_rows := b_rows b ++ [u]; b_ids := {[ id u ]} ∪ b_ids b;
                     b_new := S (b_new b); b_dup := b_dup b |}).
    { unfold batch_step. by destruct (decide _). }
    rewrite E.
    match goal with
    | |- context [fold_left batch_step users ?b'] =>
        destruct (IH b' Hnd) as [-> ->]
    end.
    + simpl. rewrite Forall_forall in Hf. apply Forall_forall.
      intros w Hw. specialize (Hf w Hw).
      assert (id w <> id u).
      { intros Heq. apply Hu. rewrite <- Heq. by apply list_elem_of_fmap_2. }
      set_solver.
    + simpl. rewrite <- app_assoc. split; [done|lia].
Qed.

Lemma appendUsersToFile_batch users isFirstBatch f ids :
  let a := appendUsersToFile users isFirstBatch f ids in
  let b := batch_users users ids in
  a_rows a = b_rows b /\ a_ids a = b_ids b /\ a_newUsers a = b_new b
  /\ cursor_file (a_files a) = cursor_file f
  /\ timestamp_file (a_files a) = timestamp_file f
  /\ match a_text a with
     | Some text => a_files a = appendFileSync text f
     | None => a_files a = f /\ b_rows b = []
     end.
Proof.
  unfold appendUsersToFile. cbv zeta.
  destruct (_ ++ map formatUserToCsvRow _) eqn:E; cbn; [|done].
  split_and!; try done.
  apply app_eq_nil in E as [_ E]. by apply map_eq_nil in E.
Qed.

(** The sink stays the header and the rows of the log when a page is
    appended, provided a header is there or is written now. *)
Lemma appendUsersToFile_sink users isFirstBatch f ids log :
  sink_holds f log ->
  (isFirstBatch = false -> shouldAddHeader f = false) ->
  let a := appendUsersToFile users isFirstBatch f ids in
  sink_holds (a_files a) (log ++ a_rows a)
  /\ shouldAddHeader (a_files a) = false.
Proof.
  intros Hs Hfb. unfold appendUsersToFile. cbv zeta.
  set (b := batch_users users ids).
  unfold sink_holds, shouldAddHeader in *.
  destruct (isFirstBatch && _) eqn:Hhdr.
  - (* the header is written: the sink was missing or empty *)
    apply andb_true_iff in Hhdr as [-> Hadd].
    cbn [app].
    rewrite join_lines by done. cbn.
    destruct (users_file f) as [content|].
    + destruct content; [|done]. destruct Hs as [[_ ->]|Hs]; [|done].
      split; [by right|done].
    + subst log. split; [by right|done].
  - (* no header: the sink has content *)
    cbn [app].
    assert (Hadd : match users_file f with
                   | Some content => negb (Js.truthy content)
                   | None => true
                   end = false).
    { apply andb_false_iff in Hhdr as [->|H]; [by apply Hfb|done]. }
    destruct (users_file f) as [[|c0 content]|] eqn:Hf; try done.
    destruct Hs as [[? _]|Hs]; [done|].
    destruct (map formatUserToCsvRow (b_rows b)) as [|r rs] eqn:Erows.
    + apply map_eq_nil in Erows. cbn. rewrite Hf, Erows, app_nil_r.
      split; [by right|done].
    + rewrite <- Erows, join_lines by (by rewrite Erows). cbn.
      rewrite Hf. cbn. split; [|done].
      right. rewrite Hs, map_app, <- lines_text_app. reflexivity.
Qed.

(** ** The log of a run *)

Lemma sink_holds_users_file f f' log :
  users_file f' = users_file f -> sink_holds f log -> sink_holds f' log.
Proof. unfold sink_holds. by intros ->. Qed.

Lemma processPage_log users c v st log :
  clean_users users ->
  log_inv log v st ->
  let p := processPage users c v st in
  log_inv (log ++ exported (p_events p)) (p_loop p) (p_state p).
Proof.
  intros Hclean (Hs & Hnd & Hcl & Hix & Hfb). unfold processPage.
  destruct users as [|u0 us].
  { cbn. rewrite app_nil_r. unfold log_inv. by split_and!. }
  set (users := u0 :: us) in *.
  pose proof (appendUsersToFile_batch users (isFirstBatch v) (files st)
                (processedUserIds st)) as (Hrows & Hids & _ & _ & _ & Htext).
  pose proof (appendUsersToFile_sink users (isFirstBatch v) (files st)
                (processedUserIds st) log Hs Hfb) as [Hs' Hhdr].
  pose proof (batch_users_spec (fun u => clean_id (id u) = true) users
                (processedUserIds st) Hclean) as (Hsub & Hb & Hbnd & _ & _).
  set (a := appendUsersToFile users (isFirstBatch v) (files st)
              (processedUserIds st)) in *.
  assert (Hexp : exported
            (match a_text a with
             | Some text => [EvAppend text (a_rows a)]
             | None => []
             end ++ [EvSaveCursor (Js.or_empty c)]) = a_rows a).
  { destruct (a_text a); cbn.
    - by rewrite app_nil_r.
    - destruct Htext as [_ E]. by rewrite Hrows, E. }
  cbn [p_events p_loop p_state]. cbn. rewrite Hexp.
  rewrite Forall_forall in Hb.
  split_and!.
  - eapply sink_holds_users_file; [|exact Hs']. done.
  - rewrite map_app. apply NoDup_app. split_and!; [done| |by rewrite Hrows].
    intros x Hx Hx'. rewrite Hrows in Hx'.
    apply list_elem_of_fmap in Hx as (w & -> & Hw).
    apply list_elem_of_fmap in Hx' as (w' & Heq & Hw').
    destruct (Hb w' Hw') as (Hnew & _). apply Hnew. rewrite <- Heq.
    apply Hix. by apply list_elem_of_In.
  - apply Forall_app. split; [done|]. rewrite Hrows. apply Forall_forall.
    intros w Hw. by destruct (Hb w Hw) as (_ & _ & ?).
  - intros w [Hw|Hw]%in_app_iff; rewrite Hids.
    + apply Hsub. by apply Hix.
    + rewrite Hrows in Hw. apply list_elem_of_In in Hw.
      by destruct (Hb w Hw) as (_ & ? & _).
  - intros _. exact Hhdr.
Qed.

Lemma clean_script_serves script :
  clean_script script = true -> serves clean_users script.
Proof.
  intros H status q users Hin Hdata.
  unfold clean_script in H. rewrite forallb_forall in H.
  specialize (H _ Hin). simpl in H. rewrite Hdata in H.
  unfold clean_users. apply List.Forall_forall. intros u Hu.
  rewrite forallb_forall in H. by apply H.
Qed.

(** The loop keeps [log_inv], the log growing by what the turn exported. *)
Lemma page_loop_log random since fuel v st script log :
  serves clean_users script ->
  log_inv log v st ->
  let r := page_loop random since fuel v st script in
  log_inv (log ++ exported (r_events r)) (r_loop r) (r_state r).
Proof.
  intros Hserves Hinv r. revert log Hinv. subst r.
  apply (page_loop_summary random since clean_users
           (fun v st ev v' st' =>
              forall log, log_inv log v st ->
                          log_inv (log ++ exported ev) v' st'));
    [| | | |exact Hserves]; clear; cbv beta.
  - intros v st log H. by rewrite app_nil_r.
  - intros ? ? e1 ? ? e2 ? ? H1 H2 log H.
    rewrite exported_app, app_assoc. by apply H2, H1.
  - intros v st script fr log H.
    destruct (fetchPageOfUsers_events random (Js.or_undefined (cursor v)) since
                (draws st) script) as (tl & E & Htl).
    fold fr in E. rewrite exported_app, E.
    destruct (cooldown_events_readings (totalUsers v)) as (_ & -> & _).
    destruct (fetch_events_readings _ _ Htl) as (_ & Hx & _).
    change (exported (EvFetch _ :: tl)) with (exported tl).
    rewrite Hx, app_nil_r. exact H.
  - intros users c v st Hclean p log H. by apply processPage_log.
Qed.

(** The index rebuilt at the start of a run holds the log of the sink. *)
Lemma loadExistingUserIds_log f log u :
  sink_holds f log -> clean_users log -> In u log ->
  id u ∈ loadExistingUserIds f ∅.
Proof.
  intros Hs Hcl Hu. unfold sink_holds in Hs.
  destruct f as [[content|] cf tf]; cbn in Hs; [|by subst log].
  destruct Hs as [[_ ->]| ->]; [done|].
  apply loadExistingUserIds_row.
  - unfold clean_users in Hcl. rewrite List.Forall_forall in Hcl. by apply Hcl.
  - by apply in_map.
Qed.

Lemma main_loop inv f :
  let since := if FETCH_NEW_ONLY inv then loadLastFetchTimestamp f else None in
  let st := {| files := f; processedUserIds := loadExistingUserIds f ∅;
               draws := 0 |} in
  let v := {| cursor := loadSavedCursor f;
              isFirstBatch := negb (Js.truthy (Js.or_empty (loadSavedCursor f)));
              totalUsers := 0; processedUsers := 0 |} in
  let r := page_loop (random inv) since (S (length (upstream inv))) v st
             (upstream inv) in
  begins inv f = true ->
  exported (x_events (main inv f)) = exported (r_events r)
  /\ cooldowns (x_events (main inv f)) = cooldowns (r_events r)
  /\ users_file (x_files (main inv f)) = users_file (files (r_state r)).
Proof.
  intros since st v r Hb. subst since st v r. rewrite (main_begun inv f Hb).
  unfold main_since, getAllUsers. cbv zeta. cbn [files].
  match goal with
  | |- context [page_loop ?a ?b ?c ?v ?s ?l] => set (r := page_loop a b c v s l)
  end.
  clearbody r.
  destruct (r_result r) as [[]| |] eqn:E; cbn -[exported cooldowns];
    rewrite ?E; cbn -[exported cooldowns]; [|done..].
  rewrite !exported_app, !cooldowns_app.
  change (exported [EvUnlinkCursor]) with (@nil PrivyUser).
  change (exported [EvSaveTimestamp _]) with (@nil PrivyUser).
  change (cooldowns [EvUnlinkCursor]) with 0.
  change (cooldowns [EvSaveTimestamp _]) with 0.
  by rewrite !app_nil_r, !Nat.add_0_r.
Qed.

(** One invocation, from a sink that holds its log. *)
Lemma main_log inv f log :
  sink_holds f log -> NoDup (map id log) -> clean_users log ->
  resumes_into_sink f ->
  clean_script (upstream inv) = true ->
  let log' := log ++ exported (x_events (main inv f)) in
  sink_holds (x_files (main inv f)) log'
  /\ NoDup (map id log') /\ clean_users log'.
Proof.
  intros Hs Hnd Hcl Hres Hscript log'.
  destruct (begins inv f) eqn:Hb; cycle 1.
  { subst log'. rewrite (main_not_begun inv f Hb). cbn [x_events x_files].
    change (exported []) with (@nil PrivyUser). by rewrite app_nil_r. }
  set (since := if FETCH_NEW_ONLY inv then loadLastFetchTimestamp f else None).
  set (st := {| files := f; processedUserIds := loadExistingUserIds f ∅;
                draws := 0 |}).
  set (v := {| cursor := loadSavedCursor f;
               isFirstBatch := negb (Js.truthy (Js.or_empty (loadSavedCursor f)));
               totalUsers := 0; processedUsers := 0 |}).
  assert (Hinv : log_inv log v st).
  { split_and!; try done.
    - intros u Hu. by apply (loadExistingUserIds_log f log).
    - cbn. intros Hfb. apply Hres. by destruct (loadSavedCursor f) as [[|]|]. }
  pose proof (page_loop_log (random inv) since (S (length (upstream inv))) v st
                (upstream inv) log (clean_script_serves _ Hscript) Hinv)
    as (Hs' & Hnd' & Hcl' & _).
  destruct (main_loop inv f Hb) as (Hev & _ & Hf).
  fold since st v in Hev, Hf. subst log'. rewrite Hev.
  split_and!; [|done..]. by eapply sink_holds_users_file.
Qed.

(** The log of a sink holds no identifier twice. *)
Lemma Lifetime_log f log :
  Lifetime f log ->
  sink_holds f log /\ NoDup (map id log) /\ clean_users log.
Proof.
  induction 1 as [f Hf|f log inv _ IH Hres Hscript|f log c t _ IH].
  - split_and!; [|constructor|constructor].
    unfold sink_holds. destruct Hf as [->| ->]; auto.
  - destruct IH as (Hs & Hnd & Hcl). by apply main_log.
  - destruct IH as (Hs & Hnd & Hcl). split_and!; [|done..].
    by eapply sink_holds_users_file.
Qed.

(** ** The fuel of the page loop *)

Lemma fetch_loop_blocked random req script :
  forall retries backoffMs draws,
  let fr := fetch_loop random req retries backoffMs draws script in
  f_result fr = Blocked -> f_rest fr = [].
Proof.
  induction script as [|[status body|message] script IH]; intros; subst fr;
    cbn [fetch_loop] in *; [done|..].
  - destruct (response_ok status); [by destruct body|].
    destruct (Z.eqb status 429); [|done].
    rewrite fetch_emit_rest. rewrite fetch_emit_result in H. by apply IH in H.
  - destruct (Js.includes _ message); [done|].
    destruct (5 <? S retries)%nat; [done|].
    rewrite fetch_emit_rest. rewrite fetch_emit_result in H. by apply IH in H.
Qed.

(** Fuel beyond the length of the script changes nothing. *)
Lemma page_loop_fuel random since fuel :
  forall fuel' v st script,
  length script < fuel -> length script < fuel' ->
  page_loop random since fuel v st script
  = page_loop random since fuel' v st script.
Proof.
  induction fuel as [|fuel IH]; intros fuel' v st script Hf Hf'; [lia|].
  destruct fuel' as [|fuel']; [lia|]. cbn [page_loop].
  pose proof (fetchPageOfUsers_rest_shorter random (Js.or_undefined (cursor v))
                since (draws st) script) as Hshort.
  destruct (f_result (fetchPageOfUsers _ _ _ _ _)) as [q| |] eqn:Hres; [|done..].
  specialize (Hshort q Hres). cbv zeta in Hshort.
  destruct (data q); [|done]. destruct (p_next _); [|done].
  f_equal. apply IH; lia.
Qed.

(** With the fuel of [getAllUsers] the loop is blocked only on a script
    it has read to its end: every other run ends, well or by an error. *)
Lemma page_loop_blocked random since fuel :
  forall v st script,
  length script < fuel ->
  let r := page_loop random since fuel v st script in
  r_result r = Blocked -> r_rest r = [].
Proof.
  induction fuel as [|fuel IH]; intros v st script Hf; [lia|].
  cbn [page_loop].
  pose proof (fetchPageOfUsers_rest_shorter random (Js.or_undefined (cursor v))
                since (draws st) script) as Hshort.
  pose proof (fetch_loop_blocked random
                (build_request (Js.or_undefined (cursor v)) since) script 0
                CONFIG.rateLimit.initialBackoffMs (draws st)) as Hb.
  fold (fetchPageOfUsers random (Js.or_undefined (cursor v)) since (draws st)
          script) in Hb.
  destruct (f_result (fetchPageOfUsers _ _ _ _ _)) as [q| |] eqn:Hres; cbn;
    [|done|by auto].
  specialize (Hshort q Hres). cbv zeta in Hshort.
  destruct (data q); [|done]. destruct (p_next _); [|done].
  apply IH. lia.
Qed.

Lemma getAllUsers_blocked random since st script :
  let r := getAllUsers random since st script in
  r_result r = Blocked -> r_rest r = [].
Proof.
  unfold getAllUsers. cbv zeta.
  match goal with
  | |- context [page_loop ?a ?b ?c ?v ?s ?l] =>
      pose proof (page_loop_blocked a b c v s l ltac:(lia)) as H;
      set (r := page_loop a b c v s l) in *
  end.
  clearbody r. destruct (r_result r) eqn:E; cbn; rewrite ?E; try done; auto.
Qed.

(** ** The end of a pass and the checkpoint *)

Lemma processPage_next users c v st :
  p_next (processPage users c v st) = Stop
  <-> c = None \/ (users = [] /\ c = Some EmptyString).
Proof.
  unfold processPage.
  destruct users as [|u users]; destruct c as [[|a s]|]; simpl; split;
    try done; try (intros _; by auto); try (by intros [?|[??]]).
Qed.

(** One turn of the loop whose fetch returns a page. *)
Lemma page_loop_page random since fuel v st script q users :
  let fr := fetchPageOfUsers random (Js.or_undefined (cursor v)) since
              (draws st) script in
  let p := processPage users (next_cursor q) v (with_draws (f_draws fr) st) in
  f_result fr = Ok q -> data q = Some users ->
  page_loop random since (S fuel) v st script
  = match p_next p with
    | Stop =>
        {| r_result := Ok tt; r_state := p_state p; r_loop := p_loop p;
           r_events := (cooldown_events (totalUsers v) ++ f_events fr)
                       ++ p_events p;
           r_rest := f_rest fr |}
    | Continue =>
        run_emit ((cooldown_events (totalUsers v) ++ f_events fr) ++ p_events p)
          (page_loop random since fuel (p_loop p) (p_state p) (f_rest fr))
    end.
Proof.
  intros fr p Hres Hdata. cbn [page_loop]. fold fr. rewrite Hres, Hdata.
  fold p. by destruct (p_next p).
Qed.

Lemma fetchPageOfUsers_answer random cursor since draws status q rest :
  response_ok status = true ->
  let fr := fetchPageOfUsers random cursor since draws
              (Response status (Json q) :: rest) in
  f_result fr = Ok q /\ f_rest fr = rest /\ f_draws fr = draws
  /\ f_events fr = [EvFetch (build_request cursor since);
                    EvSleep Pacing pacing_delay].
Proof.
  intros Hok. unfold fetchPageOfUsers. cbn [fetch_loop]. by rewrite Hok.
Qed.

(** C6 (as amended).  In every state of the loop, after a 2xx answer with an
    array of records: the pass ends, with no further request, when
    [next_cursor] is null, or when the array is empty and [next_cursor] is
    the empty string; otherwise another request is issued.  In particular an
    empty array with a null [next_cursor] ends the pass of [getAllUsers]
    from any state, first page included, and the cursor file is removed. *)
Theorem page_loop_pass_end random since fuel v st status q users rest :
  response_ok status = true ->
  data q = Some users ->
  let r := page_loop random since (S (S fuel)) v st
             (Response status (Json q) :: rest) in
  let ends := next_cursor q = None
              \/ (users = [] /\ next_cursor q = Some EmptyString) in
  (ends -> r_result r = Ok tt /\ r_rest r = rest
           /\ length (requests (r_events r)) = 1)
  /\ (~ ends -> 1 < length (requests (r_events r)))
  /\ (users = [] -> next_cursor q = None ->
      forall st0 : State,
        let r0 := getAllUsers random since st0
                    (Response status (Json q) :: rest) in
        r_result r0 = Ok tt /\ r_rest r0 = rest
        /\ cursor_file (files (r_state r0)) = None).
Proof.
  intros Hok Hdata r ends.
  assert (Hstep : forall fuel' v' st',
    let p := processPage users (next_cursor q) v' (with_draws (draws st') st') in
    let ev := (cooldown_events (totalUsers v')
               ++ [EvFetch (build_request (Js.or_undefined (cursor v')) since);
                   EvSleep Pacing pacing_delay]) ++ p_events p in
    page_loop random since (S fuel') v' st' (Response status (Json q) :: rest)
    = match p_next p with
      | Stop => {| r_result := Ok tt; r_state := p_state p; r_loop := p_loop p;
                   r_events := ev; r_rest := rest |}
      | Continue =>
          run_emit ev (page_loop random since fuel' (p_loop p) (p_state p) rest)
      end).
  { intros fuel' v' st'.
    destruct (fetchPageOfUsers_answer random (Js.or_undefined (cursor v')) since
                (draws st') status q rest Hok) as (H1 & H2 & H3 & H4).
    rewrite (page_loop_page random since fuel' v' st' _ q users H1 Hdata).
    by rewrite H2, H3, H4. }
  assert (Hreq : forall v' st',
    requests ((cooldown_events (totalUsers v')
               ++ [EvFetch (build_request (Js.or_undefined (cursor v')) since);
                   EvSleep Pacing pacing_delay])
              ++ p_events (processPage users (next_cursor q) v'
                             (with_draws (draws st') st')))
    = [build_request (Js.or_undefined (cursor v')) since]).
  { intros v' st'. rewrite !requests_app, processPage_requests.
    by destruct (cooldown_events_readings (totalUsers v')) as (-> & _). }
  split_and!.
  - intros Hends. subst r. rewrite Hstep.
    rewrite (proj2 (processPage_next users (next_cursor q) _ _) Hends).
    cbn. by rewrite Hreq.
  - intros Hends. subst r. rewrite Hstep.
    destruct (p_next _) eqn:Hn;
      [|exfalso; apply Hends; by apply processPage_next in Hn].
    rewrite run_emit_events, requests_app, Hreq.
    destruct (page_loop_first_request random since fuel
                (p_loop (processPage users (next_cursor q) v
                           (with_draws (draws st) st)))
                (p_state (processPage users (next_cursor q) v
                            (with_draws (draws st) st))) rest) as (tl & ->).
    simpl. lia.
  - intros -> Hnull st0 r0. subst r0. unfold getAllUsers. cbv zeta.
    cbn [length]. rewrite Hstep.
    assert (Hn : forall v' st', p_next (processPage [] (next_cursor q) v' st') = Stop).
    { intros. apply processPage_next. by left. }
    rewrite Hn. by cbn.
Qed.

(** C6, at an empty page with a null cursor in the middle of a pass. *)
Lemma page_loop_pass_end_witness :
  let q := {| data := Some []; next_cursor := None |} in
  let v := {| cursor := Some "c41"; isFirstBatch := false; totalUsers := 7;
              processedUsers := 9 |} in
  let st := {| files := {| users_file := Some "id"; cursor_file := Some "c41";
                           timestamp_file := None |};
               processedUserIds := ∅; draws := 0 |} in
  response_ok 200 = true
  /\ data q = Some []
  /\ let r := page_loop (fun _ => 1 # 2) None 2 v st
                [Response 200 (Json q); rate_limited] in
     let ends := next_cursor q = None
                 \/ (@nil PrivyUser = [] /\ next_cursor q = Some EmptyString) in
     (ends -> r_result r = Ok tt /\ r_rest r = [rate_limited]
              /\ length (requests (r_events r)) = 1)
     /\ (~ ends -> 1 < length (requests (r_events r)))
     /\ (@nil PrivyUser = [] -> next_cursor q = None ->
         forall st0 : State,
           let r0 := getAllUsers (fun _ => 1 # 2) None st0
                       [Response 200 (Json q); rate_limited] in
           r_result r0 = Ok tt /\ r_rest r0 = [rate_limited]
           /\ cursor_file (files (r_state r0)) = None).
Proof.
  intros q v st. split; [reflexivity|]. split; [reflexivity|].
  exact (page_loop_pass_end (fun _ => 1 # 2) None 0 v st 200 q []
           [rate_limited] eq_refl eq_refl).
Defined.

(** C6, counterexample: an empty page whose [next_cursor] is the empty
    string.  The pass ends with one request made and an outcome unread,
    while the cursor is not null. *)
Lemma empty_page_with_empty_cursor_ends_pass :
  let q := {| data := Some []; next_cursor := Some EmptyString |} in
  let more := Response 200 (Json {| data := Some []; next_cursor := None |}) in
  let st := {| files := {| users_file := None; cursor_file := None;
                           timestamp_file := None |};
               processedUserIds := ∅; draws := 0 |} in
  let r := getAllUsers (fun _ => 1 # 2) None st [Response 200 (Json q); more] in
  r_result r = Ok tt
  /\ cursor (r_loop r) = Some EmptyString
  /\ cursor (r_loop r) <> None
  /\ r_rest r = [more]
  /\ length (requests (r_events r)) = 1.
Proof. by vm_compute. Qed.

Lemma main_run inv f :
  let since := if FETCH_NEW_ONLY inv then loadLastFetchTimestamp f else None in
  let st := {| files := f; processedUserIds := loadExistingUserIds f ∅;
               draws := 0 |} in
  let v := {| cursor := loadSavedCursor f;
              isFirstBatch := negb (Js.truthy (Js.or_empty (loadSavedCursor f)));
              totalUsers := 0; processedUsers := 0 |} in
  let r := page_loop (random inv) since (S (length (upstream inv))) v st
             (upstream inv) in
  begins inv f = true ->
  x_result (main inv f) <> Ok tt ->
  x_files (main inv f) = files (r_state r)
  /\ x_events (main inv f) = r_events r.
Proof.
  intros since st v r Hb. subst since st v r. rewrite (main_begun inv f Hb).
  unfold main_since, getAllUsers. cbv zeta. cbn [files].
  match goal with
  | |- context [page_loop ?a ?b ?c ?v ?s ?l] => set (r := page_loop a b c v s l)
  end.
  clearbody r. destruct (r_result r) as [[]| |] eqn:E; cbn; rewrite ?E; cbn; done.
Qed.

(** ** Runs on fresh records *)

Lemma fold_batch_step_ids users :
  forall b,
  b_ids (fold_left batch_step users b)
  = b_ids b ∪ list_to_set (map id users).
Proof.
  induction users as [|u users IH]; intros b; simpl; [set_solver|].
  rewrite IH. unfold batch_step.
  destruct (decide (id u ∈ b_ids b)); simpl; set_solver.
Qed.

Lemma processPage_exported users c v st :
  let p := processPage users c v st in
  let a := appendUsersToFile users (isFirstBatch v) (files st)
             (processedUserIds st) in
  exported (p_events p) = match users with [] => [] | _ => a_rows a end
  /\ cooldowns (p_events p) = 0
  /\ processedUserIds (p_state p)
     = match users with [] => processedUserIds st | _ => a_ids a end
  /\ totalUsers (p_loop p)
     = match users with [] => totalUsers v | _ => totalUsers v + a_newUsers a end
  /\ draws (p_state p) = draws st.
Proof.
  unfold processPage. destruct users as [|u0 us]; [by cbn|].
  set (users := u0 :: us).
  pose proof (appendUsersToFile_batch users (isFirstBatch v) (files st)
                (processedUserIds st)) as (Hrows & _ & _ & _ & _ & Htext).
  set (a := appendUsersToFile users (isFirstBatch v) (files st)
              (processedUserIds st)) in *.
  cbn -[exported cooldowns]. rewrite exported_app, cooldowns_app.
  destruct (a_text a); cbn.
  - rewrite !app_nil_r. by split_and!.
  - destruct Htext as [_ E]. rewrite Hrows, E. by split_and!.
Qed.

Lemma processPage_fresh users c v st :
  NoDup (map id users) ->
  Forall (fun u => id u ∉ processedUserIds st) users ->
  let p := processPage users c v st in
  exported (p_events p) = users
  /\ cooldowns (p_events p) = 0
  /\ processedUserIds (p_state p)
     = processedUserIds st ∪ list_to_set (map id users)
  /\ totalUsers (p_loop p) = totalUsers v + length users
  /\ draws (p_state p) = draws st.
Proof.
  intros Hnd Hfresh p.
  destruct (processPage_exported users c v st) as (He & Hc & Hi & Ht & Hd).
  fold p in He, Hc, Hi, Ht, Hd.
  destruct users as [|u0 us]; [split_and!; try done; set_solver|].
  set (users := u0 :: us) in *.
  destruct (appendUsersToFile_batch users (isFirstBatch v) (files st)
              (processedUserIds st)) as (Hrows & Hids & Hnew & _).
  destruct (fold_batch_step_fresh users
              {| b_rows := []; b_ids := processedUserIds st;
                 b_new := 0; b_dup := 0 |} Hnd Hfresh) as [Hr Hn].
  fold (batch_users users (processedUserIds st)) in Hr, Hn.
  rewrite He, Hi, Ht, Hrows, Hids, Hnew, Hr, Hn.
  unfold batch_users. rewrite fold_batch_step_ids. by split_and!.
Qed.

Lemma page_loop_answer random since fuel v st status q users rest :
  response_ok status = true -> data q = Some users ->
  let p := processPage users (next_cursor q) v st in
  let ev := (cooldown_events (totalUsers v)
             ++ [EvFetch (build_request (Js.or_undefined (cursor v)) since);
                 EvSleep Pacing pacing_delay]) ++ p_events p in
  page_loop random since (S fuel) v st (Response status (Json q) :: rest)
  = match p_next p with
    | Stop => {| r_result := Ok tt; r_state := p_state p; r_loop := p_loop p;
                 r_events := ev; r_rest := rest |}
    | Continue =>
        run_emit ev (page_loop random since fuel (p_loop p) (p_state p) rest)
    end.
Proof.
  intros Hok Hdata.
  destruct (fetchPageOfUsers_answer random (Js.or_undefined (cursor v)) since
              (draws st) status q rest Hok) as (H1 & H2 & H3 & H4).
  rewrite (page_loop_page random since fuel v st _ q users H1 Hdata).
  rewrite H2, H3, H4. by destruct st.
Qed.

Lemma sample_user_id_inj : Inj (=) (=) (fun n => id (sample_user n)).
Proof. intros n m H. simpl in H. by apply String.app_inj, (inj pretty) in H. Qed.

Lemma sample_users_NoDup from n :
  NoDup (map id (map sample_user (seq from n))).
Proof.
  rewrite map_map.
  pose proof sample_user_id_inj as Hinj.
  apply (NoDup_fmap_2 (fun k => id (sample_user k))), NoDup_seq.
Qed.

Lemma sample_users_fresh from n ids :
  index_below from ids ->
  Forall (fun u => id u ∉ ids) (map sample_user (seq from n)).
Proof.
  intros Hb. apply Forall_forall. intros u Hu Hin.
  apply list_elem_of_fmap in Hu as (k & -> & Hk).
  apply elem_of_seq in Hk. destruct (Hb _ Hin) as (k' & Hk' & E).
  apply sample_user_id_inj in E. lia.
Qed.

(** The loop on a script of fresh pages: it ends well, exports every record
    and cools down once for each turn that starts on a positive multiple of
    the batch size. *)
Lemma page_loop_sample random since sizes :
  forall from fuel v st,
  sizes <> [] -> length sizes <= fuel ->
  index_below from (processedUserIds st) ->
  let r := page_loop random since fuel v st (sample_script from sizes) in
  r_result r = Ok tt
  /\ length (exported (r_events r)) = list_sum sizes
  /\ cooldowns (r_events r) = cooldown_turns (totalUsers v) sizes
  /\ length (requests (r_events r)) = length sizes.
Proof.
  induction sizes as [|n sizes IH]; intros from fuel v st Hne Hfuel Hix; [done|].
  destruct fuel as [|fuel]; [simpl in Hfuel; lia|].
  set (users := map sample_user (seq from n)).
  assert (Hstep : forall next rest,
    page_loop random since (S fuel) v st (sample_page from n next :: rest)
    = match p_next (processPage users next v st) with
      | Stop => {| r_result := Ok tt;
                   r_state := p_state (processPage users next v st);
                   r_loop := p_loop (processPage users next v st);
                   r_events := (cooldown_events (totalUsers v)
                     ++ [EvFetch (build_request (Js.or_undefined (cursor v)) since);
                         EvSleep Pacing pacing_delay])
                     ++ p_events (processPage users next v st);
                   r_rest := rest |}
      | Continue =>
          run_emit ((cooldown_events (totalUsers v)
                     ++ [EvFetch (build_request (Js.or_undefined (cursor v)) since);
                         EvSleep Pacing pacing_delay])
                     ++ p_events (processPage users next v st))
            (page_loop random since fuel
               (p_loop (processPage users next v st))
               (p_state (processPage users next v st)) rest)
      end).
  { intros next rest. unfold sample_page.
    by rewrite (page_loop_answer random since fuel v st 200 _ users rest). }
  assert (Hp : forall next,
    let p := processPage users next v st in
    exported (p_events p) = users /\ cooldowns (p_events p) = 0
    /\ processedUserIds (p_state p)
       = processedUserIds st ∪ list_to_set (map id users)
    /\ totalUsers (p_loop p) = totalUsers v + length users
    /\ draws (p_state p) = draws st).
  { intros next. apply processPage_fresh.
    - apply sample_users_NoDup.
    - by apply sample_users_fresh. }
  assert (Hlen : length users = n) by (subst users; by rewrite length_map, length_seq).
  assert (Hturn : forall next,
    length (exported ((cooldown_events (totalUsers v)
       ++ [EvFetch (build_request (Js.or_undefined (cursor v)) since);
           EvSleep Pacing pacing_delay])
       ++ p_events (processPage users next v st))) = n
    /\ cooldowns ((cooldown_events (totalUsers v)
       ++ [EvFetch (build_request (Js.or_undefined (cursor v)) since);
           EvSleep Pacing pacing_delay])
       ++ p_events (processPage users next v st))
       = (if cooldown_due (totalUsers v) then 1 else 0)
    /\ length (requests ((cooldown_events (totalUsers v)
       ++ [EvFetch (build_request (Js.or_undefined (cursor v)) since);
           EvSleep Pacing pacing_delay])
       ++ p_events (processPage users next v st))) = 1).
  { intros next. destruct (Hp next) as (He & Hc & _).
    rewrite !exported_app, !cooldowns_app, !requests_app, He, Hc,
      processPage_requests.
    destruct (cooldown_events_readings (totalUsers v)) as (-> & -> & _).
    unfold cooldown_events.
    destruct (cooldown_due (totalUsers v)); cbn; repeat case_decide;
      try discriminate; try congruence; cbn; lia. }
  destruct sizes as [|m sizes].
  - (* the last page *)
    cbn [sample_script]. cbv zeta. rewrite Hstep.
    rewrite (proj2 (processPage_next users None v st) (or_introl eq_refl)).
    cbn [r_result r_events]. destruct (Hturn None) as (H1 & H2 & H3).
    rewrite H1, H2, H3. cbn. split_and!; try done; lia.
  - (* a page with a next cursor *)
    change (sample_script from (n :: m :: sizes))
      with (sample_page from n (Some ("c" +:+ pretty (from + n)))
              :: sample_script (from + n) (m :: sizes)).
    cbv zeta. rewrite Hstep.
    destruct (p_next _) eqn:Hnext.
    2:{ apply processPage_next in Hnext as [?|[_ ?]]; done. }
    destruct (Hp (Some ("c" +:+ pretty (from + n)))) as (_ & _ & Hids & Htot & _).
    destruct (Hturn (Some ("c" +:+ pretty (from + n)))) as (H1 & H2 & H3).
    destruct (IH (from + n) fuel
                (p_loop (processPage users (Some ("c" +:+ pretty (from + n))) v st))
                (p_state (processPage users (Some ("c" +:+ pretty (from + n))) v st)))
      as (R1 & R2 & R3 & R4); [done|simpl in *; lia| |].
    { rewrite Hids. intros x [Hx|Hx]%elem_of_union.
      - destruct (Hix x Hx) as (k & ? & ?). exists k. split; [lia|done].
      - apply elem_of_list_to_set, list_elem_of_fmap in Hx as (u & -> & Hu).
        apply list_elem_of_fmap in Hu as (k & -> & Hk).
        apply elem_of_seq in Hk. exists k. split; [lia|done]. }
    rewrite run_emit_events, exported_app, cooldowns_app, requests_app,
      !length_app, H1, H2, H3, R2, R3, R4, Htot, Hlen.
    split_and!; try done; cbn [list_sum cooldown_turns foldr]; simpl; lia.
Qed.

Lemma sample_script_length sizes :
  forall from, length (sample_script from sizes) = length sizes.
Proof.
  induction sizes as [|n sizes IH]; intros from; [done|].
  destruct sizes as [|m sizes]; [done|].
  change (sample_script from (n :: m :: sizes))
    with (sample_page from n (Some ("c" +:+ pretty (from + n)))
            :: sample_script (from + n) (m :: sizes)).
  cbn [length]. by rewrite IH.
Qed.

(** An invocation on a missing sink against fresh pages. *)
Lemma main_sample inv sizes :
  sizes <> [] -> upstream inv = sample_script 0 sizes ->
  let x := main inv no_files in
  x_result x = Ok tt
  /\ length (exported (x_events x)) = list_sum sizes
  /\ cooldowns (x_events x) = cooldown_turns 0 sizes.
Proof.
  intros Hne Hup x.
  assert (Hb : begins inv no_files = true).
  { apply begins_without_watermark. unfold main_since.
    by destruct (FETCH_NEW_ONLY inv). }
  destruct (main_files inv no_files Hb) as [Hres _].
  destruct (main_loop inv no_files Hb) as (Hev & Hcd & _).
  fold x in Hres, Hev, Hcd. rewrite Hres, Hev, Hcd, Hup.
  pose proof (sample_script_length sizes 0) as Hlen.
  match goal with
  | |- context [page_loop ?a ?b ?c ?v ?s ?l] =>
      destruct (page_loop_sample a b sizes 0 c v s) as (H1 & H2 & H3 & _)
  end; try done.
  rewrite Hlen. lia.
Qed.

(** C7, evaluation.  Pages of 1000, 1000, 1000 and 0 new records: the run
    completes, 3000 records are exported and no cooldown is slept, although
    the count of new records passed 2500. *)
Theorem cooldown_skipped_past_batch_size :
  let inv := {| FETCH_NEW_ONLY := false; now := 1700000000000; now_time_value := I;
                random := fun _ => 1 # 2;
                upstream := sample_script 0 [1000; 1000; 1000; 0] |} in
  let x := main inv no_files in
  x_result x = Ok tt
  /\ length (exported (x_events x)) = 3000
  /\ cooldowns (x_events x) = 0.
Proof.
  intros inv x.
  destruct (main_sample inv [1000; 1000; 1000; 0] ltac:(done) eq_refl)
    as (H1 & H2 & H3).
  fold x in H1, H2, H3. rewrite H1, H2, H3. clear.
  vm_compute. split_and!; reflexivity.
Qed.

(** Pages of 2500, 0 and 0 new records: the cooldown is slept twice for one
    multiple of the batch size. *)
Lemma cooldown_repeated_on_a_multiple :
  let inv := {| FETCH_NEW_ONLY := false; now := 1700000000000; now_time_value := I;
                random := fun _ => 1 # 2;
                upstream := sample_script 0 [2500; 0; 0] |} in
  let x := main inv no_files in
  x_result x = Ok tt
  /\ length (exported (x_events x)) = 2500
  /\ cooldowns (x_events x) = 2.
Proof.
  intros inv x.
  destruct (main_sample inv [2500; 0; 0] ltac:(done) eq_refl)
    as (H1 & H2 & H3).
  fold x in H1, H2, H3. rewrite H1, H2, H3. clear.
  vm_compute. split_and!; reflexivity.
Qed.

(** ** The sink over its lifetime *)

(** C1 (as amended).  Over the lifetime of a sink that starts missing or
    empty, where every run that resumes from a saved cursor finds a sink with
    content and the upstream serves identifiers free of comma, double quote
    and line feed: the records appended by the runs, in order, have pairwise
    distinct identifiers, and the sink is the header line followed by the
    rows of exactly these records. *)
Theorem no_duplicate_over_lifetime f log :
  Lifetime f log -> NoDup (map id log) /\ sink_holds f log.
Proof. intros H. by destruct (Lifetime_log f log H) as (? & ? & _). Qed.

(** C1, at a fresh run of two pages and an incremental run whose page
    overlaps them. *)
Lemma no_duplicate_over_lifetime_witness :
  let user i := {| id := i; created_at := 100; is_guest := false;
                   linked_accounts := [] |} in
  let inv1 := {| FETCH_NEW_ONLY := false; now := 5000; now_time_value := I;
                 random := fun _ => 1 # 2;
                 upstream :=
                   [Response 200 (Json {| data := Some [user "a"];
                                          next_cursor := Some "c1" |});
                    Response 200 (Json {| data := Some [user "b"];
                                          next_cursor := None |})] |} in
  let inv2 := {| FETCH_NEW_ONLY := true; now := 9000; now_time_value := I;
                 random := fun _ => 1 # 2;
                 upstream :=
                   [Response 200 (Json {| data := Some [user "a"; user "b";
                                                        user "c"];
                                          next_cursor := None |})] |} in
  let f1 := x_files (main inv1 no_files) in
  let f2 := x_files (main inv2 f1) in
  let log := ([] ++ exported (x_events (main inv1 no_files)))
             ++ exported (x_events (main inv2 f1)) in
  Lifetime f2 log
  /\ map id log = ["a"; "b"; "c"]
  /\ NoDup (map id log) /\ sink_holds f2 log.
Proof.
  intros user inv1 inv2 f1 f2 log.
  assert (HL : Lifetime f2 log).
  { apply lifetime_run; [apply lifetime_run; [apply lifetime_start; by left| |]| |].
    - intros H. by vm_compute.
    - by vm_compute.
    - intros H. by vm_compute.
    - by vm_compute. }
  split; [exact HL|]. split; [by vm_compute|].
  exact (no_duplicate_over_lifetime f2 log HL).
Defined.

(** C1, counterexample: an identifier with a comma.  The index rebuilt by
    the second run holds the text before the comma, and the record is
    appended again. *)
Lemma comma_id_exported_twice :
  let u := {| id := "a,b"; created_at := 100; is_guest := false;
              linked_accounts := [] |} in
  let inv := {| FETCH_NEW_ONLY := false; now := 5000; now_time_value := I;
                random := fun _ => 1 # 2;
                upstream := [Response 200 (Json {| data := Some [u];
                                                   next_cursor := None |})] |} in
  let x1 := main inv no_files in
  let x2 := main inv (x_files x1) in
  x_result x1 = Ok tt /\ x_result x2 = Ok tt
  /\ elements (loadExistingUserIds (x_files x1) ∅) = ["a"]
  /\ map id (exported (x_events x1) ++ exported (x_events x2)) = ["a,b"; "a,b"]
  /\ ~ NoDup (map id (exported (x_events x1) ++ exported (x_events x2))).
Proof.
  split_and!; [by vm_compute..|].
  intros H. vm_compute in H. apply NoDup_cons in H as [H _].
  apply H. by left.
Qed.

(** A run that resumes from a saved cursor into a missing sink writes rows
    without a header; the next run skips the first of them when it rebuilds
    the index. *)
Lemma headerless_sink_exported_twice :
  let u := {| id := "a"; created_at := 100; is_guest := false;
              linked_accounts := [] |} in
  let inv := {| FETCH_NEW_ONLY := false; now := 5000; now_time_value := I;
                random := fun _ => 1 # 2;
                upstream := [Response 200 (Json {| data := Some [u];
                                                   next_cursor := None |})] |} in
  let f0 := {| users_file := None; cursor_file := Some "c1";
               timestamp_file := None |} in
  let x1 := main inv f0 in
  let x2 := main inv (x_files x1) in
  ~ resumes_into_sink f0
  /\ loadExistingUserIds (x_files x1) ∅ = ∅
  /\ map id (exported (x_events x1) ++ exported (x_events x2)) = ["a"; "a"].
Proof.
  split_and!; [|by vm_compute..].
  intros H. specialize (H ltac:(by vm_compute)). by vm_compute in H.
Qed.

(** ** A row read back *)

Lemma row_first_field u :
  Js.has_char Js.comma (id u) = false ->
  Js.has_char Js.dquote (id u) = false ->
  Js.remove_all Js.dquote
    (hd EmptyString (Js.split Js.comma (formatUserToCsvRow u)))
  = id u.
Proof.
  intros Hc Hq. destruct (formatUserToCsvRow_head u) as (y & ->).
  rewrite split_hd_sep by (by rewrite has_char_quoted).
  unfold quoted. cbn [Js.remove_all]. rewrite Ascii.eqb_refl, remove_all_app.
  cbn [Js.remove_all]. by rewrite Ascii.eqb_refl, remove_all_absent, app_empty_r.
Qed.

(** A record whose identifier the index holds is never exported. *)
Lemma page_loop_known random since fuel v st script x :
  x ∈ processedUserIds st ->
  let r := page_loop random since fuel v st script in
  x ∈ processedUserIds (r_state r)
  /\ Forall (fun u => id u <> x) (exported (r_events r)).
Proof.
  intros Hx r. revert Hx. subst r.
  apply (page_loop_summary random since (fun _ => True)
           (fun v st ev v' st' =>
              x ∈ processedUserIds st ->
              x ∈ processedUserIds st'
              /\ Forall (fun u => id u <> x) (exported ev)));
    [| | | |done]; clear; cbv beta.
  - intros v st H. by split.
  - intros ? ? e1 ? ? e2 ? ? H1 H2 H. destruct (H1 H) as [H' F1].
    destruct (H2 H') as [H'' F2]. split; [done|].
    rewrite exported_app. by apply Forall_app.
  - intros v st script fr H.
    destruct (fetchPageOfUsers_events random (Js.or_undefined (cursor v)) since
                (draws st) script) as (tl & E & Htl).
    fold fr in E. rewrite exported_app, E.
    destruct (cooldown_events_readings (totalUsers v)) as (_ & -> & _).
    destruct (fetch_events_readings _ _ Htl) as (_ & Hx & _).
    change (exported (EvFetch _ :: tl)) with (exported tl).
    rewrite Hx. by split.
  - intros users c v st _ p H.
    destruct (processPage_exported users c v st) as (He & _ & Hi & _).
    fold p in He, Hi. rewrite He, Hi. destruct users as [|u0 us]; [by split|].
    destruct (appendUsersToFile_batch (u0 :: us) (isFirstBatch v) (files st)
                (processedUserIds st)) as (-> & -> & _).
    destruct (batch_users_spec (fun _ => True) (u0 :: us) (processedUserIds st))
      as (Hsub & Hrows & _); [by apply Forall_true|].
    split; [by apply Hsub|].
    eapply Forall_impl; [exact Hrows|]. simpl. intros u (Hn & _) Heq.
    apply Hn. by rewrite Heq.
Qed.

(** C10 (as amended).  For a user whose identifier holds no comma, no double
    quote and no line feed: the index rebuilt from a sink made of the header
    line and of rows among which is the row of the user holds the
    identifier, which is the first comma-separated field of the row with the
    double quotes removed; and no invocation on that sink appends a record
    of this identifier. *)
Theorem reloaded_row_is_duplicate u rows1 rows2 cf tf :
  clean_id (id u) = true ->
  let f := {| users_file :=
                Some (lines_text (HEADER :: rows1 ++ formatUserToCsvRow u :: rows2));
              cursor_file := cf; timestamp_file := tf |} in
  id u ∈ loadExistingUserIds f ∅
  /\ Js.remove_all Js.dquote
       (hd EmptyString (Js.split Js.comma (formatUserToCsvRow u))) = id u
  /\ forall inv,
       Forall (fun r => id r <> id u) (exported (x_events (main inv f))).
Proof.
  intros Hu f.
  assert (Hin : id u ∈ loadExistingUserIds f ∅).
  { apply loadExistingUserIds_row; [done|]. apply in_app_iff. right. by left. }
  destruct (clean_id_spec _ Hu) as (Hc & Hq & _).
  split_and!; [done|by apply row_first_field|].
  intros inv. destruct (begins inv f) eqn:Hb;
    [|rewrite (main_not_begun inv f Hb); by constructor].
  destruct (main_loop inv f Hb) as (-> & _).
  by apply page_loop_known.
Qed.

(** C10, at a sink that holds the row of one user. *)
Lemma reloaded_row_is_duplicate_witness :
  let u := {| id := "did:privy:cm1"; created_at := 1700000000; is_guest := false;
              linked_accounts :=
                [ {| type := "email"; address := Some "x@y.z";
                     verified_at := None |} ] |} in
  let f := {| users_file :=
                Some (lines_text (HEADER :: [] ++ formatUserToCsvRow u :: []));
              cursor_file := None; timestamp_file := None |} in
  clean_id (id u) = true
  /\ id u ∈ loadExistingUserIds f ∅
  /\ Js.remove_all Js.dquote
       (hd EmptyString (Js.split Js.comma (formatUserToCsvRow u))) = id u
  /\ forall inv,
       Forall (fun r => id r <> id u) (exported (x_events (main inv f))).
Proof.
  intros u f. split; [reflexivity|].
  exact (reloaded_row_is_duplicate u [] [] None None eq_refl).
Defined.

(** C10, counterexample: an identifier with a line feed, and neither comma
    nor double quote.  The index rebuilt from the sink does not hold it, and
    the record is appended again. *)
Lemma line_feed_id_not_reloaded :
  let u := {| id := String "a" (String Js.newline "b"); created_at := 100;
              is_guest := false; linked_accounts := [] |} in
  let f := {| users_file := Some (lines_text [HEADER; formatUserToCsvRow u]);
              cursor_file := None; timestamp_file := None |} in
  let inv := {| FETCH_NEW_ONLY := false; now := 5000; now_time_value := I;
                random := fun _ => 1 # 2;
                upstream := [Response 200 (Json {| data := Some [u];
                                                   next_cursor := None |})] |} in
  Js.has_char Js.comma (id u) = false
  /\ Js.has_char Js.dquote (id u) = false
  /\ (id u ∉ loadExistingUserIds f ∅)
  /\ exported (x_events (main inv f)) = [u].
Proof.
  split_and!; [by vm_compute..| |by vm_compute].
  intros H. by vm_compute in H.
Qed.

(** * Further properties of the script *)

(** ** Rows, column by column *)

Lemma split_absent sep s : Js.has_char sep s = false -> Js.split sep s = [s].
Proof.
  induction s as [|c s IH]; simpl; [done|].
  intros [Hc Hs]%orb_false_elim. by rewrite Hc, (IH Hs).
Qed.

Lemma join_cons2 sep x y l :
  Js.join sep (x :: y :: l) = x +:+ sep +:+ Js.join sep (y :: l).
Proof. reflexivity. Qed.

Lemma split_join sep l :
  l <> [] -> Forall (fun s => Js.has_char sep s = false) l ->
  Js.split sep (Js.join (String sep EmptyString) l) = l.
Proof.
  induction l as [|x l IH]; [done|]. intros _ Hl.
  apply Forall_cons in Hl as [Hx Hl].
  destruct l as [|y l]; [by apply split_absent|].
  rewrite join_cons2. rewrite app_cons, app_empty_l.
  rewrite split_app_sep, (split_absent _ _ Hx), IH by done. done.
Qed.

Lemma has_char_cons c a s :
  Js.has_char c (String a s) = Ascii.eqb a c || Js.has_char c s.
Proof. reflexivity. Qed.

Lemma has_char_join c sep l :
  Ascii.eqb sep c = false ->
  Forall (fun s => Js.has_char c s = false) l ->
  Js.has_char c (Js.join (String sep EmptyString) l) = false.
Proof.
  intros Hsep. induction l as [|x l IH]; [done|]. intros Hl.
  apply Forall_cons in Hl as [Hx Hl].
  destruct l as [|y l]; [done|].
  rewrite join_cons2, app_cons, app_empty_l, has_char_app, has_char_cons.
  by rewrite Hx, Hsep, IH.
Qed.

Lemma remove_all_quoted s :
  Js.has_char Js.dquote s = false -> Js.remove_all Js.dquote (quoted s) = s.
Proof.
  intros Hs. unfold quoted. simpl. rewrite remove_all_app.
  rewrite (remove_all_absent _ _ Hs). simpl. apply app_empty_r.
Qed.

Lemma plain_spec s :
  plain s = true
  <-> Js.has_char Js.comma s = false /\ Js.has_char Js.dquote s = false.
Proof.
  unfold plain. rewrite andb_true_iff, !negb_true_iff. done.
Qed.

Lemma toString_has_char n c :
  Js.is_digit c = false -> c <> "-"%char -> Js.has_char c (Js.toString n) = false.
Proof.
  intros Hd Hm. destruct (Js.has_char c (Js.toString n)) eqn:E; [|done].
  apply toString_chars in E as [E| ->]; congruence.
Qed.

(** The six values [formatUserToCsvRow] prints, before the quotes. *)
Lemma formatUserToCsvRow_join u :
  formatUserToCsvRow u
  = Js.join ","
      (map quoted
         [ id u;
           (if Z.eqb (created_at u) 0 then EmptyString
            else Js.toString (created_at u));
           (if is_guest u then "true" else "false");
           email_of u; wallet_of u;
           Js.toString (Z.of_nat (length (linked_accounts u))) ]).
Proof. reflexivity. Qed.

Lemma printed_values_have_not c u :
  c <> Js.dquote -> Js.is_digit c = false -> c <> "-"%char ->
  Js.has_char c "true" = false -> Js.has_char c "false" = false ->
  Js.has_char c (id u) = false ->
  Js.has_char c (email_of u) = false ->
  Js.has_char c (wallet_of u) = false ->
  Forall (fun s => Js.has_char c s = false)
    (map quoted
       [ id u;
         (if Z.eqb (created_at u) 0 then EmptyString
          else Js.toString (created_at u));
         (if is_guest u then "true" else "false");
         email_of u; wallet_of u;
         Js.toString (Z.of_nat (length (linked_accounts u))) ]).
Proof.
  intros Hq Hd Hm Ht Hf Hi He Hw.
  assert (Hqc : Ascii.eqb Js.dquote c = false).
  { apply Ascii.eqb_neq. congruence. }
  cbn [map].
  repeat (apply Forall_cons; split); try (by apply Forall_nil);
    rewrite has_char_quoted by done; try done.
  - destruct (Z.eqb _ _); [done|]. by apply toString_has_char.
  - by destruct (is_guest u).
  - by apply toString_has_char.
Qed.

Lemma row_has_not c u :
  c <> Js.dquote -> c <> Js.comma -> Js.is_digit c = false -> c <> "-"%char ->
  Js.has_char c "true" = false -> Js.has_char c "false" = false ->
  Js.has_char c (id u) = false ->
  Js.has_char c (email_of u) = false ->
  Js.has_char c (wallet_of u) = false ->
  Js.has_char c (formatUserToCsvRow u) = false.
Proof.
  intros Hq Hc Hd Hm Ht Hf Hi He Hw. rewrite formatUserToCsvRow_join.
  apply has_char_join.
  - apply Ascii.eqb_neq. intros E. apply Hc. by rewrite <- E.
  - by apply printed_values_have_not.
Qed.

Lemma row_fields u :
  plain (id u) = true -> plain (email_of u) = true ->
  plain (wallet_of u) = true ->
  csv_fields (formatUserToCsvRow u)
  = [ id u;
      (if Z.eqb (created_at u) 0 then EmptyString
       else Js.toString (created_at u));
      (if is_guest u then "true" else "false");
      email_of u; wallet_of u;
      Js.toString (Z.of_nat (length (linked_accounts u))) ].
Proof.
  intros [Hi Hi']%plain_spec [He He']%plain_spec [Hw Hw']%plain_spec.
  unfold csv_fields. rewrite formatUserToCsvRow_join.
  change "," with (String Js.comma EmptyString).
  rewrite split_join; [|done|by apply printed_values_have_not].
  cbn [map]. rewrite !remove_all_quoted; try done.
  - by apply toString_has_char.
  - by destruct (is_guest u).
  - destruct (Z.eqb _ _); [done|]. by apply toString_has_char.
Qed.

(** X1.  A row gives back what it was made of: for a record whose
    identifier and two addresses hold no comma and no double quote, the row
    of [formatUserToCsvRow] cut at its commas, the quotes removed, is the six
    values in order: the identifier, [created_at] (empty at 0), [is_guest],
    the e-mail address, the wallet address, the number of linked accounts. *)
Theorem formatUserToCsvRow_fields u :
  plain (id u) = true -> plain (email_of u) = true ->
  plain (wallet_of u) = true ->
  csv_fields (formatUserToCsvRow u)
  = [ id u;
      (if Z.eqb (created_at u) 0 then EmptyString
       else Js.toString (created_at u));
      (if is_guest u then "true" else "false");
      email_of u; wallet_of u;
      Js.toString (Z.of_nat (length (linked_accounts u))) ].
Proof. apply row_fields. Qed.

Lemma formatUserToCsvRow_fields_witness :
  let u := {| id := "did:privy:cm1"; created_at := 0; is_guest := true;
              linked_accounts :=
                [ {| type := "wallet"; address := Some "0xAb5801a7";
                     verified_at := Some 1700000001%Z |};
                  {| type := "email"; address := Some "x@y.z";
                     verified_at := None |} ] |} in
  csv_fields (formatUserToCsvRow u)
  = ["did:privy:cm1"; ""; "true"; "x@y.z"; "0xAb5801a7"; "2"].
Proof. intros u. by apply (formatUserToCsvRow_fields u). Defined.

(** ** The account a column shows *)

Lemma find_account_first ty pre a post :
  Forall (fun acc => type acc <> ty) pre -> type a = ty ->
  find_account ty (pre ++ a :: post) = Some a.
Proof.
  intros Hpre Ha. unfold find_account.
  induction pre as [|b pre IH]; simpl.
  - by rewrite Ha, String.eqb_refl.
  - apply Forall_cons in Hpre as [Hb Hpre].
    apply String.eqb_neq in Hb. rewrite Hb. by apply IH.
Qed.

Lemma find_account_none ty accs :
  Forall (fun acc => type acc <> ty) accs -> find_account ty accs = None.
Proof.
  unfold find_account. induction 1 as [|b accs Hb _ IH]; simpl; [done|].
  apply String.eqb_neq in Hb. by rewrite Hb.
Qed.

(** X2.  The e-mail column shows the first linked account of type "email"
    (the wallet column the first of type "wallet"), whatever follows it: its
    address, or nothing when that account has no address or an empty one (a
    later account of the type is not looked at); with no account of the type
    the column is empty. *)
Theorem formatUserToCsvRow_first_account u :
  plain (id u) = true -> plain (email_of u) = true ->
  plain (wallet_of u) = true ->
  (forall pre a post,
     linked_accounts u = pre ++ a :: post ->
     Forall (fun acc => type acc <> "email") pre -> type a = "email" ->
     csv_fields (formatUserToCsvRow u) !! 3 = Some (Js.or_empty (address a)))
  /\ (forall pre a post,
        linked_accounts u = pre ++ a :: post ->
        Forall (fun acc => type acc <> "wallet") pre -> type a = "wallet" ->
        csv_fields (formatUserToCsvRow u) !! 4 = Some (Js.or_empty (address a)))
  /\ (Forall (fun acc => type acc <> "email") (linked_accounts u) ->
      csv_fields (formatUserToCsvRow u) !! 3 = Some EmptyString)
  /\ (Forall (fun acc => type acc <> "wallet") (linked_accounts u) ->
      csv_fields (formatUserToCsvRow u) !! 4 = Some EmptyString).
Proof.
  intros Hi He Hw. rewrite (row_fields u Hi He Hw). simpl.
  unfold email_of, wallet_of. split_and!.
  - intros pre a post -> Hpre Ha. by rewrite (find_account_first _ _ _ _ Hpre Ha).
  - intros pre a post -> Hpre Ha. by rewrite (find_account_first _ _ _ _ Hpre Ha).
  - intros H. by rewrite (find_account_none _ _ H).
  - intros H. by rewrite (find_account_none _ _ H).
Qed.

Lemma formatUserToCsvRow_first_account_witness :
  let u := {| id := "did:privy:cm1"; created_at := 1700000000; is_guest := false;
              linked_accounts :=
                [ {| type := "phone"; address := None; verified_at := None |};
                  {| type := "email"; address := None; verified_at := None |};
                  {| type := "email"; address := Some "x@y.z";
                     verified_at := None |} ] |} in
  csv_fields (formatUserToCsvRow u) !! 3 = Some EmptyString
  /\ csv_fields (formatUserToCsvRow u) !! 4 = Some EmptyString.
Proof.
  intros u.
  destruct (formatUserToCsvRow_first_account u) as (H1 & _ & _ & H4);
    [done|done|done|].
  split.
  - apply (H1 [ {| type := "phone"; address := None; verified_at := None |} ]
              {| type := "email"; address := None; verified_at := None |}
              [ {| type := "email"; address := Some "x@y.z";
                   verified_at := None |} ]); [done| |done].
    repeat constructor. done.
  - apply H4. repeat constructor; done.
Defined.

(** ** The index, exactly *)

Lemma clean_row_spec u :
  clean_row u = true ->
  clean_id (id u) = true
  /\ Js.has_char Js.newline (email_of u) = false
  /\ Js.has_char Js.newline (wallet_of u) = false.
Proof.
  unfold clean_row. rewrite !andb_true_iff, !negb_true_iff. tauto.
Qed.

Lemma row_one_line u :
  clean_row u = true ->
  Js.split Js.newline (formatUserToCsvRow u) = [formatUserToCsvRow u].
Proof.
  intros (Hi & He & Hw)%clean_row_spec.
  apply clean_id_spec in Hi as (_ & _ & Hi).
  apply split_absent. by apply row_has_not.
Qed.

Lemma load_line_of_row u (ids : gset string) :
  clean_id (id u) = true ->
  load_line (formatUserToCsvRow u) ids = {[ id u ]} ∪ ids.
Proof.
  intros (Hc & Hq & _)%clean_id_spec.
  destruct (formatUserToCsvRow_head u) as [y ->].
  by apply load_line_quoted.
Qed.

Lemma fold_load_line_rows log :
  forall ids : gset string,
  Forall (fun u => clean_row u = true) log ->
  fold_left (fun acc line => load_line line acc) (map formatUserToCsvRow log) ids
  = ids ∪ ids_of log.
Proof.
  unfold ids_of.
  induction log as [|u log IH]; intros ids Hlog; simpl.
  - set_solver.
  - apply Forall_cons in Hlog as [Hu Hlog].
    rewrite load_line_of_row by (by apply clean_row_spec in Hu as [? _]).
    rewrite IH by done. set_solver.
Qed.

Lemma split_rows log :
  Forall (fun u => clean_row u = true) log ->
  concat (map (Js.split Js.newline) (map formatUserToCsvRow log))
  = map formatUserToCsvRow log.
Proof.
  induction 1 as [|u log Hu _ IH]; [done|].
  cbn [map concat]. by rewrite row_one_line, IH.
Qed.

Lemma split_sink log :
  Forall (fun u => clean_row u = true) log ->
  Js.split Js.newline (lines_text (HEADER :: map formatUserToCsvRow log))
  = HEADER :: map formatUserToCsvRow log ++ [EmptyString].
Proof.
  intros Hlog.
  rewrite <- (app_empty_r (lines_text _)), split_lines_text.
  cbn [map concat]. rewrite split_rows by done. reflexivity.
Qed.

Lemma loadExistingUserIds_sink f log (ids : gset string) :
  sink_holds f log -> Forall (fun u => clean_row u = true) log ->
  loadExistingUserIds f ids = ids ∪ ids_of log.
Proof.
  unfold sink_holds, loadExistingUserIds. intros Hs Hlog.
  destruct (users_file f) as [content|].
  - destruct Hs as [[-> ->]| ->].
    + unfold ids_of. cbn. set_solver.
    + rewrite split_sink by done. unfold load_lines. simpl tail.
      rewrite fold_left_app, fold_load_line_rows by done. done.
  - subst log. unfold ids_of. cbn. set_solver.
Qed.

(** X3.  The index is rebuilt exactly: from a sink that holds the header
    and the rows of [log] (or is missing or empty, with [log] empty), where
    every record of [log] has a clean identifier and no line feed in its two
    addresses, [loadExistingUserIds] adds to the index the identifiers of
    [log] and nothing else: nothing for the header, nothing for the empty
    line after the last line feed. *)
Theorem loadExistingUserIds_exact f log (ids : gset string) :
  sink_holds f log -> Forall (fun u => clean_row u = true) log ->
  loadExistingUserIds f ids = ids ∪ ids_of log.
Proof. apply loadExistingUserIds_sink. Qed.

Lemma loadExistingUserIds_exact_witness :
  let user i := {| id := i; created_at := 100; is_guest := false;
                   linked_accounts :=
                     [ {| type := "email"; address := Some "x@y.z";
                          verified_at := None |} ] |} in
  let log := [user "a"; user "b"] in
  let f := {| users_file :=
                Some (lines_text (HEADER :: map formatUserToCsvRow log));
              cursor_file := None; timestamp_file := None |} in
  loadExistingUserIds f ∅ = ∅ ∪ ids_of log.
Proof.
  intros user log f. apply (loadExistingUserIds_exact f log ∅).
  - right. reflexivity.
  - repeat constructor.
Defined.

(** X4.  The first line of the sink is never read, whatever it holds: two
    sinks that differ in their first line only give the same index, and a
    sink of one line (no line feed) adds nothing to the index, be it a row. *)
Theorem loadExistingUserIds_skips_first_line
    line0 line0' rest cf tf (ids : gset string) :
  Js.has_char Js.newline line0 = false ->
  Js.has_char Js.newline line0' = false ->
  loadExistingUserIds
    {| users_file := Some (line0 +:+ String Js.newline rest);
       cursor_file := cf; timestamp_file := tf |} ids
  = loadExistingUserIds
      {| users_file := Some (line0' +:+ String Js.newline rest);
         cursor_file := cf; timestamp_file := tf |} ids
  /\ loadExistingUserIds
       {| users_file := Some line0; cursor_file := cf; timestamp_file := tf |}
       ids
     = ids.
Proof.
  intros H0 H0'. unfold loadExistingUserIds, load_lines. cbn [users_file].
  rewrite !split_app_sep, !(split_absent _ _ H0), (split_absent _ _ H0'). done.
Qed.

Lemma loadExistingUserIds_skips_first_line_witness :
  let u := {| id := "a"; created_at := 100; is_guest := false;
              linked_accounts := [] |} in
  let rest := formatUserToCsvRow u +:+ String Js.newline EmptyString in
  loadExistingUserIds
    {| users_file := Some (formatUserToCsvRow u +:+ String Js.newline rest);
       cursor_file := None; timestamp_file := None |} ∅
  = loadExistingUserIds
      {| users_file := Some (HEADER +:+ String Js.newline rest);
         cursor_file := None; timestamp_file := None |} ∅
  /\ loadExistingUserIds
       {| users_file := Some (formatUserToCsvRow u);
          cursor_file := None; timestamp_file := None |} ∅
     = ∅.
Proof.
  intros u rest.
  apply (loadExistingUserIds_skips_first_line (formatUserToCsvRow u) HEADER);
    reflexivity.
Defined.

(** ** The output file name under [UNIQUE_FILES] *)

Lemma join_cons_char sep c h t :
  Js.join sep (String c h :: t) = String c (Js.join sep (h :: t)).
Proof. by destruct t. Qed.

(** [s.split(sep).join(sep)] is [s]. *)
Lemma join_split sep s :
  Js.join (String sep EmptyString) (Js.split sep s) = s.
Proof.
  induction s as [|c s IH]; [done|]. simpl Js.split.
  destruct (Ascii.eqb c sep) eqn:E.
  - apply Ascii.eqb_eq in E as ->.
    destruct (Js.split sep s) as [|h t] eqn:Es; [by apply split_nonempty in Es|].
    rewrite join_cons2, app_empty_l, app_cons, app_empty_l. by rewrite IH.
  - destruct (Js.split sep s) as [|h t] eqn:Es; [by apply split_nonempty in Es|].
    rewrite join_cons_char. by rewrite IH.
Qed.

Lemma dash_colons_dots_chars s :
  Js.has_char "." (Startup.dash_colons_dots s) = false
  /\ Js.has_char ":" (Startup.dash_colons_dots s) = false.
Proof.
  induction s as [|c s [IH1 IH2]]; [done|].
  cbn [Startup.dash_colons_dots]. rewrite !has_char_cons, IH1, IH2.
  destruct (Ascii.eqb c ":") eqn:E1; destruct (Ascii.eqb c ".") eqn:E2;
    cbn [orb]; rewrite ?E1, ?E2; done.
Qed.

Lemma unique_name_parts isoString stem ext :
  Js.has_char "." ext = false ->
  Startup.unique_name isoString (stem +:+ String "." ext)
  = stem +:+ "_" +:+ Startup.dash_colons_dots isoString +:+ "." +:+ ext.
Proof.
  intros Hext. unfold Startup.unique_name.
  rewrite split_app_sep, (split_absent _ _ Hext).
  rewrite last_snoc, removelast_last, join_split. done.
Qed.

(** X5.  With [UNIQUE_FILES], an output name [stem.ext], where [ext] is
    what follows the last dot, becomes [stem_<timestamp>.ext]: the timestamp
    is the ISO date with every colon and dot turned into a dash, so it holds
    neither, it goes before the last dot, and the result read the same way
    has the same extension. *)
Theorem unique_name_keeps_extension isoString stem ext :
  Js.has_char "." ext = false ->
  Startup.unique_name isoString (stem +:+ String "." ext)
  = stem +:+ "_" +:+ Startup.dash_colons_dots isoString +:+ "." +:+ ext
  /\ Js.has_char "." (Startup.dash_colons_dots isoString) = false
  /\ Js.has_char ":" (Startup.dash_colons_dots isoString) = false
  /\ last (Js.split "." (Startup.unique_name isoString (stem +:+ String "." ext)))
     = Some ext.
Proof.
  intros Hext. rewrite unique_name_parts by done.
  destruct (dash_colons_dots_chars isoString) as [Hd Hc].
  split_and!; try done.
  replace (stem +:+ "_" +:+ Startup.dash_colons_dots isoString +:+ "." +:+ ext)
    with ((stem +:+ "_" +:+ Startup.dash_colons_dots isoString)
          +:+ String "."%char ext)
    by (by rewrite !app_assoc_s).
  rewrite split_app_sep, (split_absent _ _ Hext). apply last_snoc.
Qed.

Lemma unique_name_keeps_extension_witness :
  Startup.unique_name "2024-05-06T07:08:09.123Z" "out/users.v2.csv"
  = "out/users.v2_2024-05-06T07-08-09-123Z.csv"
  /\ Js.has_char "." (Startup.dash_colons_dots "2024-05-06T07:08:09.123Z") = false
  /\ Js.has_char ":" (Startup.dash_colons_dots "2024-05-06T07:08:09.123Z") = false
  /\ last (Js.split "." (Startup.unique_name "2024-05-06T07:08:09.123Z"
                           "out/users.v2.csv"))
     = Some "csv".
Proof.
  apply (unique_name_keeps_extension "2024-05-06T07:08:09.123Z"
           "out/users.v2" "csv").
  reflexivity.
Defined.

(** X6.  With [UNIQUE_FILES], an output name without a dot becomes
    [_<timestamp>.name]: the whole name is taken for the extension, and
    nothing is left before the timestamp. *)
Theorem unique_name_without_dot isoString name :
  Js.has_char "." name = false ->
  Startup.unique_name isoString name
  = "_" +:+ Startup.dash_colons_dots isoString +:+ "." +:+ name.
Proof.
  intros Hname. unfold Startup.unique_name.
  by rewrite (split_absent _ _ Hname).
Qed.

Lemma unique_name_without_dot_witness :
  Startup.unique_name "2024-05-06T07:08:09.123Z" "users"
  = "_2024-05-06T07-08-09-123Z.users".
Proof.
  apply (unique_name_without_dot "2024-05-06T07:08:09.123Z" "users").
  reflexivity.
Defined.

(** ** What a call of [fetchPageOfUsers] reads *)

Lemma fetch_emit_emit e1 e2 r :
  fetch_emit e1 (fetch_emit e2 r) = fetch_emit (e1 ++ e2) r.
Proof. unfold fetch_emit. simpl. by rewrite app_assoc. Qed.

Lemma fetch_emit_nil r : fetch_emit [] r = r.
Proof. by destruct r. Qed.

Lemma backoff_delays_app e1 e2 :
  backoff_delays (e1 ++ e2) = backoff_delays e1 ++ backoff_delays e2.
Proof. apply omap_app. Qed.

(** The outcomes a call retries are passed over: one request and one
    backoff sleep each. *)
Lemma fetch_loop_skip random req pre :
  forall retries backoffMs draws rest,
  Forall (fun o => retried o = true) pre ->
  (forall i m, pre !! i = Some (Rejected m) -> retries + i < 5) ->
  exists ev b,
    fetch_loop random req retries backoffMs draws (pre ++ rest)
    = fetch_emit ev
        (fetch_loop random req (retries + length pre) b (draws + length pre) rest)
    /\ length (requests ev) = length pre
    /\ length (backoff_delays ev) = length pre.
Proof.
  induction pre as [|o pre IH]; intros retries backoffMs draws rest Hpre Hix.
  { exists [], backoffMs. rewrite fetch_emit_nil, !Nat.add_0_r. done. }
  apply Forall_cons in Hpre as [Ho Hpre].
  assert (Hix' : forall i m, pre !! i = Some (Rejected m) -> S retries + i < 5).
  { intros i m Hi. specialize (Hix (S i) m Hi). lia. }
  destruct (IH (S retries) (next_backoff backoffMs (random draws)) (S draws)
              rest Hpre Hix') as (ev & b & E & Hr & Hb).
  replace (retries + length (o :: pre)) with (S retries + length pre)
    by (simpl; lia).
  replace (draws + length (o :: pre)) with (S draws + length pre)
    by (simpl; lia).
  destruct o as [status body|message]; simpl in Ho.
  - apply andb_true_iff in Ho as [Hok H429]. apply negb_true_iff in Hok.
    exists ([EvFetch req; EvSleep RateLimitBackoff
                            (next_backoff backoffMs (random draws))] ++ ev), b.
    split; [|split].
    + simpl. rewrite Hok, H429, E, fetch_emit_emit. done.
    + rewrite requests_app, length_app, Hr. reflexivity.
    + rewrite backoff_delays_app, length_app, Hb. reflexivity.
  - apply negb_true_iff in Ho.
    assert (Hlt : (5 <? S retries)%nat = false).
    { apply Nat.ltb_ge. specialize (Hix 0 message eq_refl). lia. }
    exists ([EvFetch req; EvSleep NetworkBackoff
                            (next_backoff backoffMs (random draws))] ++ ev), b.
    split; [|split].
    + simpl. rewrite Ho, Hlt, E, fetch_emit_emit. done.
    + rewrite requests_app, length_app, Hr. reflexivity.
    + rewrite backoff_delays_app, length_app, Hb. reflexivity.
Qed.

(** The call stops at a decisive outcome. *)
Lemma fetch_loop_decisive random req retries backoffMs draws o rest :
  decisive retries o ->
  let fr := fetch_loop random req retries backoffMs draws (o :: rest) in
  f_result fr = decided retries o /\ f_rest fr = rest
  /\ length (requests (f_events fr)) = 1
  /\ backoff_delays (f_events fr) = [].
Proof.
  intros Hdec. destruct o as [status body|message]; simpl.
  - destruct (response_ok status) eqn:Hok; [by destruct body|].
    destruct (Z.eqb status 429) eqn:H429; [|done].
    destruct Hdec as [H|[H _]]; simpl in H; [|done].
    by rewrite Hok, H429 in H.
  - destruct (Js.includes "HTTP error" message) eqn:Hinc; [done|].
    destruct Hdec as [H|[_ H]]; simpl in H; [by rewrite Hinc in H|].
    assert ((5 <? S retries)%nat = true) as -> by (apply Nat.ltb_lt; lia).
    done.
Qed.

Lemma decisive_dec n o : {decisive n o} + {retried o = true /\ (is_rejected o = true -> n < 5)}.
Proof.
  unfold decisive. destruct (retried o) eqn:Hr; [|by left; left].
  destruct (is_rejected o) eqn:Hj.
  - destruct (le_lt_dec 5 n); [left; by right|right; done].
  - right. split; [done|discriminate].
Qed.

(** A script is passed over whole, or up to its first decisive outcome. *)
Lemma script_decisive script :
  forall retries,
  (Forall (fun o => retried o = true) script
   /\ forall i m, script !! i = Some (Rejected m) -> retries + i < 5)
  \/ exists pre o rest,
       script = pre ++ o :: rest
       /\ Forall (fun o => retried o = true) pre
       /\ (forall i m, pre !! i = Some (Rejected m) -> retries + i < 5)
       /\ decisive (retries + length pre) o.
Proof.
  induction script as [|o script IH]; intros retries.
  { left. split; [done|]. intros i m Hi. by destruct i. }
  destruct (decisive_dec retries o) as [Hd|[Hr Hlt]].
  { right. exists [], o, script. rewrite Nat.add_0_r. split_and!; try done. }
  destruct (IH (S retries)) as [[Hall Hix]|(pre & o' & rest & -> & Hpre & Hix & Hd)].
  - left. split; [by constructor|].
    intros [|i] m Hi; simpl in Hi.
    + injection Hi as ->. specialize (Hlt eq_refl). lia.
    + specialize (Hix i m Hi). lia.
  - right. exists (o :: pre), o', rest. split_and!; try done.
    + by constructor.
    + intros [|i] m Hi; simpl in Hi.
      * injection Hi as ->. specialize (Hlt eq_refl). lia.
      * specialize (Hix i m Hi). lia.
    + simpl. by replace (retries + S (length pre)) with (S retries + length pre) by lia.
Qed.

Lemma fetch_loop_all_retried random req script :
  forall retries backoffMs draws,
  Forall (fun o => retried o = true) script ->
  (forall i m, script !! i = Some (Rejected m) -> retries + i < 5) ->
  f_result (fetch_loop random req retries backoffMs draws script) = Blocked.
Proof.
  intros retries backoffMs draws Hall Hix.
  destruct (fetch_loop_skip random req script retries backoffMs draws []
              Hall Hix) as (ev & b & E & _).
  rewrite app_nil_r in E. by rewrite E.
Qed.

Lemma fetch_loop_decided random req retries backoffMs draws pre o rest :
  Forall (fun o => retried o = true) pre ->
  (forall i m, pre !! i = Some (Rejected m) -> retries + i < 5) ->
  decisive (retries + length pre) o ->
  let fr := fetch_loop random req retries backoffMs draws (pre ++ o :: rest) in
  f_result fr = decided (retries + length pre) o /\ f_rest fr = rest
  /\ length (requests (f_events fr)) = S (length pre)
  /\ length (backoff_delays (f_events fr)) = length pre.
Proof.
  intros Hpre Hix Hd fr. subst fr.
  destruct (fetch_loop_skip random req pre retries backoffMs draws (o :: rest)
              Hpre Hix) as (ev & b & -> & Hr & Hb).
  destruct (fetch_loop_decisive random req (retries + length pre) b
              (draws + length pre) o rest Hd) as (H1 & H2 & H3 & H4).
  rewrite fetch_emit_result, fetch_emit_rest, fetch_emit_events.
  split_and!; try done.
  - rewrite requests_app, length_app, Hr, H3. lia.
  - rewrite backoff_delays_app, length_app, Hb, H4. simpl. lia.
Qed.

(** X7.  A call of [fetchPageOfUsers] stops at the first outcome that is
    not retried: after outcomes that are all retried (answers 429, and
    transport failures among the first five outcomes), the next outcome
    decides when it is a 2xx answer (the page, or the error of a body that
    does not parse), another status (an HTTP error, never retried), a
    transport failure whose message holds "HTTP error" (rethrown), or a
    transport failure past the fifth retry (exhausted retries).  The call
    has then issued one request per outcome read and slept one backoff per
    outcome retried, and the outcomes after the deciding one are not read. *)
Theorem fetchPageOfUsers_first_decisive_outcome
    random cursor since draws pre o rest :
  Forall (fun o => retried o = true) pre ->
  (forall i m, pre !! i = Some (Rejected m) -> i < 5) ->
  retried o = false \/ (is_rejected o = true /\ 5 <= length pre) ->
  let fr := fetchPageOfUsers random cursor since draws (pre ++ o :: rest) in
  f_result fr
  = match o with
    | Response status body =>
        if response_ok status then
          match body with Json q => Ok q | NotJson => Failed BodyError end
        else Failed (HttpError status)
    | Rejected message =>
        if Js.includes "HTTP error" message then Failed (TransportError message)
        else Failed (ExhaustedRetries (S (length pre)) message)
    end
  /\ f_rest fr = rest
  /\ length (requests (f_events fr)) = S (length pre)
  /\ length (backoff_delays (f_events fr)) = length pre.
Proof.
  intros Hpre Hix Hd.
  apply (fetch_loop_decided random (build_request cursor since) 0
           CONFIG.rateLimit.initialBackoffMs draws pre o rest); done.
Qed.

Lemma fetchPageOfUsers_first_decisive_outcome_witness :
  let pre := [rate_limited; Rejected "socket hang up"; rate_limited] in
  let fr := fetchPageOfUsers (fun _ => 1 # 2) (Some "c1") None 0
              (pre ++ Response 503 NotJson :: [rate_limited]) in
  f_result fr = Failed (HttpError 503)
  /\ f_rest fr = [rate_limited]
  /\ length (requests (f_events fr)) = 4
  /\ length (backoff_delays (f_events fr)) = 3.
Proof.
  intros pre.
  apply (fetchPageOfUsers_first_decisive_outcome (fun _ => 1 # 2) (Some "c1")
           None 0 pre (Response 503 NotJson) [rate_limited]).
  - by repeat constructor.
  - intros i m Hi. destruct i as [|[|[|i]]]; simpl in Hi; try done; lia.
  - by left.
Defined.

Lemma fetch_loop_ok random req script retries backoffMs draws q :
  f_result (fetch_loop random req retries backoffMs draws script) = Ok q
  <-> exists pre status rest,
        script = pre ++ Response status (Json q) :: rest
        /\ response_ok status = true
        /\ Forall (fun o => retried o = true) pre
        /\ (forall i m, pre !! i = Some (Rejected m) -> retries + i < 5).
Proof.
  split.
  - intros Hres.
    destruct (script_decisive script retries)
      as [[Hall Hix]|(pre & o & rest & -> & Hpre & Hix & Hd)].
    { by rewrite fetch_loop_all_retried in Hres. }
    destruct (fetch_loop_decided random req retries backoffMs draws pre o rest
                Hpre Hix Hd) as (H1 & _).
    rewrite H1 in Hres. exists pre.
    destruct o as [status body|message]; simpl in Hres.
    + destruct (response_ok status) eqn:Hok; [|done].
      destruct body as [q'|]; [|done]. injection Hres as ->.
      by exists status, rest.
    + by destruct (Js.includes _ _).
  - intros (pre & status & rest & -> & Hok & Hpre & Hix).
    destruct (fetch_loop_decided random req retries backoffMs draws pre
                (Response status (Json q)) rest Hpre Hix) as (H1 & _).
    { left. simpl. by rewrite Hok. }
    rewrite H1. simpl. by rewrite Hok.
Qed.

(** X8.  A call of [fetchPageOfUsers] returns a page exactly when the
    outcomes hold a 2xx answer that parses, behind outcomes that are all
    retried: answers 429 in any number, transport failures among the first
    five outcomes only.  The page returned is the first such answer. *)
Theorem fetchPageOfUsers_returns_iff random cursor since draws script q :
  f_result (fetchPageOfUsers random cursor since draws script) = Ok q
  <-> exists pre status rest,
        script = pre ++ Response status (Json q) :: rest
        /\ response_ok status = true
        /\ Forall (fun o => retried o = true) pre
        /\ (forall i m, pre !! i = Some (Rejected m) -> i < 5).
Proof. unfold fetchPageOfUsers. by rewrite fetch_loop_ok. Qed.

(** ** The turns of the page loop *)

(** A turn that does not reach the processing of a page ends the loop. *)
Lemma page_loop_fails random since fuel v st script :
  let fr := fetchPageOfUsers random (Js.or_undefined (cursor v)) since
              (draws st) script in
  match f_result fr with Ok q => data q = None | _ => True end ->
  page_loop random since (S fuel) v st script
  = {| r_result := match f_result fr with
                   | Ok _ => Failed InvalidFormat
                   | Failed e => Failed e
                   | Blocked => Blocked
                   end;
       r_state := with_draws (f_draws fr) st; r_loop := v;
       r_events := cooldown_events (totalUsers v) ++ f_events fr;
       r_rest := f_rest fr |}.
Proof.
  intros fr H. cbn [page_loop]. fold fr. cbv zeta.
  destruct (f_result fr) as [q| |]; [|done..]. by rewrite H.
Qed.

(** The two ways of a turn: it ends the loop, or a page is processed. *)
Lemma turn_cases (fr : FetchRun) :
  (match f_result fr with Ok q => data q = None | _ => True end)
  \/ exists q users, f_result fr = Ok q /\ data q = Some users.
Proof.
  destruct (f_result fr) as [q| |]; [|by left..].
  destruct (data q) as [users|] eqn:E; [right; by exists q, users|by left].
Qed.

(** The pass of [main], and what [main] adds to it. *)
Lemma main_pass_spec inv f :
  let r := main_pass inv f in
  begins inv f = true ->
  x_result (main inv f) = r_result r
  /\ x_events (main inv f)
     = r_events r
       ++ match r_result r with
          | Ok _ => [EvUnlinkCursor;
                     EvSaveTimestamp (Js.toString (now inv / 1000))]
          | _ => []
          end
  /\ x_files (main inv f)
     = match r_result r with
       | Ok _ => saveTimestamp (now inv / 1000)
                   (set_cursor_file None (files (r_state r)))
       | _ => files (r_state r)
       end.
Proof.
  intros r Hb. subst r. rewrite (main_begun inv f Hb).
  unfold main_pass, main_vars, main_state, getAllUsers.
  cbv zeta. cbn [files].
  match goal with
  | |- context [page_loop ?a ?b ?c ?v ?s ?l] => set (r := page_loop a b c v s l)
  end.
  clearbody r.
  destruct (r_result r) as [[]| |] eqn:E; cbn; rewrite ?E; cbn;
    rewrite ?app_nil_r, <- ?app_assoc; done.
Qed.

(** ** The time between two requests *)

Lemma spaced_no_request min a b :
  requests a = [] -> spaced min (a ++ b) <-> spaced min b.
Proof.
  induction a as [|e a IH]; [done|].
  destruct e; cbn; try done; exact IH.
Qed.

Lemma spaced_app_after min a e b :
  request_of e = None ->
  spaced min (a ++ [e]) -> spaced min b -> spaced min ((a ++ [e]) ++ b).
Proof.
  intros He. induction a as [|x a IH]; intros Ha Hb.
  - destruct e; cbn in *; done.
  - destruct x; cbn in *; try (by apply IH).
    destruct Ha as [Hh Ha]. split; [|by apply IH].
    destruct a as [|y a]; [|done]. cbn in *. by destruct e.
Qed.

Lemma pacing_delay_value : (pacing_delay == 2000)%Q.
Proof. by vm_compute. Qed.

Lemma fetch_loop_spaced random req script :
  (forall n, (0 <= random n <= 1)%Q) ->
  forall retries backoffMs draws,
  (1000 <= backoffMs)%Q ->
  let fr := fetch_loop random req retries backoffMs draws script in
  spaced 1800 (f_events fr)
  /\ (forall q, f_result fr = Ok q ->
        exists ev, f_events fr = ev ++ [EvSleep Pacing pacing_delay]).
Proof.
  intros Hrnd.
  assert (Hp : (1800 <= pacing_delay)%Q) by (rewrite pacing_delay_value; lra).
  induction script as [|[status body|message] script IH];
    intros retries backoffMs draws Hb; cbn [fetch_loop].
  - by split.
  - destruct (response_ok status).
    + split; [cbn; done|]. intros q _. by exists [EvFetch req].
    + destruct (Z.eqb status 429); [|by split].
      pose proof (next_backoff_lower backoffMs (random draws) (Hrnd draws) Hb)
        as Hn.
      destruct (IH (S retries) (next_backoff backoffMs (random draws)) (S draws))
        as [Hs Hq]; [lra|].
      rewrite fetch_emit_events, fetch_emit_result. split; [cbn; done|].
      intros q Hres. destruct (Hq q Hres) as [ev ->].
      eexists. by rewrite app_assoc.
  - destruct (Js.includes _ message); [by split|].
    destruct (5 <? S retries)%nat; [by split|].
    pose proof (next_backoff_lower backoffMs (random draws) (Hrnd draws) Hb)
      as Hn.
    destruct (IH (S retries) (next_backoff backoffMs (random draws)) (S draws))
      as [Hs Hq]; [lra|].
    rewrite fetch_emit_events, fetch_emit_result. split; [cbn; done|].
    intros q Hres. destruct (Hq q Hres) as [ev ->].
    eexists. by rewrite app_assoc.
Qed.

Lemma spaced_no_requests min a : requests a = [] -> spaced min a.
Proof.
  intros Ha. apply (spaced_no_request min a []) in Ha.
  rewrite app_nil_r in Ha. by apply Ha.
Qed.

Lemma page_loop_spaced random since fuel :
  (forall n, (0 <= random n <= 1)%Q) ->
  forall v st script,
  let r := page_loop random since fuel v st script in
  spaced 1800 (r_events r)
  /\ (r_result r = Ok tt ->
        exists ev c, r_events r = ev ++ [EvSaveCursor c]).
Proof.
  intros Hrnd. induction fuel as [|fuel IH]; intros v st script r; [by split|].
  subst r.
  set (fr := fetchPageOfUsers random (Js.or_undefined (cursor v)) since
               (draws st) script).
  destruct (fetch_loop_spaced random
              (build_request (Js.or_undefined (cursor v)) since) script Hrnd
              0 CONFIG.rateLimit.initialBackoffMs (draws st)) as [Hsp Hlast].
  { unfold CONFIG.rateLimit.initialBackoffMs. lra. }
  fold (fetchPageOfUsers random (Js.or_undefined (cursor v)) since (draws st) script)
    in Hsp, Hlast. fold fr in Hsp, Hlast.
  assert (Hcool : requests (cooldown_events (totalUsers v)) = [])
    by apply cooldown_events_readings.
  destruct (turn_cases fr) as [Hfail|(q & users & Hq & Hdata)].
  - rewrite page_loop_fails by done. fold fr. cbn [r_events r_result]. split.
    + by apply spaced_no_request.
    + by destruct (f_result fr).
  - rewrite (page_loop_page random since fuel v st script q users) by done.
    fold fr. destruct (Hlast q Hq) as [fe Hfe].
    set (p := processPage users (next_cursor q) v (with_draws (f_draws fr) st)).
    destruct (processPage_events users (next_cursor q) v
                (with_draws (f_draws fr) st)) as (evp & Hevp & Hshape & _).
    fold p in Hevp.
    assert (Hreq : requests evp = []).
    { by destruct Hshape as [->|(t & rows & ->)]. }
    assert (Hturn : spaced 1800 (((cooldown_events (totalUsers v) ++ f_events fr)
                                  ++ evp) ++ [EvSaveCursor (Js.or_empty (next_cursor q))])).
    { rewrite <- !app_assoc. apply spaced_no_request; [done|].
      rewrite Hfe. rewrite <- app_assoc. rewrite (app_assoc fe).
      rewrite <- Hfe. rewrite Hfe at 1.
      apply spaced_app_after; [done|by rewrite <- Hfe|].
      apply spaced_no_requests. rewrite requests_app, Hreq. done. }
    destruct (p_next p).
    + rewrite run_emit_events. cbn [r_result run_emit].
      destruct (IH (p_loop p) (p_state p) (f_rest fr)) as [Hs Hend].
      rewrite Hevp, !app_assoc. split.
      * apply spaced_app_after; [done| |done]. by rewrite <- !app_assoc in *.
      * intros Hres. destruct (Hend Hres) as (ev & c & ->).
        eexists _, c. by rewrite app_assoc.
    + cbn [r_events r_result]. rewrite Hevp, !app_assoc. split.
      * by rewrite <- !app_assoc in *.
      * intros _. by eexists _, _.
Qed.

Lemma spaced_lookup min ev :
  spaced min ev ->
  forall pre r e post,
  ev = pre ++ EvFetch r :: e :: post ->
  exists k ms, e = EvSleep k ms /\ k <> BatchCooldown /\ (min <= ms)%Q.
Proof.
  intros Hs pre. revert ev Hs.
  induction pre as [|x pre IH]; intros ev Hs r e post ->.
  - cbn in Hs. destruct Hs as [Hh _]. destruct e; try done.
    by eexists _, _.
  - apply (IH (pre ++ EvFetch r :: e :: post)) with r post; [|done].
    destruct x; cbn in Hs; try done. by destruct Hs.
Qed.

Lemma page_loop_pacing random since fuel :
  forall v st script ms,
  In (EvSleep Pacing ms) (r_events (page_loop random since fuel v st script)) ->
  ms = pacing_delay.
Proof.
  intros v st script ms.
  apply (page_loop_summary random since (fun _ => True)
           (fun _ _ ev _ _ => In (EvSleep Pacing ms) ev -> ms = pacing_delay)).
  - done.
  - intros ? ? e1 ? ? e2 ? ? H1 H2. rewrite in_app_iff. tauto.
  - clear. intros v st script fr. subst fr. rewrite in_app_iff.
    intros [H|H].
    + unfold cooldown_events in H. destruct (cooldown_due _); [|done].
      destruct H as [H|[]]. discriminate.
    + revert H. unfold fetchPageOfUsers.
      generalize 0 CONFIG.rateLimit.initialBackoffMs (draws st).
      induction script as [|[status body|message] script IH];
        intros retries b d; cbn [fetch_loop].
      * intros [H|[]]. discriminate.
      * destruct (response_ok status).
        { intros [H|[H|[]]]; [discriminate|]. by injection H. }
        destruct (Z.eqb status 429).
        -- rewrite fetch_emit_events. intros [H|[H|H]]; [discriminate..|].
           by apply IH in H.
        -- intros [H|[]]. discriminate.
      * destruct (Js.includes _ message); [intros [H|[]]; discriminate|].
        destruct (5 <? S retries)%nat; [intros [H|[]]; discriminate|].
        rewrite fetch_emit_events. intros [H|[H|H]]; [discriminate..|].
        by apply IH in H.
  - clear. intros users c v st _ p. subst p.
    destruct (processPage_events users c v st) as (ev & -> & Hshape & _).
    rewrite in_app_iff. intros [H|[H|[]]]; [|discriminate].
    destruct Hshape as [->|(t & rows & ->)]; [done|].
    destruct H as [H|[]]. discriminate.
  - done.
Qed.

(** X9.  Requests are kept apart: with [Math.random] in [0, 1], every
    request of an invocation that is not its last effect is followed at once
    by a sleep of 1800 ms or more (the pacing sleep after a 2xx answer, a
    backoff sleep after an answer 429 or a transport failure), and every
    pacing sleep lasts 2000 ms. *)
Theorem main_requests_spaced inv f :
  (forall n, (0 <= random inv n <= 1)%Q) ->
  (forall pre r e post,
     x_events (main inv f) = pre ++ EvFetch r :: e :: post ->
     exists k ms, e = EvSleep k ms /\ k <> BatchCooldown /\ (1800 <= ms)%Q)
  /\ (forall ms, In (EvSleep Pacing ms) (x_events (main inv f)) ->
                 (ms == 2000)%Q).
Proof.
  intros Hrnd. begun inv f Hb; cycle 1.
  { split; [|by intros ? []]. intros pre r e post H. by destruct pre. }
  destruct (main_pass_spec inv f Hb) as (Hres & Hev & _).
  destruct (page_loop_spaced (random inv) (main_since inv f)
              (S (length (upstream inv))) Hrnd (main_vars f) (main_state f)
              (upstream inv)) as [Hs Hend].
  fold (main_pass inv f) in Hs, Hend. split.
  - apply spaced_lookup. rewrite Hev.
    destruct (r_result (main_pass inv f)) as [[]| |] eqn:E;
      rewrite ?app_nil_r; try done.
    destruct (Hend eq_refl) as (ev & c & Hev').
    rewrite Hev' in *. by apply spaced_app_after.
  - intros ms. rewrite Hev, in_app_iff. intros [H|H].
    + apply page_loop_pacing in H as ->. apply pacing_delay_value.
    + destruct (r_result (main_pass inv f)) as [[]| |]; cbn in H; try done.
      destruct H as [H|[H|[]]]; discriminate.
Qed.

Lemma main_requests_spaced_witness :
  let inv := {| FETCH_NEW_ONLY := false; now := 5000; now_time_value := I;
                random := fun _ => 1 # 2;
                upstream := [rate_limited;
                             Response 200 (Json {| data := Some [];
                                                   next_cursor := None |})] |} in
  (forall pre r e post,
     x_events (main inv no_files) = pre ++ EvFetch r :: e :: post ->
     exists k ms, e = EvSleep k ms /\ k <> BatchCooldown /\ (1800 <= ms)%Q)
  /\ (forall ms, In (EvSleep Pacing ms) (x_events (main inv no_files)) ->
                 (ms == 2000)%Q).
Proof.
  intros inv. apply (main_requests_spaced inv no_files).
  intros n. cbn. lra.
Defined.

(** ** What a pass keeps *)

Lemma fetch_turn_events random since v st script :
  let fr := fetchPageOfUsers random (Js.or_undefined (cursor v)) since
              (draws st) script in
  Forall (fun e => fetch_event (build_request (Js.or_undefined (cursor v)) since) e
                   \/ e = EvSleep BatchCooldown CONFIG.batchCooldownMs)
    (cooldown_events (totalUsers v) ++ f_events fr).
Proof.
  intros fr. apply Forall_app. split.
  - unfold cooldown_events. destruct (cooldown_due _); [|done].
    constructor; [by right|done].
  - destruct (fetchPageOfUsers_events random (Js.or_undefined (cursor v)) since
                (draws st) script) as (tl & E & Htl).
    fold fr in E. rewrite E. constructor; [by left|].
    eapply Forall_impl; [exact Htl|]. by left.
Qed.

Lemma turn_events_exported req ev :
  Forall (fun e => fetch_event req e
                   \/ e = EvSleep BatchCooldown CONFIG.batchCooldownMs) ev ->
  exported ev = [] /\ appended_text ev = EmptyString.
Proof.
  induction 1 as [|e ev He _ [IH1 IH2]]; [done|].
  destruct He as [He| ->]; [|done]. by destruct e.
Qed.

Lemma turn_events_follow req ev tail :
  Forall (fun e => fetch_event req e
                   \/ e = EvSleep BatchCooldown CONFIG.batchCooldownMs) ev ->
  follows (cursor_param req) tail -> follows (cursor_param req) (ev ++ tail).
Proof.
  intros Hev Htail. induction Hev as [|e ev He _ IH]; [done|].
  destruct He as [He| ->]; [|done].
  destruct e; cbn in *; try done. by subst.
Qed.

Lemma exported_length_new users isFirstBatch f ids :
  a_newUsers (appendUsersToFile users isFirstBatch f ids)
  = length (a_rows (appendUsersToFile users isFirstBatch f ids)).
Proof.
  destruct (appendUsersToFile_batch users isFirstBatch f ids)
    as (-> & _ & -> & _).
  by destruct (batch_users_spec (fun _ => True) users ids) as (_ & _ & _ & -> & _);
    [by apply Forall_forall|].
Qed.

Lemma batch_rows_le users :
  forall b, length (b_rows (fold_left batch_step users b))
            <= length (b_rows b) + length users.
Proof.
  induction users as [|u users IH]; intros b; simpl; [lia|].
  etrans; [apply IH|]. unfold batch_step.
  destruct (decide _); simpl; rewrite ?length_app; simpl; lia.
Qed.

Lemma page_loop_counts random since fuel v st script :
  let r := page_loop random since fuel v st script in
  totalUsers (r_loop r) = totalUsers v + length (exported (r_events r))
  /\ totalUsers (r_loop r) - totalUsers v
     <= processedUsers (r_loop r) - processedUsers v
  /\ processedUsers v <= processedUsers (r_loop r).
Proof.
  apply (page_loop_summary random since (fun _ => True)
           (fun v _ ev v' _ =>
              totalUsers v' = totalUsers v + length (exported ev)
              /\ totalUsers v' - totalUsers v
                 <= processedUsers v' - processedUsers v
              /\ processedUsers v <= processedUsers v')).
  - intros. cbn. lia.
  - intros ? ? e1 ? ? e2 ? ? H1 H2. rewrite exported_app, length_app. lia.
  - intros v0 st0 script0 fr. subst fr.
    destruct (turn_events_exported _ _ (fetch_turn_events random since v0 st0 script0))
      as [-> _]. cbn. lia.
  - intros users c v0 st0 _ p. subst p.
    destruct (processPage_exported users c v0 st0) as (-> & _ & _ & -> & _).
    destruct users as [|u users]; [cbn; lia|].
    rewrite exported_length_new.
    destruct (appendUsersToFile_batch (u :: users) (isFirstBatch v0) (files st0)
                (processedUserIds st0)) as (-> & _).
    pose proof (batch_rows_le (u :: users)
                  {| b_rows := []; b_ids := processedUserIds st0;
                     b_new := 0; b_dup := 0 |}) as Hle.
    fold (batch_users (u :: users) (processedUserIds st0)) in Hle.
    cbn [b_rows length] in Hle. cbn [processPage p_loop processedUsers].
    cbn [length]. lia.
  - done.
Qed.

Lemma getAllUsers_pass random since st script :
  let r := getAllUsers random since st script in
  let r0 := page_loop random since (S (length script))
              {| cursor := loadSavedCursor (files st);
                 isFirstBatch :=
                   negb (Js.truthy (Js.or_empty (loadSavedCursor (files st))));
                 totalUsers := 0; processedUsers := 0 |} st script in
  r_loop r = r_loop r0 /\ exported (r_events r) = exported (r_events r0)
  /\ r_result r = r_result r0 /\ r_rest r = r_rest r0.
Proof.
  unfold getAllUsers. cbv zeta.
  match goal with
  | |- context [page_loop ?a ?b ?c ?v ?s ?l] => set (r := page_loop a b c v s l)
  end.
  clearbody r. destruct (r_result r) as [[]| |] eqn:E; cbn -[exported];
    rewrite ?E; try done.
  rewrite exported_app. change (exported [EvUnlinkCursor]) with (@nil PrivyUser).
  by rewrite app_nil_r.
Qed.

(** ** The cooldown below one batch *)

Lemma cooldown_due_small total :
  total < CONFIG.usersBatchSize -> cooldown_due total = false.
Proof.
  intros H. unfold cooldown_due.
  destruct total as [|n]; [done|].
  rewrite Nat.mod_small by done. done.
Qed.

Lemma page_loop_no_cooldown random since fuel v st script :
  let r := page_loop random since fuel v st script in
  totalUsers (r_loop r) < CONFIG.usersBatchSize -> cooldowns (r_events r) = 0.
Proof.
  intros r Hlt. subst r.
  pose proof (page_loop_summary random since (fun _ => True)
           (fun v _ ev v' _ =>
              totalUsers v <= totalUsers v'
              /\ (totalUsers v' < CONFIG.usersBatchSize -> cooldowns ev = 0)))
    as H.
  apply H; try done; clear.
  - intros ? ? e1 ? ? e2 ? ? [H1 H1'] [H2 H2']. split; [lia|].
    intros Hlt. rewrite cooldowns_app, H1', H2'; [done|lia|lia].
  - intros v st script fr. split; [done|]. intros Hlt.
    rewrite cooldowns_app. unfold cooldown_events.
    rewrite cooldown_due_small by done.
    destruct (fetchPageOfUsers_events random (Js.or_undefined (cursor v)) since
                (draws st) script) as (tl & E & Htl).
    fold fr in E. rewrite E.
    assert (Hall : Forall (fetch_event (build_request (Js.or_undefined (cursor v))
                                          since))
                     (EvFetch (build_request (Js.or_undefined (cursor v)) since)
                        :: tl)) by (by constructor).
    by destruct (fetch_events_readings _ _ Hall) as (_ & _ & _ & ->).
  - intros users c v st _ p. subst p.
    destruct (processPage_exported users c v st) as (_ & -> & _ & -> & _).
    split; [|done]. destruct users; lia.
Qed.

(** X11.  No cooldown below one batch: an invocation that appends fewer
    than [usersBatchSize] (2500) rows never sleeps a batch cooldown. *)
Theorem main_no_cooldown_below_batch inv f :
  length (exported (x_events (main inv f))) < CONFIG.usersBatchSize ->
  cooldowns (x_events (main inv f)) = 0.
Proof.
  begun inv f Hb; [|done].
  destruct (main_loop inv f Hb) as (-> & -> & _).
  intros Hlt. apply page_loop_no_cooldown.
  match goal with
  | |- context [page_loop ?a ?b ?c ?v ?s ?l] =>
      destruct (page_loop_counts a b c v s l) as (-> & _)
  end.
  exact Hlt.
Qed.

Lemma main_no_cooldown_below_batch_witness :
  let inv := {| FETCH_NEW_ONLY := false; now := 5000; now_time_value := I;
                random := fun _ => 1 # 2;
                upstream := sample_script 0 [2; 1; 0] |} in
  cooldowns (x_events (main inv no_files)) = 0.
Proof.
  intros inv. apply (main_no_cooldown_below_batch inv no_files).
  cbv [CONFIG.usersBatchSize].
  replace (exported (x_events (main inv no_files)))
    with (map sample_user [0; 1; 2]) by (by vm_compute).
  cbn [map length]. lia.
Defined.

(** ** The cursor a request carries *)

Lemma or_null_or_empty c : Js.or_null (Js.or_empty c) = Js.or_undefined c.
Proof. by destruct c as [[|]|]. Qed.

Lemma or_undefined_idem c : Js.or_undefined (Js.or_undefined c) = Js.or_undefined c.
Proof. by destruct c as [[|]|]. Qed.

Lemma page_loop_follows random since fuel v st script tail :
  let r := page_loop random since fuel v st script in
  follows (Js.or_undefined (cursor (r_loop r))) tail ->
  follows (Js.or_undefined (cursor v)) (r_events r ++ tail).
Proof.
  intros r. subst r. revert tail.
  apply (page_loop_summary random since (fun _ => True)
           (fun v _ ev v' _ =>
              forall tail, follows (Js.or_undefined (cursor v')) tail ->
                           follows (Js.or_undefined (cursor v)) (ev ++ tail))).
  - done.
  - intros ? ? e1 ? ? e2 ? ? H1 H2 tail Ht. rewrite <- app_assoc.
    by apply H1, H2.
  - clear. intros v st script fr tail Ht.
    pose proof (fetch_turn_events random since v st script) as Hev.
    fold fr in Hev.
    pose proof (turn_events_follow _ _ tail Hev) as H.
    cbn [build_request cursor_param] in H. rewrite or_undefined_idem in H.
    by apply H.
  - clear. intros users c v st _ p tail Ht. subst p.
    destruct (processPage_events users c v st)
      as (ev & -> & Hshape & _ & _ & Hc).
    rewrite Hc in Ht. rewrite <- app_assoc.
    destruct Hshape as [->|(t & rows & ->)]; cbn;
      by rewrite or_null_or_empty.
  - done.
Qed.

(** X12.  The requests follow the cursor file: the requests of an
    invocation carry the cursor [loadSavedCursor] found until a page is
    processed, and after every save of a cursor they carry the cursor just
    saved, none when the empty text was saved. *)
Theorem main_requests_follow_cursor inv f :
  follows (loadSavedCursor f) (x_events (main inv f)).
Proof.
  begun inv f Hb; [|done].
  destruct (main_pass_spec inv f Hb) as (_ & -> & _).
  rewrite <- (or_undefined_loadSavedCursor f).
  apply (page_loop_follows (random inv) (main_since inv f)
           (S (length (upstream inv))) (main_vars f) (main_state f)
           (upstream inv)).
  by destruct (r_result (main_pass inv f)).
Qed.

(** ** The sink is appended to, and nothing else *)

Lemma appended_text_app e1 e2 :
  appended_text (e1 ++ e2) = appended_text e1 +:+ appended_text e2.
Proof.
  induction e1 as [|e e1 IH]; [done|]. unfold appended_text in *.
  destruct e; simpl; try done. by rewrite IH, app_assoc_s.
Qed.

Lemma page_loop_appends random since fuel v st script :
  let r := page_loop random since fuel v st script in
  (users_file (files (r_state r)) = users_file (files st)
   /\ appended_text (r_events r) = EmptyString)
  \/ users_file (files (r_state r))
     = Some (Js.or_empty (users_file (files st)) +:+ appended_text (r_events r)).
Proof.
  apply (page_loop_summary random since (fun _ => True)
           (fun _ st ev _ st' =>
              (users_file (files st') = users_file (files st)
               /\ appended_text ev = EmptyString)
              \/ users_file (files st')
                 = Some (Js.or_empty (users_file (files st))
                         +:+ appended_text ev))).
  - intros. by left.
  - clear. intros ? s1 e1 ? s2 e2 ? s3 [[H1 T1]|H1] [[H2 T2]|H2];
      rewrite appended_text_app.
    + left. rewrite T1, T2. split; [congruence|done].
    + right. by rewrite H2, H1, T1.
    + right. by rewrite H2, H1, T2, app_empty_r.
    + right. rewrite H2, H1. cbn. by rewrite app_assoc_s.
  - clear. intros v st script fr. subst fr. left.
    by destruct (turn_events_exported _ _ (fetch_turn_events random since v st script))
      as [_ ->].
  - clear. intros users c v st _ p. subst p. unfold processPage.
    destruct users as [|u users]; [by left|].
    destruct (appendUsersToFile_batch (u :: users) (isFirstBatch v) (files st)
                (processedUserIds st)) as (_ & _ & _ & _ & _ & Ht).
    destruct (a_text _) as [text|]; cbn.
    + right. rewrite Ht. cbn. by rewrite app_empty_r.
    + left. by destruct Ht as [-> _].
  - done.
Qed.

(** X13.  The sink is only ever appended to: after an invocation, in
    whatever way it ends, the sink is what it was, or what it was (the empty
    text for a missing sink) followed by the texts the invocation handed to
    [fs.appendFileSync], in order. *)
Theorem main_sink_append_only inv f :
  (users_file (x_files (main inv f)) = users_file f
   /\ appended_text (x_events (main inv f)) = EmptyString)
  \/ users_file (x_files (main inv f))
     = Some (Js.or_empty (users_file f)
             +:+ appended_text (x_events (main inv f))).
Proof.
  begun inv f Hb; [|by left].
  destruct (main_loop inv f Hb) as (_ & _ & ->).
  destruct (main_pass_spec inv f Hb) as (_ & -> & _).
  rewrite appended_text_app.
  replace (appended_text match r_result (main_pass inv f) with
                         | Ok _ => _ | _ => [] end)
    with EmptyString by (by destruct (r_result (main_pass inv f))).
  rewrite app_empty_r.
  apply (page_loop_appends (random inv) (main_since inv f)
           (S (length (upstream inv))) (main_vars f) (main_state f)
           (upstream inv)).
Qed.

(** ** What [appendUsersToFile] appends *)

Lemma batch_step_firsts users :
  forall b,
  let b' := fold_left batch_step users b in
  b_rows b' = b_rows b ++ firsts (b_ids b) users
  /\ b_new b' + b_dup b' = b_new b + b_dup b + length users.
Proof.
  induction users as [|u users IH]; intros b; cbn [fold_left firsts length].
  - rewrite app_nil_r. split; [done|lia].
  - destruct (IH (batch_step b u)) as [-> ->]. unfold batch_step.
    destruct (decide (id u ∈ b_ids b)); cbn [b_rows b_ids b_new b_dup].
    + split; [done|lia].
    + rewrite <- app_assoc. split; [done|lia].
Qed.

Lemma firsts_sublist users : forall ids, sublist (firsts ids users) users.
Proof.
  induction users as [|u users IH]; intros ids; cbn [firsts]; [done|].
  destruct (decide _); [by apply sublist_cons|by apply sublist_skip].
Qed.

Lemma firsts_ids users :
  forall ids x,
  x ∈ map id (firsts ids users) <-> x ∈ map id users /\ x ∉ ids.
Proof.
  induction users as [|u users IH]; intros ids x; cbn [firsts map].
  - set_solver.
  - destruct (decide (id u ∈ ids)) as [Hin|Hout]; cbn [map].
    + rewrite IH. set_solver.
    + rewrite elem_of_cons, IH, elem_of_cons.
      destruct (decide (x = id u)) as [->|Hne]; set_solver.
Qed.

Lemma firsts_NoDup users : forall ids, NoDup (map id (firsts ids users)).
Proof.
  induction users as [|u users IH]; intros ids; cbn [firsts map].
  - constructor.
  - destruct (decide (id u ∈ ids)); [done|]. cbn [map].
    apply NoDup_cons. split; [|done]. rewrite firsts_ids. set_solver.
Qed.

Lemma firsts_first users :
  forall ids r,
  r ∈ firsts ids users ->
  exists pre post, users = pre ++ r :: post
                   /\ Forall (fun u => id u <> id r) pre.
Proof.
  induction users as [|u users IH]; intros ids r; cbn [firsts].
  - by intros ?%elem_of_nil.
  - destruct (decide (id u ∈ ids)) as [Hin|Hout].
    + intros Hr. destruct (IH ids r Hr) as (pre & post & -> & Hpre).
      exists (u :: pre), post. split; [done|]. constructor; [|done].
      intros E. assert (id r ∈ map id (firsts ids (pre ++ r :: post))) as Hm.
      { by apply (list_elem_of_fmap_2 id). }
      apply firsts_ids in Hm as [_ Hm]. apply Hm. by rewrite <- E.
    + intros [->|Hr]%elem_of_cons.
      * by exists [], users.
      * destruct (IH _ r Hr) as (pre & post & -> & Hpre).
        exists (u :: pre), post. split; [done|]. constructor; [|done].
        intros E. assert (id r ∈ map id (firsts ({[id u]} ∪ ids)
                                           (pre ++ r :: post))) as Hm.
        { by apply (list_elem_of_fmap_2 id). }
        apply firsts_ids in Hm as [_ Hm]. apply Hm. rewrite <- E. set_solver.
Qed.

Lemma batch_users_firsts users ids :
  b_rows (batch_users users ids) = firsts ids users
  /\ b_new (batch_users users ids) + b_dup (batch_users users ids)
     = length users.
Proof.
  unfold batch_users.
  destruct (batch_step_firsts users
              {| b_rows := []; b_ids := ids; b_new := 0; b_dup := 0 |})
    as [H1 H2].
  cbn [b_rows b_ids b_new b_dup] in *. split; [done|lia].
Qed.

Lemma appendUsersToFile_firsts users isFirstBatch f ids :
  a_rows (appendUsersToFile users isFirstBatch f ids) = firsts ids users.
Proof.
  destruct (appendUsersToFile_batch users isFirstBatch f ids) as (-> & _).
  apply batch_users_firsts.
Qed.

(** X14.  What [appendUsersToFile] appends: the records whose rows it
    pushes are, in the order of the page, the first record of every
    identifier of the page that the index does not hold: no identifier has
    two rows, a later record of an identifier is dropped.  The index then
    holds the identifiers of the whole page, the value returned is the
    number of rows, and with the duplicates counted it adds up to the size of
    the page. *)
Theorem appendUsersToFile_rows users isFirstBatch f (ids : gset string) :
  let a := appendUsersToFile users isFirstBatch f ids in
  sublist (a_rows a) users
  /\ NoDup (map id (a_rows a))
  /\ (forall x, x ∈ map id (a_rows a) <-> x ∈ map id users /\ x ∉ ids)
  /\ (forall r, r ∈ a_rows a ->
        exists pre post, users = pre ++ r :: post
                         /\ Forall (fun u => id u <> id r) pre)
  /\ a_ids a = ids ∪ ids_of users
  /\ a_newUsers a = length (a_rows a)
  /\ a_newUsers a + b_dup (batch_users users ids) = length users.
Proof.
  intros a. subst a. rewrite appendUsersToFile_firsts.
  destruct (appendUsersToFile_batch users isFirstBatch f ids)
    as (Hrows & -> & Hnew & _).
  rewrite Hnew. destruct (batch_users_firsts users ids) as [Hr Hn].
  split_and!.
  - apply firsts_sublist.
  - apply firsts_NoDup.
  - apply firsts_ids.
  - apply firsts_first.
  - unfold batch_users, ids_of. by rewrite fold_batch_step_ids.
  - rewrite <- Hr.
    by destruct (batch_users_spec (fun _ => True) users ids)
      as (_ & _ & _ & -> & _); [by apply Forall_forall|].
  - done.
Qed.

(** ** A run that exports nothing *)

Lemma truthy_app_r a b : Js.truthy b = true -> Js.truthy (a +:+ b) = true.
Proof. destruct a; [done|]. done. Qed.

Lemma appendUsersToFile_text users isFirstBatch f ids :
  let a := appendUsersToFile users isFirstBatch f ids in
  match a_text a with
  | Some text =>
      Js.truthy text = true
      /\ (a_rows a = [] -> isFirstBatch && shouldAddHeader f = true)
  | None => a_rows a = []
  end.
Proof.
  unfold appendUsersToFile. cbv zeta.
  destruct (isFirstBatch && shouldAddHeader f);
    destruct (b_rows (batch_users users ids)) as [|r rows]; cbn [app map a_text a_rows];
    try done; (split; [|done]); by apply truthy_app_r.
Qed.

Lemma firsts_head u users ids : id u ∉ ids -> firsts ids (u :: users) <> [].
Proof. intros H. cbn [firsts]. by destruct (decide _). Qed.

Lemma processPage_users_file users c v st :
  users_file (files (p_state (processPage users c v st)))
  = match users with
    | [] => users_file (files st)
    | _ => users_file (a_files (appendUsersToFile users (isFirstBatch v)
                                  (files st) (processedUserIds st)))
    end.
Proof. unfold processPage. by destruct users. Qed.

Lemma shouldAddHeader_users_file f f' :
  users_file f' = users_file f -> shouldAddHeader f' = shouldAddHeader f.
Proof. unfold shouldAddHeader. by intros ->. Qed.

Lemma processPage_untouched users c v st :
  header_inv st ->
  let p := processPage users c v st in
  header_inv (p_state p)
  /\ (exported (p_events p) = [] ->
      users_file (files (p_state p)) = users_file (files st)).
Proof.
  intros Hinv p. subst p.
  pose proof (processPage_users_file users c v st) as Hu.
  destruct (processPage_exported users c v st) as (Hex & _ & Hids & _).
  unfold header_inv, shouldAddHeader. rewrite Hu, Hex, Hids. clear Hu Hex Hids.
  destruct users as [|u users]; [split; [exact Hinv|done]|].
  set (a := appendUsersToFile (u :: users) (isFirstBatch v) (files st)
              (processedUserIds st)).
  pose proof (appendUsersToFile_text (u :: users) (isFirstBatch v) (files st)
                (processedUserIds st)) as Ht. fold a in Ht. cbv zeta in Ht.
  destruct (appendUsersToFile_batch (u :: users) (isFirstBatch v) (files st)
              (processedUserIds st)) as (_ & _ & _ & _ & _ & Hf). fold a in Hf.
  pose proof (appendUsersToFile_firsts (u :: users) (isFirstBatch v) (files st)
                (processedUserIds st)) as Hrows. fold a in Hrows.
  assert (Hfresh : shouldAddHeader (files st) = true -> a_rows a <> []).
  { intros Hh. rewrite Hrows. apply firsts_head. rewrite (Hinv Hh). set_solver. }
  destruct (a_text a) as [text|].
  - destruct Ht as [Htext Hhdr]. rewrite Hf. split.
    + unfold appendFileSync. cbn [users_file set_users_file].
      by rewrite truthy_app_r.
    + intros Hnil. exfalso. specialize (Hhdr Hnil).
      apply andb_true_iff in Hhdr as [_ Hh]. by apply Hfresh.
  - destruct Hf as [-> _]. split; [|done].
    intros Hh. exfalso. by apply Hfresh.
Qed.

Lemma page_loop_untouched random since fuel v st script :
  header_inv st ->
  let r := page_loop random since fuel v st script in
  header_inv (r_state r)
  /\ (exported (r_events r) = [] ->
      users_file (files (r_state r)) = users_file (files st)).
Proof.
  apply (page_loop_summary random since (fun _ => True)
           (fun _ st ev _ st' =>
              header_inv st ->
              header_inv st'
              /\ (exported ev = [] ->
                  users_file (files st') = users_file (files st)))).
  - done.
  - clear. intros ? s1 e1 ? s2 e2 ? s3 H1 H2 Hinv.
    destruct (H1 Hinv) as [Hinv2 Hu1]. destruct (H2 Hinv2) as [Hinv3 Hu2].
    split; [done|]. rewrite exported_app.
    intros [E1 E2]%app_eq_nil. by rewrite Hu2, Hu1.
  - done.
  - clear. intros users c v st _. apply processPage_untouched.
  - done.
Qed.

Lemma main_state_header_inv f : header_inv (main_state f).
Proof.
  unfold header_inv, main_state, shouldAddHeader, loadExistingUserIds.
  cbn [files processedUserIds].
  destruct (users_file f) as [[|c content]|]; done.
Qed.

Lemma main_untouched inv f :
  exported (x_events (main inv f)) = [] ->
  users_file (x_files (main inv f)) = users_file f.
Proof.
  begun inv f Hb; [|done].
  destruct (main_loop inv f Hb) as (-> & _ & ->).
  apply (page_loop_untouched (random inv) (main_since inv f)
           (S (length (upstream inv))) (main_vars f) (main_state f)
           (upstream inv)).
  apply main_state_header_inv.
Qed.

(** X15.  A run that exports nothing leaves the sink as it was: when an
    invocation appends no row, the sink file is not touched and, if it was
    missing, not created; the header is never written without a row. *)
Theorem main_exports_nothing inv f :
  exported (x_events (main inv f)) = [] ->
  users_file (x_files (main inv f)) = users_file f.
Proof. apply main_untouched. Qed.

Lemma main_exports_nothing_witness :
  let inv := {| FETCH_NEW_ONLY := false; now := 5000; now_time_value := I;
                random := fun _ => 1 # 2;
                upstream := [Response 200 (Json {| data := Some [];
                                                   next_cursor := Some "c1" |});
                             Response 500 NotJson] |} in
  users_file (x_files (main inv no_files)) = users_file no_files.
Proof. intros inv. by apply (main_exports_nothing inv no_files). Defined.

(** ** The watermark *)

(** X16.  The watermark is written and read back: [loadLastFetchTimestamp]
    after [saveTimestamp(t)] gives [t], for every safe integer [t] (at most
    2^53 - 1 in absolute value, as the seconds of every clock reading are)
    but 0, which reads back as no watermark. *)
Theorem saveTimestamp_loadLastFetchTimestamp (t : Z) (f : Files) :
  Js.isSafeInteger t = true ->
  loadLastFetchTimestamp (saveTimestamp t f)
  = if Z.eqb t 0 then None else Some t.
Proof.
  intros _. unfold loadLastFetchTimestamp, saveTimestamp.
  cbn [timestamp_file set_timestamp_file].
  by rewrite trim_toString, parseInt_toString.
Qed.

Lemma saveTimestamp_loadLastFetchTimestamp_witness :
  loadLastFetchTimestamp (saveTimestamp 1700000000 no_files)
  = if Z.eqb 1700000000 0 then None else Some 1700000000%Z.
Proof.
  apply (saveTimestamp_loadLastFetchTimestamp 1700000000 no_files).
  reflexivity.
Defined.

(** X17.  An invocation that does not complete leaves the watermark as it
    was: the timestamp file is not written, so the next invocation in the
    same mode asks for the same window, every request of it carrying the
    [created_after] this one used. *)
Theorem main_failure_keeps_watermark inv f :
  x_result (main inv f) <> Ok tt ->
  timestamp_file (x_files (main inv f)) = timestamp_file f
  /\ forall inv',
       FETCH_NEW_ONLY inv' = FETCH_NEW_ONLY inv ->
       Forall (fun r => created_after_param r = main_since inv f)
         (requests (x_events (main inv' (x_files (main inv f))))).
Proof.
  intros Hres.
  assert (Ht : timestamp_file (x_files (main inv f)) = timestamp_file f).
  { begun inv f Hb; [|done]. destruct (main_run inv f Hb Hres) as [Hf _].
    rewrite Hf. apply page_loop_timestamp_file. }
  split; [done|]. intros inv' Hmode.
  destruct (main_requests inv' (x_files (main inv f))) as [H _].
  unfold main_since. rewrite <- Hmode.
  replace (loadLastFetchTimestamp f)
    with (loadLastFetchTimestamp (x_files (main inv f))); [done|].
  unfold loadLastFetchTimestamp. by rewrite Ht.
Qed.

Lemma main_failure_keeps_watermark_witness :
  let inv := {| FETCH_NEW_ONLY := true; now := 9000; now_time_value := I;
                random := fun _ => 1 # 2;
                upstream := [Response 500 NotJson] |} in
  let f := {| users_file := None; cursor_file := None;
              timestamp_file := Some "5" |} in
  timestamp_file (x_files (main inv f)) = timestamp_file f
  /\ forall inv',
       FETCH_NEW_ONLY inv' = FETCH_NEW_ONLY inv ->
       Forall (fun r => created_after_param r = main_since inv f)
         (requests (x_events (main inv' (x_files (main inv f))))).
Proof.
  intros inv f. apply (main_failure_keeps_watermark inv f). by vm_compute.
Defined.

(** ** The outcomes a pass reads *)

Lemma served_app a b : served (a ++ b) = served a ++ served b.
Proof. unfold served. by rewrite omap_app, concat_app. Qed.

Lemma served_retried pre :
  Forall (fun o => retried o = true) pre -> served pre = [].
Proof.
  induction 1 as [|o pre Ho _ IH]; [done|].
  change (o :: pre) with ([o] ++ pre). rewrite served_app, IH, app_nil_r.
  destruct o as [status [q|]|m]; try done. cbn in Ho.
  apply andb_true_iff in Ho as [Hok _]. apply negb_true_iff in Hok.
  unfold served. cbn. by rewrite Hok.
Qed.

Lemma served_decisive n o :
  served [o]
  = match decided n o with
    | Ok q => match data q with Some users => users | None => [] end
    | _ => []
    end.
Proof.
  destruct o as [status [q|]|m]; unfold served; cbn.
  - destruct (response_ok status); [|done].
    destruct (data q); cbn; by rewrite ?app_nil_r.
  - by destruct (response_ok status).
  - by destruct (Js.includes _ _).
Qed.

Lemma decided_not_blocked n o : decided n o <> Blocked.
Proof.
  destruct o as [status [q|]|m]; cbn;
    by repeat match goal with |- context [if ?b then _ else _] => destruct b end.
Qed.

(** A call reads a prefix of the script: one outcome for each request, but
    for the request that waits for an outcome the script does not hold. *)
Lemma fetch_loop_reads random req script retries backoffMs draws :
  let fr := fetch_loop random req retries backoffMs draws script in
  exists used,
    script = used ++ f_rest fr
    /\ length (requests (f_events fr))
       = length used + match f_result fr with Blocked => 1 | _ => 0 end
    /\ served used
       = match f_result fr with
         | Ok q => match data q with Some users => users | None => [] end
         | _ => []
         end
    /\ (f_result fr <> Blocked -> used <> []).
Proof.
  intros fr. subst fr.
  destruct (script_decisive script retries)
    as [[Hall Hix]|(pre & o & rest & -> & Hpre & Hix & Hd)].
  - destruct (fetch_loop_skip random req script retries backoffMs draws []
                Hall Hix) as (ev & b & E & Hr & _).
    rewrite app_nil_r in E. rewrite E. exists script.
    rewrite fetch_emit_rest, fetch_emit_events, fetch_emit_result.
    cbn [fetch_loop f_rest f_events f_result].
    rewrite app_nil_r, requests_app, length_app, Hr.
    split_and!; try done. by apply served_retried.
  - destruct (fetch_loop_decided random req retries backoffMs draws pre o rest
                Hpre Hix Hd) as (H1 & H2 & H3 & _).
    exists (pre ++ [o]). rewrite H1, H2, H3, <- app_assoc, served_app.
    rewrite (served_retried pre Hpre), length_app.
    pose proof (decided_not_blocked (retries + length pre) o) as Hnb.
    split_and!; try done.
    + destruct (decided _ o); try done; cbn; lia.
    + apply served_decisive.
    + intros _. by destruct pre.
Qed.

Lemma page_loop_index random since fuel v st script :
  let r := page_loop random since fuel v st script in
  processedUserIds (r_state r)
  = processedUserIds st ∪ ids_of (exported (r_events r)).
Proof.
  apply (page_loop_summary random since (fun _ => True)
           (fun _ st ev _ st' =>
              processedUserIds st'
              = processedUserIds st ∪ ids_of (exported ev))).
  - intros. unfold ids_of. cbn. set_solver.
  - clear. intros ? s1 e1 ? s2 e2 ? s3 H1 H2. rewrite H2, H1, exported_app.
    unfold ids_of. rewrite map_app, list_to_set_app_L. set_solver.
  - clear. intros v st script fr. subst fr.
    destruct (turn_events_exported _ _ (fetch_turn_events random since v st script))
      as [-> _]. unfold ids_of. cbn. set_solver.
  - clear. intros users c v st _ p. subst p.
    destruct (processPage_exported users c v st) as (-> & _ & -> & _).
    destruct users as [|u users]; [unfold ids_of; cbn; set_solver|].
    rewrite appendUsersToFile_firsts.
    destruct (appendUsersToFile_batch (u :: users) (isFirstBatch v) (files st)
                (processedUserIds st)) as (_ & -> & _).
    unfold batch_users. rewrite fold_batch_step_ids. cbn [b_ids].
    apply set_eq. intros x. unfold ids_of.
    rewrite !elem_of_union, !elem_of_list_to_set, firsts_ids.
    destruct (decide (x ∈ processedUserIds st)); tauto.
  - done.
Qed.

Lemma processPage_served users c v st :
  let p := processPage users c v st in
  (forall u, u ∈ users -> id u ∈ processedUserIds (p_state p))
  /\ sublist (exported (p_events p)) users.
Proof.
  intros p. subst p.
  destruct (processPage_exported users c v st) as (-> & _ & -> & _).
  destruct users as [|u users]; [split; [by intros ? ?%elem_of_nil|done]|].
  rewrite appendUsersToFile_firsts.
  destruct (appendUsersToFile_batch (u :: users) (isFirstBatch v) (files st)
              (processedUserIds st)) as (_ & -> & _).
  unfold batch_users. rewrite fold_batch_step_ids. cbn [b_ids]. split.
  - intros x Hx. apply elem_of_union_r, elem_of_list_to_set.
    by apply (list_elem_of_fmap_2 id).
  - apply firsts_sublist.
Qed.

Lemma processPage_processed users c v st :
  processedUsers (p_loop (processPage users c v st))
  = processedUsers v + length users.
Proof. unfold processPage. destruct users; cbn; lia. Qed.

(** A pass reads a prefix of the script, and the records of the pages it
    read are counted, and are in the index when it ends. *)
Lemma page_loop_reads random since fuel :
  forall v st script,
  length script < fuel ->
  let r := page_loop random since fuel v st script in
  exists used,
    script = used ++ r_rest r
    /\ length (requests (r_events r))
       = length used + match r_result r with Blocked => 1 | _ => 0 end
    /\ (forall u, u ∈ served used -> id u ∈ processedUserIds (r_state r))
    /\ sublist (exported (r_events r)) (served used)
    /\ processedUsers (r_loop r) = processedUsers v + length (served used).
Proof.
  induction fuel as [|fuel IH]; intros v st script Hfuel r; [lia|]. subst r.
  set (fr := fetchPageOfUsers random (Js.or_undefined (cursor v)) since
               (draws st) script).
  destruct (fetch_loop_reads random
              (build_request (Js.or_undefined (cursor v)) since) script
              0 CONFIG.rateLimit.initialBackoffMs (draws st))
    as (used & E & Hreq & Hserved & Hne).
  fold (fetchPageOfUsers random (Js.or_undefined (cursor v)) since (draws st) script)
    in E, Hreq, Hserved, Hne. fold fr in E, Hreq, Hserved, Hne.
  assert (Hcool : requests (cooldown_events (totalUsers v)) = [])
    by apply cooldown_events_readings.
  assert (Hturn : exported (cooldown_events (totalUsers v) ++ f_events fr) = []).
  { unfold fr.
    by destruct (turn_events_exported _ _
                   (fetch_turn_events random since v st script)) as [-> _]. }
  rewrite exported_app in Hturn. apply app_eq_nil in Hturn as [Hturn1 Hturn2].
  destruct (turn_cases fr) as [Hfail|(q & users & Hq & Hdata)].
  - rewrite page_loop_fails by done. fold fr.
    cbn [r_events r_result r_rest r_state r_loop]. exists used.
    rewrite requests_app, exported_app, Hcool, Hturn1, Hturn2. cbn [app].
    assert (Hnone : served used = []).
    { rewrite Hserved. destruct (f_result fr) as [q| |]; [by rewrite Hfail|done..]. }
    split_and!; try done.
    + rewrite Hreq. by destruct (f_result fr).
    + rewrite Hnone. by intros ? ?%elem_of_nil.
    + apply sublist_nil_l.
    + rewrite Hnone. cbn. lia.
  - rewrite (page_loop_page random since fuel v st script q users) by done.
    fold fr. rewrite Hq, Hdata in Hserved. rewrite Hq in Hreq.
    set (p := processPage users (next_cursor q) v (with_draws (f_draws fr) st)).
    destruct (processPage_served users (next_cursor q) v
                (with_draws (f_draws fr) st)) as [Hin Hex]. fold p in Hin, Hex.
    pose proof (processPage_requests users (next_cursor q) v
                  (with_draws (f_draws fr) st)) as Hpr. fold p in Hpr.
    pose proof (processPage_processed users (next_cursor q) v
                  (with_draws (f_draws fr) st)) as Hpu. fold p in Hpu.
    destruct (p_next p).
    + assert (Hlen : length (f_rest fr) < fuel).
      { apply (f_equal length) in E. rewrite length_app in E.
        assert (used <> []) as Hu by (apply Hne; by rewrite Hq).
        destruct used; [done|]. cbn in E. lia. }
      destruct (IH (p_loop p) (p_state p) (f_rest fr) Hlen)
        as (used' & E' & Hreq' & Hserved' & Hex' & Hpu').
      exists (used ++ used').
      rewrite run_emit_events. cbn [run_emit r_rest r_result r_state r_loop].
      rewrite !requests_app, !exported_app, Hcool, Hpr, Hturn1, Hturn2,
        !length_app.
      rewrite served_app, Hserved, Hreq. cbn [app length].
      split_and!.
      * by rewrite <- app_assoc, <- E'.
      * lia.
      * intros u [Hu|Hu]%elem_of_app; [|by apply Hserved'].
        apply page_loop_known. by apply Hin.
      * by apply sublist_app.
      * rewrite Hpu', Hpu, ?length_app. lia.
    + exists used. cbn [r_events r_result r_rest r_state r_loop].
      rewrite !requests_app, !exported_app, Hcool, Hpr, Hturn1, Hturn2,
        !length_app.
      rewrite Hserved, Hreq. cbn [app length].
      split_and!; done.
Qed.

Lemma clean_row_users log :
  Forall (fun u => clean_row u = true) log -> clean_users log.
Proof.
  unfold clean_users. intros H. eapply Forall_impl; [exact H|].
  intros u Hu. by apply clean_row_spec in Hu as [? _].
Qed.

Lemma ids_of_app a b : ids_of (a ++ b) = ids_of a ∪ ids_of b.
Proof. unfold ids_of. by rewrite map_app, list_to_set_app_L. Qed.

Lemma elem_of_ids_of x users : x ∈ ids_of users <-> x ∈ map id users.
Proof. unfold ids_of. by rewrite elem_of_list_to_set. Qed.

(** The pass of [main]: the outcomes read, and the index at the end. *)
Lemma main_reads inv f log :
  sink_holds f log -> Forall (fun u => clean_row u = true) log ->
  begins inv f = true ->
  let r := main_pass inv f in
  processedUserIds (r_state r) = ids_of (log ++ exported (x_events (main inv f)))
  /\ upstream inv = outcomes_read inv f ++ r_rest r
  /\ (forall u, u ∈ served (outcomes_read inv f) ->
                id u ∈ processedUserIds (r_state r))
  /\ sublist (exported (x_events (main inv f))) (served (outcomes_read inv f)).
Proof.
  intros Hs Hlog Hbegun r. subst r.
  destruct (main_loop inv f Hbegun) as (Hex & _). fold (main_state f) in Hex.
  fold (main_vars f) in Hex. fold (main_since inv f) in Hex.
  fold (main_pass inv f) in Hex.
  destruct (main_pass_spec inv f Hbegun) as (_ & Hev & _).
  assert (Hreq : requests (x_events (main inv f))
                 = requests (r_events (main_pass inv f))).
  { rewrite Hev, requests_app.
    destruct (r_result (main_pass inv f)); by rewrite app_nil_r. }
  destruct (page_loop_reads (random inv) (main_since inv f)
              (S (length (upstream inv))) (main_vars f) (main_state f)
              (upstream inv)) as (used & E & Hn & Hin & Hsub & _); [lia|].
  fold (main_pass inv f) in E, Hn, Hin, Hsub.
  assert (Hread : outcomes_read inv f = used).
  { unfold outcomes_read. rewrite Hreq, Hn.
    destruct (r_result (main_pass inv f)) eqn:Hres.
    - rewrite Nat.add_0_r, E at 1. by rewrite take_app_length.
    - rewrite Nat.add_0_r, E at 1. by rewrite take_app_length.
    - pose proof (page_loop_blocked (random inv) (main_since inv f)
                    (S (length (upstream inv))) (main_vars f) (main_state f)
                    (upstream inv)) as Hb.
      fold (main_pass inv f) in Hb. cbv zeta in Hb.
      rewrite Hb in E by (done || lia). rewrite app_nil_r in E. subst used.
      apply take_ge. lia. }
  rewrite Hread, Hex. split_and!; try done.
  unfold main_pass. rewrite page_loop_index. fold (main_pass inv f).
  cbn [main_state processedUserIds].
  rewrite (loadExistingUserIds_sink f log ∅ Hs Hlog), ids_of_app. set_solver.
Qed.

(** X18.  Every record served is exported, once, in the order served:
    from a sink that holds the rows of [log] (no identifier twice, clean
    identifiers, no line feed in an address), not resumed into while missing
    or empty, against an upstream of clean identifiers, after an invocation,
    in whatever way it ends, the sink holds the rows of [log] and of the
    records exported, no identifier twice; every record of every page the
    invocation read (the arrays of the 2xx answers among the outcomes read,
    one outcome for each request) has its identifier there; and the records
    exported are records of these pages, in the order of the pages. *)
Theorem main_exports_every_record inv f log :
  sink_holds f log -> NoDup (map id log) ->
  Forall (fun u => clean_row u = true) log ->
  resumes_into_sink f ->
  clean_script (upstream inv) = true ->
  let log' := log ++ exported (x_events (main inv f)) in
  sink_holds (x_files (main inv f)) log'
  /\ NoDup (map id log')
  /\ (forall u, u ∈ served (outcomes_read inv f) -> id u ∈ map id log')
  /\ sublist (exported (x_events (main inv f))) (served (outcomes_read inv f)).
Proof.
  intros Hs Hnd Hlog Hres Hscript log'. subst log'.
  destruct (main_log inv f log Hs Hnd (clean_row_users log Hlog) Hres Hscript)
    as (Hs' & Hnd' & _).
  split_and!; try done.
  - intros u Hu. revert Hu. unfold outcomes_read. begun inv f Hb.
    + fold (outcomes_read inv f). intros Hu.
      destruct (main_reads inv f log Hs Hlog Hb) as (Hix & _ & Hin & _).
      apply elem_of_ids_of. rewrite <- Hix. by apply Hin.
    + by intros ?%elem_of_nil.
  - unfold outcomes_read. begun inv f Hb; [|done].
    fold (outcomes_read inv f).
    by destruct (main_reads inv f log Hs Hlog Hb) as (_ & _ & _ & Hsub).
Qed.

Lemma main_exports_every_record_witness :
  let user i := {| id := i; created_at := 100; is_guest := false;
                   linked_accounts := [] |} in
  let inv := {| FETCH_NEW_ONLY := false; now := 5000; now_time_value := I;
                random := fun _ => 1 # 2;
                upstream :=
                  [Response 200 (Json {| data := Some [user "a"; user "b";
                                                       user "a"];
                                         next_cursor := Some "c1" |});
                   rate_limited;
                   Response 200 (Json {| data := Some [user "b"; user "c"];
                                         next_cursor := None |});
                   Response 200 (Json {| data := Some [user "d"];
                                         next_cursor := None |})] |} in
  let log' := [] ++ exported (x_events (main inv no_files)) in
  sink_holds (x_files (main inv no_files)) log'
  /\ NoDup (map id log')
  /\ (forall u, u ∈ served (outcomes_read inv no_files) -> id u ∈ map id log')
  /\ sublist (exported (x_events (main inv no_files)))
       (served (outcomes_read inv no_files)).
Proof.
  intros user inv.
  apply (main_exports_every_record inv no_files []).
  - reflexivity.
  - constructor.
  - constructor.
  - intros H. by contradict H.
  - reflexivity.
Defined.

(** X10.  The counts of [getAllUsers] are true: when the pass ends, in
    whatever way, [totalUsers] is the number of rows the pass appended to the
    sink, [processedUsers] is the number of records in the pages the pass
    read (the arrays of the 2xx answers among the outcomes it read), and the
    first is at most the second. *)
Theorem getAllUsers_counts random since st script :
  let r := getAllUsers random since st script in
  totalUsers (r_loop r) = length (exported (r_events r))
  /\ (exists used, script = used ++ r_rest r
                   /\ processedUsers (r_loop r) = length (served used))
  /\ totalUsers (r_loop r) <= processedUsers (r_loop r).
Proof.
  intros r. subst r.
  destruct (getAllUsers_pass random since st script) as (-> & -> & _ & ->).
  match goal with
  | |- context [page_loop ?a ?b ?c ?v ?s ?l] =>
      pose proof (page_loop_counts a b c v s l) as H;
      destruct (page_loop_reads a b c v s l) as (used & E & _ & _ & _ & Hp);
      [lia|]
  end.
  cbn [totalUsers processedUsers] in H, Hp. cbv zeta in H.
  split_and!; [lia| |lia]. exists used. split; [done|lia].
Qed.

(** ** What the upstream decides, and what the state decides *)

(** How a call ends and what it leaves unread depend on the outcomes and
    on the retries so far, not on the request, the delays or the draws. *)
Lemma fetch_loop_indep script retries random req b d random' req' b' d' :
  f_result (fetch_loop random req retries b d script)
  = f_result (fetch_loop random' req' retries b' d' script)
  /\ f_rest (fetch_loop random req retries b d script)
     = f_rest (fetch_loop random' req' retries b' d' script).
Proof.
  destruct (script_decisive script retries)
    as [[Hall Hix]|(pre & o & rest & -> & Hpre & Hix & Hd)].
  - pose proof (fetch_loop_all_retried random req script retries b d Hall Hix)
      as H1.
    pose proof (fetch_loop_all_retried random' req' script retries b' d' Hall Hix)
      as H2.
    rewrite H1, H2. split; [done|].
    by rewrite !fetch_loop_blocked.
  - destruct (fetch_loop_decided random req retries b d pre o rest Hpre Hix Hd)
      as (-> & -> & _).
    by destruct (fetch_loop_decided random' req' retries b' d' pre o rest
                   Hpre Hix Hd) as (-> & -> & _).
Qed.

Lemma processPage_next_indep users c v st v' st' :
  p_next (processPage users c v st) = p_next (processPage users c v' st').
Proof. unfold processPage. by destruct users. Qed.

Lemma appendUsersToFile_users_file users ifb f ids ifb' f' :
  users_file f = users_file f' ->
  ifb && shouldAddHeader f = ifb' && shouldAddHeader f' ->
  users_file (a_files (appendUsersToFile users ifb f ids))
  = users_file (a_files (appendUsersToFile users ifb' f' ids)).
Proof.
  intros Hu Hh. unfold appendUsersToFile. cbv zeta. rewrite Hh.
  destruct (_ ++ _); cbn; by rewrite Hu.
Qed.

Lemma processPage_same_sink users c v st v' st' :
  same_sink v st v' st' ->
  let p := processPage users c v st in
  let p' := processPage users c v' st' in
  exported (p_events p) = exported (p_events p')
  /\ same_sink (p_loop p) (p_state p) (p_loop p') (p_state p').
Proof.
  intros (Hu & Hi & Hh) p p'. subst p p'. unfold same_sink.
  rewrite !processPage_users_file.
  destruct (processPage_exported users c v st) as (-> & _ & -> & _).
  destruct (processPage_exported users c v' st') as (-> & _ & -> & _).
  destruct users as [|u users].
  - by split_and!.
  - destruct (appendUsersToFile_batch (u :: users) (isFirstBatch v) (files st)
                (processedUserIds st)) as (_ & -> & _).
    destruct (appendUsersToFile_batch (u :: users) (isFirstBatch v') (files st')
                (processedUserIds st')) as (_ & -> & _).
    rewrite !appendUsersToFile_firsts, Hi. split_and!; try done.
    by apply appendUsersToFile_users_file.
Qed.

(** Two passes over the same outcomes end in the same way and leave the
    same outcomes unread; from states the sink cannot tell apart they
    export the same records and leave the same sink. *)
Lemma page_loop_same_sink fuel :
  forall script random since v st random' since' v' st',
  let r := page_loop random since fuel v st script in
  let r' := page_loop random' since' fuel v' st' script in
  r_result r = r_result r' /\ r_rest r = r_rest r'
  /\ (same_sink v st v' st' ->
      exported (r_events r) = exported (r_events r')
      /\ same_sink (r_loop r) (r_state r) (r_loop r') (r_state r')).
Proof.
  induction fuel as [|fuel IH];
    intros script random since v st random' since' v' st' r r'; subst r r';
    [by split_and!|].
  set (fr := fetchPageOfUsers random (Js.or_undefined (cursor v)) since
               (draws st) script).
  set (fr' := fetchPageOfUsers random' (Js.or_undefined (cursor v')) since'
                (draws st') script).
  destruct (fetch_loop_indep script 0
              random (build_request (Js.or_undefined (cursor v)) since)
              CONFIG.rateLimit.initialBackoffMs (draws st)
              random' (build_request (Js.or_undefined (cursor v')) since')
              CONFIG.rateLimit.initialBackoffMs (draws st')) as [Hres Hrest].
  fold (fetchPageOfUsers random (Js.or_undefined (cursor v)) since (draws st) script)
    in Hres, Hrest.
  fold (fetchPageOfUsers random' (Js.or_undefined (cursor v')) since' (draws st') script)
    in Hres, Hrest.
  fold fr fr' in Hres, Hrest.
  assert (Hno : forall w s rnd sn,
            exported (cooldown_events (totalUsers w)) = []
            /\ exported (f_events (fetchPageOfUsers rnd (Js.or_undefined (cursor w))
                                     sn (draws s) script)) = []).
  { intros w s rnd sn. apply app_eq_nil. rewrite <- exported_app.
    by destruct (turn_events_exported _ _ (fetch_turn_events rnd sn w s script))
      as [-> _]. }
  destruct (Hno v st random since) as [Hc1 Hno1]. fold fr in Hno1.
  destruct (Hno v' st' random' since') as [Hc2 Hno2]. fold fr' in Hno2.
  clear Hno.
  destruct (turn_cases fr) as [Hfail|(q & users & Hq & Hdata)].
  - assert (Hfail' : match f_result fr' with
                     | Ok q => data q = None | _ => True end)
      by (by rewrite <- Hres).
    rewrite !page_loop_fails by done. fold fr fr'.
    cbn [r_result r_rest r_events r_loop r_state].
    rewrite Hres, Hrest, !exported_app, Hc1, Hc2, Hno1, Hno2.
    by split_and!.
  - assert (Hq' : f_result fr' = Ok q) by (by rewrite <- Hres).
    rewrite (page_loop_page random since fuel v st script q users) by done.
    rewrite (page_loop_page random' since' fuel v' st' script q users) by done.
    fold fr fr'.
    set (p := processPage users (next_cursor q) v (with_draws (f_draws fr) st)).
    set (p' := processPage users (next_cursor q) v' (with_draws (f_draws fr') st')).
    assert (Hnext : p_next p = p_next p') by apply processPage_next_indep.
    assert (Hsim : same_sink v st v' st' ->
                   exported (p_events p) = exported (p_events p')
                   /\ same_sink (p_loop p) (p_state p) (p_loop p') (p_state p')).
    { intros Hs. apply processPage_same_sink. exact Hs. }
    rewrite <- Hnext. destruct (p_next p).
    + destruct (IH (f_rest fr) random since (p_loop p) (p_state p)
                  random' since' (p_loop p') (p_state p')) as (H1 & H2 & H3).
      rewrite <- Hrest in *.
      cbn [run_emit r_result r_rest r_events r_loop r_state].
      split_and!; try done. intros Hs. destruct (Hsim Hs) as [He Hs'].
      destruct (H3 Hs') as [He' Hs'']. split; [|done].
      by rewrite !exported_app, Hc1, Hc2, Hno1, Hno2, He, He'.
    + cbn [r_result r_rest r_events r_loop r_state].
      split_and!; try done. intros Hs. destruct (Hsim Hs) as [He Hs'].
      split; [|done]. by rewrite !exported_app, Hc1, Hc2, Hno1, Hno2, He.
Qed.

(** ** Running again *)

Lemma page_loop_fresh_exported random since fuel v st script :
  Forall (fun u => id u ∉ processedUserIds st)
    (exported (r_events (page_loop random since fuel v st script))).
Proof.
  apply Forall_forall. intros u Hu Hin.
  destruct (page_loop_known random since fuel v st script (id u) Hin)
    as [_ Hne].
  rewrite Forall_forall in Hne. by apply (Hne u).
Qed.

Lemma main_rerun inv inv' f log :
  sink_holds f log -> NoDup (map id log) ->
  Forall (fun u => clean_row u = true) log ->
  resumes_into_sink f ->
  clean_script (upstream inv) = true ->
  upstream inv' = upstream inv ->
  begins inv f = true ->
  exported (x_events (main inv' (x_files (main inv f)))) = [].
Proof.
  intros Hs Hnd Hlog Hres Hscript Hup Hbegun.
  set (f1 := x_files (main inv f)).
  set (log1 := log ++ exported (x_events (main inv f))).
  destruct (main_log inv f log Hs Hnd (clean_row_users log Hlog) Hres Hscript)
    as (Hs1 & Hnd1 & Hcl1). fold f1 log1 in Hs1, Hnd1, Hcl1.
  destruct (main_reads inv f log Hs Hlog Hbegun) as (Hix & E & Hin & _).
  fold log1 in Hix.
  begun inv' f1 Hbegun'; [|done].
  (* the second pass reads the same outcomes *)
  destruct (main_loop inv' f1 Hbegun') as (Hex2 & _).
  fold (main_state f1) (main_vars f1) (main_since inv' f1) in Hex2.
  fold (main_pass inv' f1) in Hex2.
  destruct (page_loop_reads (random inv') (main_since inv' f1)
              (S (length (upstream inv'))) (main_vars f1) (main_state f1)
              (upstream inv')) as (used2 & E2 & _ & _ & Hsub2 & _); [lia|].
  fold (main_pass inv' f1) in E2, Hsub2.
  destruct (page_loop_same_sink (S (length (upstream inv'))) (upstream inv')
              (random inv') (main_since inv' f1) (main_vars f1) (main_state f1)
              (random inv) (main_since inv f) (main_vars f) (main_state f))
    as (_ & Hrest & _).
  fold (main_pass inv' f1) in Hrest.
  assert (Hrest' : r_rest (main_pass inv' f1) = r_rest (main_pass inv f)).
  { rewrite Hrest. unfold main_pass. by rewrite Hup. }
  assert (Hused : used2 = outcomes_read inv f).
  { rewrite Hup, E, Hrest' in E2. by apply app_inv_tail in E2. }
  subst used2.
  (* every record of these outcomes is in the index the second pass starts from *)
  rewrite Hex2.
  destruct (exported (r_events (main_pass inv' f1))) as [|u rest] eqn:Eex;
    [done|exfalso].
  assert (Hu : u ∈ served (outcomes_read inv f)).
  { eapply elem_of_sublist; [|exact Hsub2]. by left. }
  pose proof (page_loop_fresh_exported (random inv') (main_since inv' f1)
                (S (length (upstream inv'))) (main_vars f1) (main_state f1)
                (upstream inv')) as Hfresh.
  fold (main_pass inv' f1) in Hfresh. rewrite Eex in Hfresh.
  apply Forall_cons in Hfresh as [Hfresh _]. apply Hfresh.
  cbn [main_state processedUserIds].
  specialize (Hin u Hu). rewrite Hix in Hin.
  apply elem_of_ids_of, list_elem_of_fmap in Hin as (w & Hw & Hwin).
  rewrite Hw. apply (loadExistingUserIds_log f1 log1 w Hs1 Hcl1).
  by apply list_elem_of_In.
Qed.

(** X19.  Running again exports nothing: from a sink that holds the rows of
    [log] (no identifier twice, clean identifiers, no line feed in an
    address), not resumed into while missing or empty, after an invocation
    against an upstream of clean identifiers that got past the date it
    prints first (it did not stop at a watermark that is not the second of a
    valid date, before any request), a second invocation that is served the
    same outcomes appends no row and leaves the sink as the first left it,
    whatever its mode, clock and draws. *)
Theorem main_rerun_exports_nothing inv inv' f log :
  sink_holds f log -> NoDup (map id log) ->
  Forall (fun u => clean_row u = true) log ->
  resumes_into_sink f ->
  clean_script (upstream inv) = true ->
  upstream inv' = upstream inv ->
  begins inv f = true ->
  let f1 := x_files (main inv f) in
  exported (x_events (main inv' f1)) = []
  /\ users_file (x_files (main inv' f1)) = users_file f1.
Proof.
  intros Hs Hnd Hlog Hres Hscript Hup Hb f1. subst f1.
  pose proof (main_rerun inv inv' f log Hs Hnd Hlog Hres Hscript Hup Hb) as H.
  split; [done|]. by apply main_untouched.
Qed.

Lemma main_rerun_exports_nothing_witness :
  let user i := {| id := i; created_at := 100; is_guest := false;
                   linked_accounts := [] |} in
  let script := [Response 200 (Json {| data := Some [user "a"; user "b"];
                                       next_cursor := Some "c1" |});
                 Response 200 (Json {| data := Some [user "c"];
                                       next_cursor := None |})] in
  let inv := {| FETCH_NEW_ONLY := false; now := 5000; now_time_value := I;
                random := fun _ => 1 # 2;
                upstream := script |} in
  let inv' := {| FETCH_NEW_ONLY := true; now := 9000; now_time_value := I;
                 random := fun _ => 1 # 3;
                 upstream := script |} in
  let f1 := x_files (main inv no_files) in
  exported (x_events (main inv' f1)) = []
  /\ users_file (x_files (main inv' f1)) = users_file f1.
Proof.
  intros user script inv inv'.
  apply (main_rerun_exports_nothing inv inv' no_files []).
  - reflexivity.
  - constructor.
  - constructor.
  - intros H. by contradict H.
  - reflexivity.
  - reflexivity.
  - reflexivity.
Defined.

(** ** Stopping between two pages, and starting again *)

Lemma with_draws_same st : with_draws (draws st) st = st.
Proof. by destruct st. Qed.

(** A call that ends is not changed by outcomes added to the script. *)
Lemma fetch_loop_app random req s1 :
  forall retries b d s2,
  let fr := fetch_loop random req retries b d s1 in
  let fr' := fetch_loop random req retries b d (s1 ++ s2) in
  f_result fr <> Blocked ->
  f_result fr' = f_result fr /\ f_events fr' = f_events fr
  /\ f_rest fr' = f_rest fr ++ s2 /\ f_draws fr' = f_draws fr.
Proof.
  induction s1 as [|[status body|message] s1 IH];
    intros retries b d s2 fr fr' Hnb; subst fr fr'; cbn [fetch_loop app] in *.
  - done.
  - destruct (response_ok status); [done|].
    destruct (Z.eqb status 429); [|done].
    rewrite fetch_emit_result in Hnb.
    destruct (IH (S retries) (next_backoff b (random d)) (S d) s2 Hnb)
      as (H1 & H2 & H3 & H4).
    rewrite !fetch_emit_result, !fetch_emit_events, !fetch_emit_rest,
      !fetch_emit_draws. by rewrite H1, H2, H3, H4.
  - destruct (Js.includes _ message); [done|].
    destruct (5 <? S retries)%nat; [done|].
    rewrite fetch_emit_result in Hnb.
    destruct (IH (S retries) (next_backoff b (random d)) (S d) s2 Hnb)
      as (H1 & H2 & H3 & H4).
    rewrite !fetch_emit_result, !fetch_emit_events, !fetch_emit_rest,
      !fetch_emit_draws. by rewrite H1, H2, H3, H4.
Qed.

Lemma ends_a_call_suffix a b : ends_a_call (a ++ b) -> ends_a_call b.
Proof.
  unfold ends_a_call. rewrite last_app. by destruct (last b).
Qed.

Lemma ends_a_call_not_blocked random req script retries b d :
  ends_a_call script -> script <> [] ->
  f_result (fetch_loop random req retries b d script) <> Blocked.
Proof.
  intros Hend Hne.
  destruct (script_decisive script retries)
    as [[Hall Hix]|(pre & o & rest & -> & Hpre & Hix & Hd)].
  - exfalso. unfold ends_a_call in Hend.
    destruct (last script) as [o|] eqn:El.
    + apply last_Some in El as [l' ->].
      apply Forall_app in Hall as [_ Ho]. apply Forall_cons in Ho as [Ho _].
      congruence.
    + apply last_None in El. done.
  - destruct (fetch_loop_decided random req retries b d pre o rest Hpre Hix Hd)
      as (-> & _).
    apply decided_not_blocked.
Qed.

Lemma page_loop_app random since fuel :
  forall v st s1 s2 fuel',
  length s1 < fuel -> length (s1 ++ s2) < fuel' ->
  ends_a_call s1 ->
  let r1 := page_loop random since fuel v st s1 in
  r_result r1 = Blocked ->
  let r := page_loop random since fuel' v st (s1 ++ s2) in
  let r2 := page_loop random since fuel' (r_loop r1) (r_state r1) s2 in
  r_state r = r_state r2 /\ r_result r = r_result r2
  /\ exported (r_events r) = exported (r_events r1) ++ exported (r_events r2).
Proof.
  induction fuel as [|fuel IH];
    intros v st s1 s2 fuel' Hfuel Hfuel' Hend r1 Hres r r2; [lia|].
  subst r r2 r1.
  destruct s1 as [|o s1'].
  { rewrite page_loop_fails in * by done.
    cbn [r_loop r_state r_events fetchPageOfUsers fetch_loop f_draws f_events app].
    rewrite with_draws_same, exported_app.
    destruct (cooldown_events_readings (totalUsers v)) as (_ & -> & _).
    done. }
  set (s1 := o :: s1') in *.
  set (fr1 := fetchPageOfUsers random (Js.or_undefined (cursor v)) since
                (draws st) s1).
  assert (Hnb : f_result fr1 <> Blocked)
    by (by apply ends_a_call_not_blocked).
  destruct (fetch_loop_app random
              (build_request (Js.or_undefined (cursor v)) since) s1
              0 CONFIG.rateLimit.initialBackoffMs (draws st) s2 Hnb)
    as (Ha1 & Ha2 & Ha3 & Ha4).
  fold (fetchPageOfUsers random (Js.or_undefined (cursor v)) since (draws st) s1)
    in Ha1, Ha2, Ha3, Ha4.
  fold (fetchPageOfUsers random (Js.or_undefined (cursor v)) since (draws st)
          (s1 ++ s2)) in Ha1, Ha2, Ha3, Ha4.
  fold fr1 in Ha1, Ha2, Ha3, Ha4.
  destruct (turn_cases fr1) as [Hfail|(q & users & Hq & Hdata)].
  { exfalso. rewrite page_loop_fails in Hres by done. fold fr1 in Hres.
    cbn [r_result] in Hres. by destruct (f_result fr1). }
  destruct fuel' as [|fuel']; [cbn in Hfuel'; lia|].
  rewrite (page_loop_page random since fuel v st s1 q users) in * by done.
  rewrite (page_loop_page random since fuel' v st (s1 ++ s2) q users)
    by (done || by rewrite Ha1).
  fold fr1 in Hres |- *. rewrite Ha2, Ha3, Ha4.
  set (p := processPage users (next_cursor q) v (with_draws (f_draws fr1) st))
    in *.
  destruct (p_next p); [|by cbn in Hres].
  cbn [run_emit r_result r_state r_loop r_events] in Hres |- *.
  pose proof (fetchPageOfUsers_rest_shorter random (Js.or_undefined (cursor v))
                since (draws st) s1 q Hq) as Hshort. fold fr1 in Hshort.
  destruct (fetch_loop_rest random
              (build_request (Js.or_undefined (cursor v)) since) s1
              0 CONFIG.rateLimit.initialBackoffMs (draws st)) as (used & E & _).
  fold (fetchPageOfUsers random (Js.or_undefined (cursor v)) since (draws st) s1)
    in E. fold fr1 in E.
  assert (Hend' : ends_a_call (f_rest fr1)).
  { apply (ends_a_call_suffix used). by rewrite <- E. }
  assert (Hl1 : length (f_rest fr1) < fuel) by lia.
  assert (Hl2 : length (f_rest fr1 ++ s2) < fuel').
  { rewrite length_app in *. lia. }
  destruct (IH (p_loop p) (p_state p) (f_rest fr1) s2 fuel' Hl1 Hl2 Hend' Hres)
    as (H1 & H2 & H3).
  set (r1 := page_loop random since fuel (p_loop p) (p_state p) (f_rest fr1)) in *.
  rewrite (page_loop_fuel random since (S fuel') fuel' (r_loop r1) (r_state r1) s2)
    by (rewrite length_app in Hl2; lia).
  split_and!; try done.
  rewrite !exported_app, H3. by rewrite !app_assoc.
Qed.

(** ** The header is due before the first row only *)




(** ** The rows of the records exported *)








(** ** Files are read trimmed *)

Lemma trimStart_blank_app pre s :
  blank pre = true -> Js.trimStart (pre +:+ s) = Js.trimStart s.
Proof.
  induction pre as [|c pre IH]; [done|]. cbn [blank].
  intros [Hc Hpre]%andb_true_iff. rewrite app_cons. cbn [Js.trimStart].
  rewrite Hc. by apply IH.
Qed.

Lemma trimEnd_blank s : blank s = true -> Js.trimEnd s = EmptyString.
Proof.
  induction s as [|c s IH]; [done|]. cbn [blank].
  intros [Hc Hs]%andb_true_iff. cbn [Js.trimEnd]. by rewrite (IH Hs), Hc.
Qed.

Lemma trimEnd_app_blank a b :
  Js.trimEnd b = EmptyString -> Js.trimEnd (a +:+ b) = Js.trimEnd a.
Proof.
  intros Hb. induction a as [|c a IH]; [done|].
  rewrite app_cons. cbn [Js.trimEnd]. by rewrite IH.
Qed.

Lemma trim_pad pre s post :
  blank pre = true -> blank post = true ->
  Js.trim (pre +:+ s +:+ post) = Js.trim s.
Proof.
  intros Hpre Hpost. unfold Js.trim.
  pose proof (trimEnd_app_blank s post (trimEnd_blank post Hpost)) as Hs.
  destruct (Js.trimEnd s) as [|c t] eqn:Et.
  - rewrite trimEnd_app_blank by done. by rewrite (trimEnd_blank pre Hpre).
  - rewrite trimEnd_app by (by rewrite Hs). rewrite Hs.
    by apply trimStart_blank_app.
Qed.

Lemma load_line_pad pre line post (ids : gset string) :
  blank pre = true -> blank post = true ->
  load_line (pre +:+ line +:+ post) ids = load_line line ids.
Proof. intros Hpre Hpost. unfold load_line. by rewrite trim_pad. Qed.

Lemma split_lines ls :
  Forall (fun l => Js.has_char Js.newline l = false) ls ->
  Js.split Js.newline (lines_text ls) = ls ++ [EmptyString].
Proof.
  intros Hls. rewrite <- (app_empty_r (lines_text _)), split_lines_text.
  f_equal. induction Hls as [|l ls Hl _ IH]; [done|].
  cbn [map concat]. by rewrite (split_absent _ _ Hl), IH.
Qed.

Lemma fold_load_line_cr ls :
  forall ids : gset string,
  fold_left (fun acc line => load_line line acc)
    (map (fun l => l +:+ String "013" EmptyString) ls) ids
  = fold_left (fun acc line => load_line line acc) ls ids.
Proof.
  induction ls as [|l ls IH]; intros ids; [done|]. cbn [map fold_left].
  rewrite IH. f_equal.
  by apply (load_line_pad EmptyString l (String "013" EmptyString)).
Qed.

(** X21.  Files are read trimmed: the cursor file and the timestamp file
    read the same with white space before and after their content, and a
    sink whose lines end in CR LF gives the same index as the sink whose
    lines end in LF. *)
Theorem files_read_trimmed pre post c t (f : Files) :
  blank pre = true -> blank post = true ->
  loadSavedCursor (set_cursor_file (Some (pre +:+ c +:+ post)) f)
  = loadSavedCursor (set_cursor_file (Some c) f)
  /\ loadLastFetchTimestamp (set_timestamp_file (Some (pre +:+ t +:+ post)) f)
     = loadLastFetchTimestamp (set_timestamp_file (Some t) f)
  /\ forall lines (ids : gset string),
       Forall (fun l => Js.has_char Js.newline l = false) lines ->
       loadExistingUserIds
         (set_users_file
            (Some (lines_text (map (fun l => l +:+ String "013" EmptyString)
                                 lines))) f) ids
       = loadExistingUserIds (set_users_file (Some (lines_text lines)) f) ids.
Proof.
  intros Hpre Hpost. split_and!.
  - unfold loadSavedCursor. cbn [cursor_file set_cursor_file].
    by rewrite trim_pad.
  - unfold loadLastFetchTimestamp. cbn [timestamp_file set_timestamp_file].
    by rewrite trim_pad.
  - intros lines ids Hlines. unfold loadExistingUserIds, load_lines.
    cbn [users_file set_users_file].
    rewrite !split_lines; [|done|].
    + destruct lines as [|l lines]; [done|]. cbn [map app tail].
      rewrite !fold_left_app. cbn [fold_left]. by rewrite fold_load_line_cr.
    + apply Forall_forall. intros x [l [-> Hl]]%list_elem_of_fmap.
      rewrite Forall_forall in Hlines. rewrite has_char_app, (Hlines l Hl).
      done.
Qed.

Lemma files_read_trimmed_witness :
  loadSavedCursor (set_cursor_file (Some (" " +:+ "c41" +:+ String "010" EmptyString))
                     no_files)
  = loadSavedCursor (set_cursor_file (Some "c41") no_files)
  /\ loadLastFetchTimestamp
       (set_timestamp_file (Some (" " +:+ "1700000000" +:+ String "010" EmptyString))
          no_files)
     = loadLastFetchTimestamp (set_timestamp_file (Some "1700000000") no_files)
  /\ forall lines (ids : gset string),
       Forall (fun l => Js.has_char Js.newline l = false) lines ->
       loadExistingUserIds
         (set_users_file
            (Some (lines_text (map (fun l => l +:+ String "013" EmptyString)
                                 lines))) no_files) ids
       = loadExistingUserIds (set_users_file (Some (lines_text lines)) no_files)
           ids.
Proof.
  apply (files_read_trimmed " " (String "010" EmptyString) "c41" "1700000000"
           no_files); reflexivity.
Defined.

(** ** The columns of a row *)

Lemma split_length sep s :
  length (Js.split sep s) = S (count_char sep s).
Proof.
  induction s as [|c s IH]; [done|]. cbn [Js.split count_char].
  destruct (Ascii.eqb c sep); cbn [length]; [by rewrite IH|].
  destruct (Js.split sep s) as [|h t] eqn:E; [by apply split_nonempty in E|].
  cbn [length] in *. lia.
Qed.

Lemma count_char_app c a b :
  count_char c (a +:+ b) = count_char c a + count_char c b.
Proof.
  induction a as [|x a IH]; [done|]. rewrite app_cons. cbn [count_char].
  rewrite IH. lia.
Qed.

Lemma count_char_absent c s : Js.has_char c s = false -> count_char c s = 0.
Proof.
  induction s as [|a s IH]; [done|]. rewrite has_char_cons.
  intros [Ha Hs]%orb_false_elim. cbn [count_char]. by rewrite Ha, IH.
Qed.

Lemma count_char_quoted c s :
  Ascii.eqb Js.dquote c = false -> count_char c (quoted s) = count_char c s.
Proof.
  intros Hc. unfold quoted. cbn [count_char]. rewrite Hc, count_char_app.
  cbn [count_char]. rewrite Hc. lia.
Qed.

Lemma count_char_join sep l :
  count_char sep (Js.join (String sep EmptyString) l)
  = list_sum (map (count_char sep) l) + (length l - 1).
Proof.
  induction l as [|x l IH]; [done|].
  destruct l as [|y l]; [cbn; lia|].
  rewrite join_cons2, app_cons, app_empty_l, count_char_app.
  cbn [count_char]. rewrite Ascii.eqb_refl, IH.
  change (map (count_char sep) (x :: y :: l))
    with (count_char sep x :: map (count_char sep) (y :: l)).
  change (list_sum (count_char sep x :: map (count_char sep) (y :: l)))
    with (count_char sep x + list_sum (map (count_char sep) (y :: l))).
  cbn [length]. lia.
Qed.

(** X22.  Values are written without escaping, so commas in them add
    columns: the row of a record, cut at its commas, has six columns and one
    more for every comma in the identifier, in the e-mail address and in the
    wallet address. *)
Theorem formatUserToCsvRow_columns u :
  length (Js.split Js.comma (formatUserToCsvRow u))
  = 6 + count_char Js.comma (id u) + count_char Js.comma (email_of u)
    + count_char Js.comma (wallet_of u).
Proof.
  rewrite split_length, formatUserToCsvRow_join.
  change "," with (String Js.comma EmptyString). rewrite count_char_join.
  cbn [map list_sum length]. rewrite !count_char_quoted by done.
  rewrite (count_char_absent Js.comma
             (Js.toString (Z.of_nat (length (linked_accounts u)))))
    by (by apply toString_has_char).
  replace (count_char Js.comma
             (if (created_at u =? 0)%Z then "" else Js.toString (created_at u)))
    with 0.
  2:{ destruct (Z.eqb _ _); [done|]. symmetry. apply count_char_absent.
      by apply toString_has_char. }
  replace (count_char Js.comma (if is_guest u then "true" else "false")) with 0
    by (by destruct (is_guest u)).
  unfold list_sum. cbn [foldr]. lia.
Qed.

(** ** An answer the script fails on *)

Lemma page_loop_failing_outcome random since fuel v st o :
  retried o = false -> page_of o = None ->
  let r := page_loop random since (S fuel) v st [o] in
  (exists e, r_result r = Failed e)
  /\ files (r_state r) = files st
  /\ exported (r_events r) = [].
Proof.
  intros Hr Hp r. subst r.
  set (fr := fetchPageOfUsers random (Js.or_undefined (cursor v)) since
               (draws st) [o]).
  destruct (fetch_loop_decisive random
              (build_request (Js.or_undefined (cursor v)) since) 0
              CONFIG.rateLimit.initialBackoffMs (draws st) o [])
    as (Hres & _); [by left|].
  fold (fetchPageOfUsers random (Js.or_undefined (cursor v)) since (draws st) [o])
    in Hres. fold fr in Hres.
  assert (Hfail : match f_result fr with Ok q => data q = None | _ => True end).
  { rewrite Hres. destruct o as [status [q|]|m]; cbn in *.
    - by destruct (response_ok status).
    - by destruct (response_ok status).
    - by destruct (Js.includes _ _). }
  rewrite page_loop_fails by done. fold fr.
  cbn [r_result r_state r_events files with_draws]. split_and!; try done.
  - pose proof (decided_not_blocked 0 o) as Hnb. rewrite <- Hres in Hnb.
    destruct (f_result fr); [by eexists|by eexists|done].
  - unfold fr.
    by destruct (turn_events_exported _ _
                   (fetch_turn_events random since v st [o])) as [-> _].
Qed.

Lemma main_failing_answer inv inv' f o :
  upstream inv' = upstream inv ++ [o] ->
  random inv' = random inv -> FETCH_NEW_ONLY inv' = FETCH_NEW_ONLY inv ->
  ends_a_call (upstream inv) ->
  x_result (main inv f) = Blocked ->
  retried o = false -> page_of o = None ->
  (exists e, x_result (main inv' f) = Failed e)
  /\ x_files (main inv' f) = x_files (main inv f)
  /\ exported (x_events (main inv' f)) = exported (x_events (main inv f)).
Proof.
  intros Hup Hrnd Hmode Hend Hblk Hr Hp.
  assert (Hb : begins inv f = true)
    by (apply main_result_begins; by rewrite Hblk).
  assert (Hb' : begins inv' f = true)
    by (revert Hb; unfold begins, main_since; by rewrite Hmode).
  destruct (main_pass_spec inv f Hb) as (Hr1 & _ & Hf1).
  rewrite Hblk in Hr1. symmetry in Hr1. rewrite Hr1 in Hf1.
  destruct (main_pass_spec inv' f Hb') as (Hr2 & _ & Hf2).
  destruct (main_loop inv f Hb) as (Hex1 & _).
  destruct (main_loop inv' f Hb') as (Hex2 & _).
  fold (main_state f) (main_vars f) (main_since inv f) in Hex1.
  fold (main_pass inv f) in Hex1.
  fold (main_state f) (main_vars f) (main_since inv' f) in Hex2.
  fold (main_pass inv' f) in Hex2.
  assert (Hsince : main_since inv' f = main_since inv f).
  { unfold main_since. by rewrite Hmode. }
  assert (HU : main_pass inv' f
               = page_loop (random inv) (main_since inv f)
                   (S (length (upstream inv ++ [o]))) (main_vars f) (main_state f)
                   (upstream inv ++ [o])).
  { unfold main_pass. by rewrite Hup, Hrnd, Hsince. }
  destruct (page_loop_app (random inv) (main_since inv f)
              (S (length (upstream inv))) (main_vars f) (main_state f)
              (upstream inv) [o] (S (length (upstream inv ++ [o]))))
    as (H1 & H2 & H3); [lia|lia|done|exact Hr1|].
  fold (main_pass inv f) in H1, H2, H3. rewrite <- HU in H1, H2, H3.
  destruct (page_loop_failing_outcome (random inv) (main_since inv f)
              (length (upstream inv ++ [o])) (r_loop (main_pass inv f))
              (r_state (main_pass inv f)) o Hr Hp) as ([e He] & Hfiles & Hex).
  rewrite He in H2. rewrite Hex, app_nil_r in H3.
  rewrite H2 in Hr2, Hf2. split_and!.
  - by exists e.
  - rewrite Hf2, Hf1, H1. exact Hfiles.
  - by rewrite Hex2, Hex1.
Qed.

(** X23.  An answer the script fails on changes nothing: when an
    invocation that waits for the answer to the first request of a page is
    given an answer it does not retry and reads no page from (a status that
    is neither 2xx nor 429, a 2xx body that does not parse or holds no
    array, a transport failure whose message holds "HTTP error"), it exits
    with an error and leaves the three files as they were while it waited:
    the sink, the cursor of the last page processed, the watermark. *)
Theorem main_failing_answer_changes_nothing inv inv' f o :
  upstream inv' = upstream inv ++ [o] ->
  random inv' = random inv -> FETCH_NEW_ONLY inv' = FETCH_NEW_ONLY inv ->
  ends_a_call (upstream inv) ->
  x_result (main inv f) = Blocked ->
  retried o = false -> page_of o = None ->
  (exists e, x_result (main inv' f) = Failed e)
  /\ x_files (main inv' f) = x_files (main inv f)
  /\ exported (x_events (main inv' f)) = exported (x_events (main inv f)).
Proof. apply main_failing_answer. Qed.

Lemma main_failing_answer_changes_nothing_witness :
  let user i := {| id := i; created_at := 100; is_guest := false;
                   linked_accounts := [] |} in
  let page1 := Response 200 (Json {| data := Some [user "a"; user "b"];
                                     next_cursor := Some "c1" |}) in
  let inv := {| FETCH_NEW_ONLY := false; now := 5000; now_time_value := I;
                random := fun _ => 1 # 2;
                upstream := [page1] |} in
  let inv' := {| FETCH_NEW_ONLY := false; now := 7000; now_time_value := I;
                 random := fun _ => 1 # 2;
                 upstream := [page1; Response 503 NotJson] |} in
  (exists e, x_result (main inv' no_files) = Failed e)
  /\ x_files (main inv' no_files) = x_files (main inv no_files)
  /\ exported (x_events (main inv' no_files))
     = exported (x_events (main inv no_files)).
Proof.
  intros user page1 inv inv'.
  apply (main_failing_answer_changes_nothing inv inv' no_files
           (Response 503 NotJson)); reflexivity.
Defined.

(** ** The checkpoint *)

Lemma answers_app a b : answers (a ++ b) = answers a ++ answers b.
Proof. apply omap_app. Qed.

(** What a call reads, and the page it returns. *)
Lemma fetch_loop_answers random req script :
  forall retries backoffMs draws,
  let fr := fetch_loop random req retries backoffMs draws script in
  exists used,
    script = used ++ f_rest fr
    /\ answers used
       = match f_result fr with
         | Ok q => match data q with Some _ => [q] | None => [] end
         | _ => []
         end
    /\ (f_result fr <> Blocked -> used <> [])
    /\ (forall q, f_result fr = Ok q ->
        exists ev, f_events fr = ev ++ [EvSleep Pacing pacing_delay]).
Proof.
  induction script as [|o script IH]; intros retries backoffMs draws fr; subst fr.
  { exists []. by split_and!. }
  destruct o as [status body|message]; cbn [fetch_loop].
  - destruct (response_ok status) eqn:Hok.
    + exists [Response status body]. cbn [f_rest f_result f_events].
      split_and!; try done.
      * unfold answers. cbn. rewrite Hok. destruct body as [q|]; [|done].
        by destruct (data q).
      * intros q _. by exists [EvFetch req].
    + destruct (Z.eqb status 429).
      * destruct (IH (S retries) (next_backoff backoffMs (random draws))
                    (S draws)) as (used & E & Ha & Hne & Hend).
        exists (Response status body :: used).
        rewrite fetch_emit_rest, fetch_emit_result, fetch_emit_events.
        split_and!.
        -- cbn. by f_equal.
        -- rewrite <- Ha. unfold answers. cbn. rewrite Hok.
           by destruct body.
        -- done.
        -- intros q Hq. destruct (Hend q Hq) as (ev & ->).
           eexists. by rewrite app_assoc.
      * exists [Response status body]. cbn [f_rest f_result f_events].
        split_and!; try done. unfold answers. cbn. rewrite Hok.
        by destruct body.
  - destruct (Js.includes "HTTP error" message).
    { exists [Rejected message]. by split_and!. }
    destruct (5 <? S retries)%nat.
    { exists [Rejected message]. by split_and!. }
    destruct (IH (S retries) (next_backoff backoffMs (random draws))
                (S draws)) as (used & E & Ha & Hne & Hend).
    exists (Rejected message :: used).
    rewrite fetch_emit_rest, fetch_emit_result, fetch_emit_events.
    split_and!; try done.
    + cbn. by f_equal.
    + intros q Hq. destruct (Hend q Hq) as (ev & ->).
      eexists. by rewrite app_assoc.
Qed.

Lemma quiet_cursor_writes ev : Forall quiet ev -> cursor_writes ev = [].
Proof.
  induction 1 as [|e ev [_ He] _ IH]; [done|].
  unfold cursor_writes in *. cbn. by rewrite He.
Qed.

Lemma cursor_writes_app a b :
  cursor_writes (a ++ b) = cursor_writes a ++ cursor_writes b.
Proof. apply omap_app. Qed.

Lemma quiet_not_save e : quiet e -> is_save e = false.
Proof. intros [_ H]. by destruct e. Qed.

Lemma checkpointed_app prev a b :
  checkpointed prev (a ++ b)
  <-> checkpointed prev a
      /\ checkpointed (match last a with Some e => Some e | None => prev end) b.
Proof.
  revert prev. induction a as [|e a IH]; intros prev; [cbn; tauto|].
  cbn [app checkpointed]. rewrite IH.
  replace (match last (e :: a) with Some e0 => Some e0 | None => prev end)
    with (match last a with Some e0 => Some e0 | None => Some e end);
    [tauto|].
  destruct a as [|e' a]; [done|]. rewrite last_cons_cons.
  destruct (last (e' :: a)) eqn:E; [done|]. by apply last_None in E.
Qed.

Lemma checkpointed_quiet prev ev :
  from_option is_append false prev = false ->
  Forall quiet ev ->
  checkpointed prev ev
  /\ from_option is_append false
       (match last ev with Some e => Some e | None => prev end) = false.
Proof.
  intros Hp Hq. revert prev Hp.
  induction Hq as [|e ev He _ IH]; intros prev Hp; [done|].
  destruct (IH (Some e)) as [H1 H2]; [apply He|].
  cbn [checkpointed]. split.
  - split_and!; [by rewrite Hp|by rewrite (quiet_not_save e He)|done].
  - destruct ev as [|e' ev]; [apply He|]. rewrite last_cons_cons.
    destruct (last (e' :: ev)) eqn:E; [done|]. by apply last_None in E.
Qed.

Lemma turn_events_quiet req ev :
  Forall (fun e => fetch_event req e
                   \/ e = EvSleep BatchCooldown CONFIG.batchCooldownMs) ev ->
  Forall quiet ev.
Proof.
  intros H. eapply Forall_impl; [exact H|].
  intros e [He| ->]; [|done]. by destruct e.
Qed.

(** What the processing of a page writes: the rows, if any are new, then
    the cursor. *)
Lemma processPage_checkpoint users c v st ms :
  let p := processPage users c v st in
  cursor_writes (p_events p) = [EvSaveCursor (Js.or_empty c)]
  /\ checkpointed (Some (EvSleep Pacing ms)) (p_events p)
  /\ last (p_events p) = Some (EvSaveCursor (Js.or_empty c)).
Proof.
  intros p. subst p.
  destruct (processPage_events users c v st) as (ev & -> & Hshape & _).
  rewrite last_snoc.
  destruct Hshape as [->|(text & rows & ->)]; cbn; by split_and!.
Qed.

(** A pass saves the cursor once for each page it reads, at once after the
    page is processed, and writes the cursor file at no other time. *)
Lemma page_loop_checkpoints random since fuel :
  forall v st script prev,
  length script < fuel ->
  from_option is_append false prev = false ->
  let r := page_loop random since fuel v st script in
  exists used,
    script = used ++ r_rest r
    /\ cursor_writes (r_events r) = map save_of (answers used)
    /\ checkpointed prev (r_events r)
    /\ from_option is_append false
         (match last (r_events r) with Some e => Some e | None => prev end)
       = false.
Proof.
  induction fuel as [|fuel IH]; intros v st script prev Hfuel Hprev r; [lia|].
  subst r.
  set (fr := fetchPageOfUsers random (Js.or_undefined (cursor v)) since
               (draws st) script).
  destruct (fetch_loop_answers random
              (build_request (Js.or_undefined (cursor v)) since) script
              0 CONFIG.rateLimit.initialBackoffMs (draws st))
    as (used & E & Ha & Hne & Hend).
  fold (fetchPageOfUsers random (Js.or_undefined (cursor v)) since (draws st) script)
    in E, Ha, Hne, Hend. fold fr in E, Ha, Hne, Hend.
  pose proof (turn_events_quiet _ _ (fetch_turn_events random since v st script))
    as Hquiet. fold fr in Hquiet.
  destruct (checkpointed_quiet prev _ Hprev Hquiet) as [Hck Hlast].
  pose proof (quiet_cursor_writes _ Hquiet) as Hqw.
  pose proof Hqw as Hqw'. rewrite cursor_writes_app in Hqw'.
  apply app_eq_nil in Hqw' as [Hqw1 Hqw2].
  destruct (turn_cases fr) as [Hfail|(q & users & Hq & Hdata)].
  - rewrite page_loop_fails by done. fold fr.
    cbn [r_events r_result r_rest r_state r_loop]. exists used.
    rewrite Hqw.
    split_and!; try done. rewrite Ha.
    destruct (f_result fr) as [q| |]; [by rewrite Hfail|done..].
  - rewrite (page_loop_page random since fuel v st script q users) by done.
    fold fr. rewrite Hq, Hdata in Ha.
    set (p := processPage users (next_cursor q) v (with_draws (f_draws fr) st)).
    destruct (Hend q Hq) as (ev & Hev).
    destruct (processPage_checkpoint users (next_cursor q) v
                (with_draws (f_draws fr) st) pacing_delay)
      as (Hw & Hckp & Hlastp). fold p in Hw, Hckp, Hlastp.
    assert (Hturn : last (cooldown_events (totalUsers v) ++ f_events fr)
                    = Some (EvSleep Pacing pacing_delay)).
    { by rewrite Hev, app_assoc, last_snoc. }
    assert (Hck2 : checkpointed prev
                     ((cooldown_events (totalUsers v) ++ f_events fr)
                      ++ p_events p)).
    { apply checkpointed_app. split; [done|]. by rewrite Hturn. }
    assert (Hlast2 : last ((cooldown_events (totalUsers v) ++ f_events fr)
                           ++ p_events p)
                     = Some (EvSaveCursor (Js.or_empty (next_cursor q)))).
    { rewrite last_app, Hlastp. done. }
    destruct (p_next p).
    + assert (Hlen : length (f_rest fr) < fuel).
      { apply (f_equal length) in E. rewrite length_app in E.
        assert (used <> []) as Hu by (apply Hne; by rewrite Hq).
        destruct used; [done|]. cbn in E. lia. }
      destruct (IH (p_loop p) (p_state p) (f_rest fr)
                  (Some (EvSaveCursor (Js.or_empty (next_cursor q))))
                  Hlen eq_refl)
        as (used' & E' & Hw' & Hck' & Hlast').
      exists (used ++ used').
      rewrite run_emit_events. cbn [run_emit r_rest r_result r_state r_loop].
      rewrite !cursor_writes_app, Hqw1, Hqw2, Hw, Hw'.
      rewrite answers_app, Ha, map_app. cbn [app map].
      split_and!.
      * by rewrite <- app_assoc, <- E'.
      * done.
      * apply checkpointed_app. split; [done|]. by rewrite Hlast2.
      * rewrite last_app.
        destruct (last (r_events _)) as [e|] eqn:El; [done|].
        by rewrite Hlast2.
    + exists used. cbn [r_events r_result r_rest r_state r_loop].
      rewrite !cursor_writes_app, Hqw1, Hqw2, Hw, Ha.
      split_and!; try done. by rewrite Hlast2.
Qed.

Lemma main_outcomes_read inv f :
  begins inv f = true ->
  upstream inv = outcomes_read inv f ++ r_rest (main_pass inv f).
Proof.
  intros Hbegun.
  destruct (main_pass_spec inv f Hbegun) as (_ & Hev & _).
  assert (Hreq : requests (x_events (main inv f))
                 = requests (r_events (main_pass inv f))).
  { rewrite Hev, requests_app.
    destruct (r_result (main_pass inv f)); by rewrite app_nil_r. }
  destruct (page_loop_reads (random inv) (main_since inv f)
              (S (length (upstream inv))) (main_vars f) (main_state f)
              (upstream inv)) as (used & E & Hn & _); [lia|].
  fold (main_pass inv f) in E, Hn.
  assert (Hread : outcomes_read inv f = used); [|by rewrite Hread].
  unfold outcomes_read. rewrite Hreq, Hn.
  destruct (r_result (main_pass inv f)) eqn:Hres.
  - rewrite Nat.add_0_r, E at 1. by rewrite take_app_length.
  - rewrite Nat.add_0_r, E at 1. by rewrite take_app_length.
  - pose proof (page_loop_blocked (random inv) (main_since inv f)
                  (S (length (upstream inv))) (main_vars f) (main_state f)
                  (upstream inv)) as Hb.
    fold (main_pass inv f) in Hb. cbv zeta in Hb.
    rewrite Hb in E by (done || lia). rewrite app_nil_r in E. subst used.
    apply take_ge. lia.
Qed.

Lemma saved_cursor_writes ev :
  omap saved_cursor ev = omap saved_cursor (cursor_writes ev).
Proof.
  induction ev as [|e ev IH]; [done|]. unfold cursor_writes in *.
  destruct e; cbn; by rewrite ?IH.
Qed.

Lemma last_checkpoint_pages init ev pages :
  cursor_writes ev = map save_of pages ->
  last_checkpoint init ev
  = match last pages with
    | Some q => Some (Js.or_empty (next_cursor q))
    | None => init
    end.
Proof.
  intros H. unfold last_checkpoint. rewrite saved_cursor_writes, H.
  replace (omap saved_cursor (map save_of pages))
    with ((fun q => Js.or_empty (next_cursor q)) <$> pages).
  - rewrite fmap_last. by destruct (last pages).
  - clear. induction pages as [|q pages IH]; [done|]. cbn. by rewrite IH.
Qed.



(** The trace of an invocation and the pages it read. *)
Lemma main_checkpoints inv f :
  let x := main inv f in
  cursor_writes (x_events x)
  = map save_of (pages_read inv f)
    ++ match x_result x with Ok _ => [EvUnlinkCursor] | _ => [] end
  /\ checkpointed None (x_events x)
  /\ from_option is_append false (last (x_events x)) = false
  /\ (x_result x <> Ok tt ->
      cursor_file (x_files x) = checkpoint f (pages_read inv f)).
Proof.
  intros x. subst x. unfold pages_read, outcomes_read.
  begun inv f Hb; [|done]. fold (outcomes_read inv f).
  destruct (main_pass_spec inv f Hb) as (Hr & Hev & Hf).
  destruct (page_loop_checkpoints (random inv) (main_since inv f)
              (S (length (upstream inv))) (main_vars f) (main_state f)
              (upstream inv) None) as (used & E & Hw & Hck & Hlast);
    [lia|done|].
  fold (main_pass inv f) in E, Hw, Hck, Hlast.
  assert (Hused : used = outcomes_read inv f).
  { pose proof (main_outcomes_read inv f Hb) as E'. rewrite E in E' at 1.
    by apply app_inv_tail in E'. }
  subst used. rewrite Hr, Hev, Hf, cursor_writes_app, Hw.
  split_and!.
  - by destruct (r_result (main_pass inv f)).
  - apply checkpointed_app. split; [done|].
    destruct (r_result (main_pass inv f)); [|done..].
    destruct (last (r_events (main_pass inv f))) as [e|]; cbn in *;
      by rewrite ?Hlast.
  - rewrite last_app.
    destruct (r_result (main_pass inv f)); [done|..]; cbn [last];
      by destruct (last (r_events (main_pass inv f))).
  - intros Hne. destruct (r_result (main_pass inv f)) as [[]| |] eqn:Hres;
      [done|..]; unfold main_pass;
      rewrite page_loop_cursor_file; fold (main_pass inv f);
      apply (last_checkpoint_pages _ _ _ Hw).
Qed.


(** * The two texts of the script *)

Lemma appendUsersToFile_fresh users ifb f (ids : gset string) :
  users <> [] ->
  NoDup (map id users) -> Forall (fun u => id u ∉ ids) users ->
  (ifb = true -> shouldAddHeader f = true) ->
  let a := appendUsersToFile users ifb f ids in
  a_files a = fst (V0.appendUsersToFile users ifb f)
  /\ a_text a = Some (snd (V0.appendUsersToFile users ifb f))
  /\ a_rows a = users /\ a_newUsers a = length users
  /\ a_ids a = ids ∪ ids_of users.
Proof.
  intros Hne Hnd Hfresh Hhdr a. subst a.
  destruct (fold_batch_step_fresh users
              {| b_rows := []; b_ids := ids; b_new := 0; b_dup := 0 |}
              Hnd Hfresh) as [Hrows Hnew].
  fold (batch_users users ids) in Hrows, Hnew. cbn [b_rows b_new app] in *.
  assert (Hh : ifb && shouldAddHeader f = ifb).
  { destruct ifb; [by rewrite Hhdr|done]. }
  unfold appendUsersToFile, V0.appendUsersToFile. cbv zeta.
  rewrite Hrows, Hnew, Hh.
  assert (Hids : b_ids (batch_users users ids) = ids ∪ ids_of users).
  { unfold batch_users, ids_of. by rewrite fold_batch_step_ids. }
  rewrite Hids.
  destruct users as [|u users]; [done|].
  by destruct ifb.
Qed.

Lemma processPage_V0 users c v st v0 st0 :
  same_run v st v0 st0 ->
  NoDup (map id users) ->
  Forall (fun u => id u ∉ processedUserIds st) users ->
  (isFirstBatch v = true -> shouldAddHeader (files st) = true) ->
  let p := processPage users c v st in
  let p0 := V0.processPage users c v0 st0 in
  p_events p = V0.p_events p0 /\ p_next p = V0.p_next p0
  /\ same_run (p_loop p) (p_state p) (V0.p_loop p0) (V0.p_state p0)
  /\ processedUserIds (p_state p) = processedUserIds st ∪ ids_of users
  /\ (isFirstBatch (p_loop p) = true ->
      shouldAddHeader (files (p_state p)) = true).
Proof.
  intros (Hc & Hb & Ht & Hf & Hd) Hnd Hfresh Hhdr p p0. subst p p0.
  destruct users as [|u users].
  - unfold processPage, V0.processPage, same_run. cbn.
    rewrite Hb, Ht, Hf, Hd. split_and!; try done.
    + unfold ids_of. cbn. set_solver.
    + intros H. rewrite <- Hb in H. rewrite <- Hf. exact (Hhdr H).
  - destruct (appendUsersToFile_fresh (u :: users) (isFirstBatch v) (files st)
                (processedUserIds st)) as (H1 & H2 & H3 & H4 & H5);
      [done..|].
    unfold processPage, V0.processPage, same_run.
    rewrite H1, H2, H3, H4, H5, <- Hb, <- Hf, <- Ht, <- Hd.
    destruct (V0.appendUsersToFile (u :: users) (isFirstBatch v) (files st))
      as [f1 text] eqn:E.
    cbn. split_and!; done.
Qed.

Lemma fetch_V0 random cursor draws script :
  V0.fetchPageOfUsers random cursor draws script
  = fetchPageOfUsers random cursor None draws script.
Proof. reflexivity. Qed.

Lemma NoDup_ids_app (a b : list PrivyUser) :
  NoDup (map id (a ++ b)) ->
  NoDup (map id a) /\ NoDup (map id b)
  /\ Forall (fun u => id u ∉ ids_of a) b.
Proof.
  rewrite map_app. intros (Ha & Hab & Hb)%NoDup_app. split_and!; try done.
  apply Forall_forall. intros u Hu Hin.
  apply elem_of_ids_of in Hin. apply (Hab _ Hin).
  by apply (list_elem_of_fmap_2 id).
Qed.

(** From states that go together, while every record to come is new, the
    two loops do the same. *)
Lemma page_loop_V0 random fuel :
  forall v st v0 st0 script,
  same_run v st v0 st0 -> all_new v st script ->
  let r := page_loop random None fuel v st script in
  let r0 := V0.page_loop random fuel v0 st0 script in
  r_result r = V0.r_result r0 /\ r_events r = V0.r_events r0
  /\ files (r_state r) = V0.files (V0.r_state r0)
  /\ r_rest r = V0.r_rest r0.
Proof.
  induction fuel as [|fuel IH];
    intros v st v0 st0 script Hsame Hnew r r0; subst r r0.
  { destruct Hsame as (_ & _ & _ & Hf & _). by split_and!. }
  pose proof Hsame as (Hc & Hb & Ht & Hf & Hd).
  destruct Hnew as (Hnd & Hfresh & Hhdr).
  set (fr := fetchPageOfUsers random (Js.or_undefined (cursor v)) None
               (draws st) script).
  assert (Hfr : V0.fetchPageOfUsers random (Js.or_undefined (V0.cursor v0))
                  (V0.draws st0) script = fr).
  { rewrite fetch_V0, <- Hc, <- Hd. done. }
  destruct (fetch_loop_reads random
              (build_request (Js.or_undefined (cursor v)) None) script
              0 CONFIG.rateLimit.initialBackoffMs (draws st))
    as (used & E & _ & Hserved & _).
  fold (fetchPageOfUsers random (Js.or_undefined (cursor v)) None (draws st) script)
    in E, Hserved. fold fr in E, Hserved.
  destruct (turn_cases fr) as [Hfail|(q & users & Hq & Hdata)].
  - rewrite page_loop_fails by done. fold fr.
    cbn [V0.page_loop]. rewrite Hfr. cbv zeta.
    rewrite <- Ht.
    destruct (f_result fr) as [q| |]; [rewrite Hfail|..]; by split_and!.
  - rewrite (page_loop_page random None fuel v st script q users) by done.
    fold fr. cbn [V0.page_loop]. rewrite Hfr. cbv zeta. rewrite Hq, Hdata, <- Ht.
    rewrite Hq, Hdata in Hserved.
    assert (Hscript : served script = users ++ served (f_rest fr)).
    { rewrite E at 1. by rewrite served_app, Hserved. }
    rewrite Hscript in Hnd, Hfresh.
    apply NoDup_ids_app in Hnd as (Hnd1 & Hnd2 & Hdisj).
    apply Forall_app in Hfresh as [Hfresh1 Hfresh2].
    set (st' := with_draws (f_draws fr) st).
    set (st0' := {| V0.files := V0.files st0; V0.draws := f_draws fr |}).
    assert (Hsame' : same_run v st' v0 st0') by (by split_and!).
    destruct (processPage_V0 users (next_cursor q) v st' v0 st0' Hsame' Hnd1
                Hfresh1 Hhdr) as (Hev & Hnext & Hsame'' & Hix & Hhdr').
    set (p := processPage users (next_cursor q) v st') in *.
    set (p0 := V0.processPage users (next_cursor q) v0 st0') in *.
    rewrite <- Hnext. destruct (p_next p).
    + assert (Hnew' : all_new (p_loop p) (p_state p) (f_rest fr)).
      { split_and!; try done. rewrite Hix. apply Forall_forall.
        intros u Hu. rewrite Forall_forall in Hfresh2, Hdisj.
        specialize (Hfresh2 u Hu). specialize (Hdisj u Hu).
        cbn [st' with_draws processedUserIds]. set_solver. }
      destruct (IH (p_loop p) (p_state p) (V0.p_loop p0) (V0.p_state p0)
                  (f_rest fr) Hsame'' Hnew') as (H1 & H2 & H3 & H4).
      cbn [run_emit V0.run_emit r_result r_events r_state r_rest
             V0.r_result V0.r_events V0.r_state V0.r_rest].
      rewrite Hev, H2. by split_and!.
    + cbn [r_result r_events r_state r_rest
             V0.r_result V0.r_events V0.r_state V0.r_rest].
      rewrite Hev. destruct Hsame'' as (_ & _ & _ & Hf'' & _). by split_and!.
Qed.

Lemma main_state_all_new f script :
  users_file f = None -> NoDup (map id (served script)) ->
  all_new (main_vars f) (main_state f) script.
Proof.
  intros Hf Hnd. split_and!; [done| |].
  - cbn [main_state processedUserIds]. unfold loadExistingUserIds.
    rewrite Hf. apply Forall_forall. set_solver.
  - intros _. cbn [main_state files]. unfold shouldAddHeader. by rewrite Hf.
Qed.

Lemma main_V0 inv f :
  users_file f = None -> NoDup (map id (served (upstream inv))) ->
  FETCH_NEW_ONLY inv = false ->
  let x := main inv f in
  let x0 := V0.main (random inv) (upstream inv) f in
  x_result x = x_result x0
  /\ x_events x
     = x_events x0
       ++ match x_result x with
          | Ok _ => [EvSaveTimestamp (Js.toString (now inv / 1000))]
          | _ => []
          end
  /\ users_file (x_files x) = users_file (x_files x0)
  /\ cursor_file (x_files x) = cursor_file (x_files x0).
Proof.
  intros Hf Hnd Hmode x x0. subst x x0.
  assert (Hsince : main_since inv f = None).
  { unfold main_since. by rewrite Hmode. }
  destruct (main_pass_spec inv f (begins_without_watermark inv f Hsince))
    as (Hr & Hev & Hfiles).
  rewrite Hr, Hev, Hfiles. clear Hr Hev Hfiles.
  set (v0 := {| V0.cursor := loadSavedCursor f;
                V0.isFirstBatch :=
                  negb (Js.truthy (Js.or_empty (loadSavedCursor f)));
                V0.totalUsers := 0 |}).
  set (st0 := {| V0.files := f; V0.draws := 0 |}).
  destruct (page_loop_V0 (random inv) (S (length (upstream inv)))
              (main_vars f) (main_state f) v0 st0 (upstream inv))
    as (H1 & H2 & H3 & _);
    [by split_and!|by apply main_state_all_new|].
  rewrite <- Hsince in H1, H2, H3. fold (main_pass inv f) in H1, H2, H3.
  unfold V0.main, V0.getAllUsers. cbv zeta. cbn [V0.files]. fold v0 st0.
  rewrite <- H1.
  destruct (r_result (main_pass inv f)) as [[]| |];
    cbn [x_result x_events x_files V0.r_result V0.r_events V0.r_state V0.files];
    rewrite <- ?H2, <- ?H3, ?app_nil_r, <- ?app_assoc; by split_and!.
Qed.

(** ** The URLs of the two texts *)

Lemma unreserved_not_space c : Url.unreserved c = true -> Ascii.eqb c " " = false.
Proof. by destruct c as [[] [] [] [] [] [] [] []]. Qed.

Lemma encode_plain s : Url.plain s = true -> Url.encode s = s.
Proof.
  induction s as [|c s IH]; [done|]. cbn [Url.plain Url.encode].
  intros [Hc Hs]%andb_true_iff.
  by rewrite (unreserved_not_space c Hc), Hc, (IH Hs).
Qed.

(** A cursor of unreserved code units is written into the URL in the same
    way by the two texts. *)
Lemma fetch_url_plain c :
  plain_cursor c = true -> fetch_url c None = V0.fetch_url c.
Proof.
  unfold fetch_url, V0.fetch_url. destruct c as [s|]; [|done].
  cbn [plain_cursor Js.or_empty]. intros Hs.
  destruct (Js.truthy s) eqn:Ht; [|done].
  cbn [app map Js.join fst snd]. rewrite (encode_plain s Hs). done.
Qed.

Lemma url_of_plain r :
  created_after_param r = None -> plain_cursor (cursor_param r) = true ->
  url_of r = V0.url_of r.
Proof.
  unfold url_of, V0.url_of. intros -> H. by apply fetch_url_plain.
Qed.

Lemma effect_of_ext (u1 u2 : Request -> string) ev :
  Forall (fun r => u1 r = u2 r) (requests ev) ->
  map (effect_of u1) ev = map (effect_of u2) ev.
Proof.
  induction ev as [|e ev IH]; [done|].
  destruct e; cbn; intros H; try (by rewrite IH).
  apply Forall_cons in H as [-> H]. by rewrite IH.
Qed.

(** The cursors of the requests of a trace are the cursor it starts from
    and the cursors it saves. *)
Lemma follows_plain ev :
  forall cur,
  follows cur ev -> plain_cursor cur = true ->
  Forall (fun c => plain_cursor (Js.or_null c) = true) (omap saved_cursor ev) ->
  Forall (fun r => plain_cursor (cursor_param r) = true) (requests ev).
Proof.
  induction ev as [|e ev IH]; intros cur Hf Hc Hs; [done|].
  destruct e as [r|k ms|text rows|content| |]; cbn in Hf, Hs |- *;
    try (by apply (IH cur)).
  - destruct Hf as [Hr Hf]. constructor; [by rewrite Hr|]. by apply (IH cur).
  - apply Forall_cons in Hs as [Hc' Hs]. by apply (IH (Js.or_null content)).
Qed.

Lemma main_follows inv f :
  follows (loadSavedCursor f) (x_events (main inv f)).
Proof.
  begun inv f Hb; [|done].
  destruct (main_pass_spec inv f Hb) as (_ & -> & _).
  rewrite <- (or_undefined_loadSavedCursor f).
  apply (page_loop_follows (random inv) (main_since inv f)
           (S (length (upstream inv))) (main_vars f) (main_state f)
           (upstream inv)).
  by destruct (r_result (main_pass inv f)).
Qed.

Lemma plain_cursor_or_undefined c :
  plain_cursor c = true -> plain_cursor (Js.or_undefined c) = true.
Proof. by destruct c as [[|]|]. Qed.

(** The pages an invocation read are among the pages of its upstream. *)
Lemma pages_read_upstream inv f :
  exists rest, answers (upstream inv) = pages_read inv f ++ rest.
Proof.
  unfold pages_read, outcomes_read.
  exists (answers (drop (length (requests (x_events (main inv f))))
                    (upstream inv))).
  by rewrite <- answers_app, take_drop.
Qed.

Lemma main_requests_plain inv f :
  plain_cursor (loadSavedCursor f) = true ->
  Forall (fun q => plain_cursor (next_cursor q) = true) (answers (upstream inv)) ->
  Forall (fun r => plain_cursor (cursor_param r) = true)
    (requests (x_events (main inv f))).
Proof.
  intros Hc Hup.
  apply (follows_plain _ (loadSavedCursor f)); [apply main_follows|done|].
  destruct (main_checkpoints inv f) as (Hw & _).
  rewrite saved_cursor_writes, Hw.
  destruct (pages_read_upstream inv f) as (rest & E). rewrite E in Hup.
  apply Forall_app in Hup as [Hup _].
  rewrite omap_app.
  replace (omap saved_cursor
             match x_result (main inv f) with
             | Ok _ => [EvUnlinkCursor] | _ => []
             end) with (@nil string)
    by (by destruct (x_result (main inv f))).
  rewrite app_nil_r. clear -Hup.
  induction Hup as [|q pages Hq _ IH]; [done|]. cbn.
  constructor; [|done]. rewrite or_null_or_empty.
  by apply plain_cursor_or_undefined.
Qed.

(** X24.  The two texts of the script agree while there is nothing to
    de-duplicate and nothing to encode: from a missing sink, against an
    upstream that serves no identifier twice, not in incremental mode, when
    the cursor saved and the cursors served are of unreserved code units
    (ASCII letters and digits and [* - . _], which [URLSearchParams] writes
    as they are), the script with the index ([index.ts]) and the earlier
    script without it ([part_000]) end in the same way with the same effects
    in the same order (the same URLs fetched, the same sleeps, the same
    texts appended, the same cursors saved), but for the timestamp the first
    writes when it completes, and they leave the same sink and the same
    cursor file. *)
Theorem main_agrees_with_earlier_script inv f :
  users_file f = None -> NoDup (map id (served (upstream inv))) ->
  FETCH_NEW_ONLY inv = false ->
  plain_cursor (loadSavedCursor f) = true ->
  Forall (fun q => plain_cursor (next_cursor q) = true)
    (answers (upstream inv)) ->
  let x := main inv f in
  let x0 := V0.main (random inv) (upstream inv) f in
  x_result x = x_result x0
  /\ map (effect_of url_of) (x_events x)
     = map (effect_of V0.url_of) (x_events x0)
       ++ match x_result x with
          | Ok _ => [FxSaveTimestamp (Js.toString (now inv / 1000))]
          | _ => []
          end
  /\ users_file (x_files x) = users_file (x_files x0)
  /\ cursor_file (x_files x) = cursor_file (x_files x0).
Proof.
  intros Hf Hnd Hmode Hc Hup x x0.
  destruct (main_V0 inv f Hf Hnd Hmode) as (Hr & Hev & Hu & Hcf).
  fold x x0 in Hr, Hev, Hu, Hcf. split_and!; try done.
  pose proof (main_requests_plain inv f Hc Hup) as Hplain.
  destruct (main_requests inv f) as [Hsince _].
  rewrite Hmode in Hsince. fold x in Hplain, Hsince.
  assert (Hurl : Forall (fun r => url_of r = V0.url_of r)
                   (requests (x_events x))).
  { apply Forall_forall. intros r Hin. rewrite Forall_forall in Hplain, Hsince.
    apply url_of_plain; [by apply Hsince|by apply Hplain]. }
  rewrite (effect_of_ext _ _ _ Hurl), Hev, map_app. f_equal.
  by destruct (x_result x).
Qed.

Lemma main_agrees_with_earlier_script_witness :
  let user i := {| id := i; created_at := 100; is_guest := false;
                   linked_accounts := [] |} in
  let inv := {| FETCH_NEW_ONLY := false; now := 5000; now_time_value := I;
                random := fun _ => 1 # 2;
                upstream :=
                  [rate_limited;
                   Response 200 (Json {| data := Some [user "a"; user "b"];
                                         next_cursor := Some "c1" |});
                   Response 200 (Json {| data := Some [user "c"];
                                         next_cursor := None |})] |} in
  let f := {| users_file := None; cursor_file := Some "c0";
              timestamp_file := None |} in
  let x := main inv f in
  let x0 := V0.main (random inv) (upstream inv) f in
  x_result x = x_result x0
  /\ map (effect_of url_of) (x_events x)
     = map (effect_of V0.url_of) (x_events x0)
       ++ match x_result x with
          | Ok _ => [FxSaveTimestamp (Js.toString (now inv / 1000))]
          | _ => []
          end
  /\ users_file (x_files x) = users_file (x_files x0)
  /\ cursor_file (x_files x) = cursor_file (x_files x0).
Proof.
  intros user inv f.
  apply (main_agrees_with_earlier_script inv f).
  - reflexivity.
  - vm_compute. repeat constructor; set_solver.
  - reflexivity.
  - reflexivity.
  - vm_compute. repeat constructor.
Defined.

(** A cursor that holds reserved code units is fetched under two URLs:
    encoded by [index.ts], as it is by [part_000]. *)
Lemma reserved_cursor_two_urls :
  url_of (build_request (Some "a+b&c=d") None)
  = "https://auth.privy.io/api/v1/users?cursor=a%2Bb%26c%3Dd"
  /\ V0.url_of (V0.build_request (Some "a+b&c=d"))
     = "https://auth.privy.io/api/v1/users?cursor=a+b&c=d".
Proof. by vm_compute. Qed.

(** ** The earlier script keeps every record it reads *)

Lemma V0_processPage_readings users c v st :
  let p := V0.processPage users c v st in
  exported (V0.p_events p) = users /\ requests (V0.p_events p) = []
  /\ V0.totalUsers (V0.p_loop p) = V0.totalUsers v + length users.
Proof.
  unfold V0.processPage. destruct users as [|u users].
  - cbn. split_and!; try done; lia.
  - destruct (V0.appendUsersToFile _ _ _) as [f1 text].
    cbn -[exported requests]. unfold exported, requests. cbn.
    by rewrite app_nil_r.
Qed.

Lemma V0_page_loop_reads random fuel :
  forall v st script,
  length script < fuel ->
  let r := V0.page_loop random fuel v st script in
  exists used,
    script = used ++ V0.r_rest r
    /\ length (requests (V0.r_events r))
       = length used + match V0.r_result r with Blocked => 1 | _ => 0 end
    /\ exported (V0.r_events r) = served used
    /\ V0.totalUsers (V0.r_loop r) = V0.totalUsers v + length (served used).
Proof.
  induction fuel as [|fuel IH]; intros v st script Hfuel r; [lia|]. subst r.
  set (fr := V0.fetchPageOfUsers random (Js.or_undefined (V0.cursor v))
               (V0.draws st) script).
  destruct (fetch_loop_reads random
              (V0.build_request (Js.or_undefined (V0.cursor v))) script
              0 CONFIG.rateLimit.initialBackoffMs (V0.draws st))
    as (used & E & Hreq & Hserved & Hne).
  fold (V0.fetchPageOfUsers random (Js.or_undefined (V0.cursor v)) (V0.draws st)
          script) in E, Hreq, Hserved, Hne.
  fold fr in E, Hreq, Hserved, Hne.
  assert (Hcool : requests (cooldown_events (V0.totalUsers v)) = []
                  /\ exported (cooldown_events (V0.totalUsers v)) = []).
  { by destruct (cooldown_events_readings (V0.totalUsers v)) as (-> & -> & _). }
  destruct Hcool as [Hc1 Hc2].
  assert (Hfe : exported (f_events fr) = []).
  { destruct (fetch_loop_events random
                (V0.build_request (Js.or_undefined (V0.cursor v))) script
                0 CONFIG.rateLimit.initialBackoffMs (V0.draws st))
      as (tl & Etl & Htl).
    fold (V0.fetchPageOfUsers random (Js.or_undefined (V0.cursor v))
            (V0.draws st) script) in Etl. fold fr in Etl. rewrite Etl.
    assert (Hall : Forall (fetch_event
                             (V0.build_request (Js.or_undefined (V0.cursor v))))
                     (EvFetch (V0.build_request (Js.or_undefined (V0.cursor v)))
                        :: tl)) by (by constructor).
    by destruct (fetch_events_readings _ _ Hall) as (_ & -> & _). }
  cbn [V0.page_loop]. fold fr. cbv zeta.
  destruct (f_result fr) as [q| |] eqn:Hq.
  - destruct (data q) as [users|] eqn:Hdata.
    + set (st' := {| V0.files := V0.files st; V0.draws := f_draws fr |}).
      destruct (V0_processPage_readings users (next_cursor q) v st')
        as (Hpe & Hpr & Hpt).
      set (p := V0.processPage users (next_cursor q) v st') in *.
      destruct (V0.p_next p).
      * assert (Hlen : length (f_rest fr) < fuel).
        { apply (f_equal length) in E. rewrite length_app in E.
          assert (used <> []) as Hu by (by apply Hne).
          destruct used; [done|]. cbn in E. lia. }
        destruct (IH (V0.p_loop p) (V0.p_state p) (f_rest fr) Hlen)
          as (used' & E' & Hreq' & Hex' & Ht').
        exists (used ++ used').
        cbn [V0.run_emit V0.r_rest V0.r_result V0.r_events V0.r_loop].
        rewrite !requests_app, !exported_app, Hc1, Hc2, Hfe, Hpe, Hpr, Hex'.
        rewrite served_app, Hserved, !length_app, Hreq, Hreq', Ht', Hpt.
        cbn [app length]. split_and!; try done; try lia.
        by rewrite <- app_assoc, <- E'.
      * exists used.
        cbn [V0.r_rest V0.r_result V0.r_events V0.r_loop].
        rewrite !requests_app, !exported_app, Hc1, Hc2, Hfe, Hpe, Hpr.
        rewrite Hserved, !length_app, Hreq. cbn [app length].
        split_and!; try done; lia.
    + exists used. cbn [V0.r_rest V0.r_result V0.r_events V0.r_loop].
      rewrite !requests_app, !exported_app, Hc1, Hc2, Hfe, Hserved.
      cbn [app length]. rewrite Hreq. split_and!; try done; lia.
  - exists used. cbn [V0.r_rest V0.r_result V0.r_events V0.r_loop].
    rewrite !requests_app, !exported_app, Hc1, Hc2, Hfe, Hserved.
    cbn [app length]. rewrite Hreq. split_and!; try done; lia.
  - exists used. cbn [V0.r_rest V0.r_result V0.r_events V0.r_loop].
    rewrite !requests_app, !exported_app, Hc1, Hc2, Hfe, Hserved.
    cbn [app length]. rewrite Hreq. split_and!; try done; lia.
Qed.

Lemma V0_page_loop_blocked random fuel v st script :
  length script < fuel ->
  V0.r_result (V0.page_loop random fuel v st script) = Blocked ->
  V0.r_rest (V0.page_loop random fuel v st script) = [].
Proof.
  revert v st script.
  induction fuel as [|fuel IH]; intros v st script Hfuel; [lia|].
  set (fr := V0.fetchPageOfUsers random (Js.or_undefined (V0.cursor v))
               (V0.draws st) script).
  pose proof (fetch_loop_blocked random
                (V0.build_request (Js.or_undefined (V0.cursor v))) script
                0 CONFIG.rateLimit.initialBackoffMs (V0.draws st)) as Hb.
  fold (V0.fetchPageOfUsers random (Js.or_undefined (V0.cursor v)) (V0.draws st)
          script) in Hb. fold fr in Hb. cbv zeta in Hb.
  pose proof (fetchPageOfUsers_rest_shorter random (Js.or_undefined (V0.cursor v))
                None (V0.draws st) script) as Hshort.
  rewrite <- fetch_V0 in Hshort. fold fr in Hshort. cbv zeta in Hshort.
  cbn [V0.page_loop]. fold fr. cbv zeta.
  destruct (f_result fr) as [q| |] eqn:Hq; cbn [V0.r_result V0.r_rest];
    [|done|by intros _; apply Hb].
  destruct (data q) as [users|]; cbn [V0.r_result V0.r_rest]; [|done].
  destruct (V0.p_next _); cbn [V0.run_emit V0.r_result V0.r_rest]; [|done].
  apply IH. specialize (Hshort q eq_refl). lia.
Qed.

(** X25.  The earlier script keeps every record it reads: the records whose
    rows an invocation of [part_000] appends are the records of the pages it
    read (the arrays of the 2xx answers among the outcomes read, one outcome
    for each request), all of them, in order, a record served twice being
    appended twice. *)
Theorem earlier_script_exports_all random upstream f :
  let x := V0.main random upstream f in
  exported (x_events x)
  = served (take (length (requests (x_events x))) upstream).
Proof.
  intros x. subst x. unfold V0.main, V0.getAllUsers. cbv zeta.
  cbn [V0.files x_events].
  set (v := {| V0.cursor := loadSavedCursor f;
               V0.isFirstBatch :=
                 negb (Js.truthy (Js.or_empty (loadSavedCursor f)));
               V0.totalUsers := 0 |}).
  set (st := {| V0.files := f; V0.draws := 0 |}).
  destruct (V0_page_loop_reads random (S (length upstream)) v st upstream)
    as (used & E & Hn & Hex & _); [lia|].
  pose proof (V0_page_loop_blocked random (S (length upstream)) v st upstream)
    as Hb.
  set (r := V0.page_loop random (S (length upstream)) v st upstream) in *.
  assert (Htake : take (length (requests (V0.r_events r))) upstream = used).
  { rewrite Hn. destruct (V0.r_result r) eqn:Hres.
    - rewrite Nat.add_0_r, E at 1. by rewrite take_app_length.
    - rewrite Nat.add_0_r, E at 1. by rewrite take_app_length.
    - rewrite Hb in E by (done || lia). rewrite app_nil_r in E. subst used.
      apply take_ge. lia. }
  destruct (V0.r_result r) as [[]| |];
    cbn [V0.r_events]; rewrite ?requests_app, ?exported_app, ?app_nil_r;
    cbn [requests omap app]; rewrite ?app_nil_r; by rewrite Htake.
Qed.
